(** * Systematic investing engine: signal construction and walk-forward backtest

    A shallow embedding of the core of [factor_engine]: the factor
    definitions and the momentum factor ([factors/engine.py]), the signal
    generator ([signals/generator.py]), the portfolio builder
    ([portfolio/builder.py]), the execution model, the rebalance schedule,
    the performance summary and the backtest runner ([backtest/]).

    Modelling conventions.
    - A Python [float] is an exact rational ([Q]).  Rounding, NaN and the
      infinities have no counterpart; numpy's element-wise division by
      zero, which would produce them, is outside the model, whereas the
      division of two plain Python floats raises [ZeroDivisionError] and
      is modelled as such.
    - The power of two Python floats raises [OverflowError] when its
      result lies beyond the largest float; that range check is modelled,
      on the power taken as a parameter.
    - A [datetime.date] is its proleptic Gregorian ordinal
      ([date.toordinal()]), so that comparison is [Z] comparison and
      adding one day is adding one.
    - An exception is a value of [exn]; fallible code returns a [result].
    - The SQLite database is a record of tables, each table the list of
      its rows in insertion (row id) order.  Code that runs inside a
      [session_scope()] is a function from the store to a result and the
      store left behind; a failed scope leaves the store it started from
      (rollback).
    - A query without ORDER BY lists its rows in the order of the table;
      the database is free in that order, and what is proved of such rows
      is stated up to their order. *)

From Stdlib Require Import ZArith QArith Qminmax Qround Qpower Ascii String List Sorted Lia Lqa.
From stdpp Require Import base gmap sets list strings.
Import ListNotations.

Local Open Scope string_scope.
Local Open Scope Z_scope.

(** ** Exceptions and results *)

Inductive exn : Type :=
| ValueError (msg : string)
| ZeroDivisionError
| IndexError
| OverflowError
| IntegrityError
| NoResultFound
| MultipleResultsFound.

Inductive result (A : Type) : Type :=
| Ok (a : A)
| Raise (e : exn).

Arguments Ok {A} a.
Arguments Raise {A} e.

Definition rbind {A B : Type} (r : result A) (k : A -> result B) : result B :=
  match r with
  | Ok a => k a
  | Raise e => Raise e
  end.

Notation "'let!' x ':=' c 'in' k" := (rbind c (fun x => k))
  (at level 10, x name, c at level 100, k at level 200).

(** ** Rational helpers standing for float operations *)

Definition Qltb (x y : Q) : bool := negb (Qle_bool y x).

(** Python's built-in [sum]: a left fold that starts from [0]. *)
Definition py_sum (l : list Q) : Q := fold_left Qplus l 0%Q.

(** Division of two Python floats. *)
Definition py_div (x y : Q) : result Q :=
  if Qeq_bool y 0 then Raise ZeroDivisionError else Ok (x / y)%Q.

(** The largest finite float, [sys.float_info.max]. *)
Definition float_max : Q := inject_Z (2 ^ 1024 - 2 ^ 971).

(** [x ** y] on two Python floats with [0 < x], given the power [p] as the
    float operation computes it before its range check: a result beyond
    the largest float raises, one too small for a float does not. *)
Definition py_pow_checked (p : Q) : result Q :=
  if Qltb float_max p then Raise OverflowError else Ok p.

(** [l[i]] and [df.iloc[i]] for a Python integer [i]: negative positions
    count from the end, and a position outside the sequence raises. *)
Definition py_index {A : Type} (l : list A) (i : Z) : result A :=
  let n := Z.of_nat (length l) in
  let j := if i <? 0 then n + i else i in
  if (j <? 0) || (n <=? j) then Raise IndexError
  else match nth_error l (Z.to_nat j) with
       | Some a => Ok a
       | None => Raise IndexError
       end.

(** [l[:n]] for a Python integer [n]. *)
Definition py_prefix {A : Type} (l : list A) (n : Z) : list A :=
  if n <? 0 then firstn (Z.to_nat (Z.of_nat (length l) + n)) l
  else firstn (Z.to_nat n) l.

(** [Series.tail(n)]: nothing for [n = 0], the last [n] entries for a
    positive [n], all but the first [-n] for a negative one. *)
Definition series_tail {A : Type} (n : Z) (l : list A) : list A :=
  if n =? 0 then []
  else if n <? 0 then skipn (Z.to_nat (- n)) l
  else skipn (length l - Z.to_nat n) l.

(** The last element of a non-empty list, [l[-1]]. *)
Definition py_last {A : Type} (l : list A) (d : A) : A := List.last l d.

(** The smallest entry, [min] over a sequence that starts with [x]. *)
Definition list_min (x : Q) (l : list Q) : Q := fold_left Qmin l x.

(** Running maximum: [np.maximum.accumulate] and [Series.cummax]. *)
Fixpoint running_max_from (m : Q) (l : list Q) : list Q :=
  match l with
  | [] => []
  | x :: l' => let m' := Qmax m x in m' :: running_max_from m' l'
  end.

Definition running_max (l : list Q) : list Q :=
  match l with
  | [] => []
  | x :: l' => x :: running_max_from x l'
  end.

(** [a / b - 1] entry by entry, on numpy arrays or pandas series. *)
Fixpoint ratio_minus_one (a b : list Q) : list Q :=
  match a, b with
  | x :: a', y :: b' => (x / y - 1)%Q :: ratio_minus_one a' b'
  | _, _ => []
  end.

(** [np.diff(l) / l[:-1]], which is also [Series.pct_change().dropna()]. *)
Fixpoint simple_returns (l : list Q) : list Q :=
  match l with
  | x :: (y :: _) as l' => ((y - x) / x)%Q :: simple_returns l'
  | _ => []
  end.

Definition mean (l : list Q) : Q := (py_sum l / inject_Z (Z.of_nat (length l)))%Q.

(** Sum of squared deviations from the mean. *)
Definition sq_dev (l : list Q) : Q :=
  let m := mean l in py_sum (map (fun x => ((x - m) * (x - m))%Q) l).

(** ** Calendar dates *)

Module Calendar.

Definition date : Type := Z.

Definition is_leap (y : Z) : bool :=
  (y mod 4 =? 0) && (negb (y mod 100 =? 0) || (y mod 400 =? 0)).

Definition days_before_year (y : Z) : Z :=
  let p := y - 1 in p * 365 + p / 4 - p / 100 + p / 400.

Definition days_in_month (y m : Z) : Z :=
  if m =? 2 then (if is_leap y then 29 else 28)
  else if (m =? 4) || (m =? 6) || (m =? 9) || (m =? 11) then 30
  else 31.

Definition days_before_month_table : list Z :=
  [0; 0; 31; 59; 90; 120; 151; 181; 212; 243; 273; 304; 334].

Definition days_before_month (y m : Z) : Z :=
  nth (Z.to_nat m) days_before_month_table 0
  + (if (2 <? m) && is_leap y then 1 else 0).

(** [date(y, m, d)] *)
Definition mkdate (y m d : Z) : date :=
  days_before_year y + days_before_month y m + d.

(** The year, month and day of an ordinal. *)
Definition ord2ymd (o : date) : Z * Z * Z :=
  let n := o - 1 in
  let n400 := n / 146097 in
  let n := n mod 146097 in
  let n100 := n / 36524 in
  let n := n mod 36524 in
  let n4 := n / 1461 in
  let n := n mod 1461 in
  let n1 := n / 365 in
  let n := n mod 365 in
  let year := n400 * 400 + 1 + n100 * 100 + n4 * 4 + n1 in
  if (n1 =? 4) || (n100 =? 4) then (year - 1, 12, 31)
  else
    let leapyear := (n1 =? 3) && (negb (n4 =? 24) || (n100 =? 3)) in
    let month := Z.shiftr (n + 50) 5 in
    let preceding :=
      nth (Z.to_nat month) days_before_month_table 0
      + (if (2 <? month) && leapyear then 1 else 0) in
    if n <? preceding
    then
      let month' := month - 1 in
      let dim :=
        (if month' =? 2 then 28
         else if (month' =? 4) || (month' =? 6) || (month' =? 9) || (month' =? 11)
              then 30 else 31)
        + (if (month' =? 2) && leapyear then 1 else 0) in
      (year, month', n - (preceding - dim) + 1)
    else (year, month, n - preceding + 1).

Definition is_month_end (o : date) : bool :=
  let '(y, m, d) := ord2ymd o in d =? days_in_month y m.

(** [date.weekday()]: Monday is 0, Sunday is 6. *)
Definition weekday (o : date) : Z := (o + 6) mod 7.

End Calendar.

Import Calendar.

(** ** backtest/schedule.py *)

Module Schedule.

(** [pd.date_range(start, end, freq="M")]: the month-end days between the
    two bounds, both included, in ascending order. *)
Definition date_range_M (start end_ : date) : list date :=
  List.filter is_month_end (seqZ start (end_ - start + 1)).

(** The truth value of a pandas [Index]: [Index.__bool__] raises for every
    index, empty or not. *)
Definition index_bool (idx : list date) : result bool :=
  Raise (ValueError "The truth value of a DatetimeIndex is ambiguous. Use a.empty, a.bool(), a.item(), a.any() or a.all().").

(** [Index.drop_duplicates()] keeps the first occurrence. *)
Fixpoint drop_duplicates (seen : list date) (l : list date) : list date :=
  match l with
  | [] => []
  | d :: l' =>
      if existsb (Z.eqb d) seen then drop_duplicates seen l'
      else d :: drop_duplicates (d :: seen) l'
  end.

(** What lines 14 to 17 build once the emptiness test has an answer. *)
Definition schedule_with_end (offsets : list date) (end_ : date)
           (nonempty : bool) : result (list date) :=
  let! cond := (if negb nonempty then Ok true
                else let! last := py_index offsets (-1) in
                     Ok (negb (last =? end_))) in
  Ok (if cond : bool then drop_duplicates [] (offsets ++ [end_]) else offsets).

Definition month_end_dates (start end_ : date) : result (list date) :=
  let offsets := date_range_M start end_ in
  let! nonempty := index_bool offsets in
  schedule_with_end offsets end_ nonempty.

(** The [while] loop of [next_trading_day]; two rounds reach a Monday from
    any Saturday. *)
Fixpoint skip_weekend (fuel : nat) (d : date) : date :=
  match fuel with
  | O => d
  | S fuel' => if 5 <=? weekday d then skip_weekend fuel' (d + 1) else d
  end.

Definition next_trading_day (day : date) : date :=
  skip_weekend 2 (day + 1).

End Schedule.

Import Schedule.


(** ** config/loader.py: the strategy configuration the core consumes *)

Module Config.

(** [StrategyConfig].  [factor_weights] is a dict, kept as the list of its
    items in insertion order.  The two [execution_timing] keys are read with
    [.get(key, 0)] and may be absent; the two [liquidity_filters] keys are
    read by subscript and are fields here. *)
Record StrategyConfig : Type := mkStrategy {
  factor_weights : list (string * Q);
  transaction_cost_bps : option Q;
  slippage_bps : option Q;
  median_traded_value_clp : Q;
  max_weight_pct_of_adv : Q
}.

(** The [default_factory] values of [StrategyConfig]. *)
Definition default_strategy : StrategyConfig := {|
  factor_weights :=
    [("momentum_12_1", 0.4%Q); ("momentum_6_1", 0.4%Q); ("realized_vol", (-0.2)%Q)];
  transaction_cost_bps := Some 20%Q;
  slippage_bps := Some 5%Q;
  median_traded_value_clp := 20000000%Q;
  max_weight_pct_of_adv := 5%Q
|}.

End Config.

Import Config.

(** ** factors/engine.py *)

Module Factors.

Record FactorDefinition : Type := mkFactor {
  name : string;
  lookback_days : Z;
  method : string
}.

(** [FactorEngine.__init__]: [self.definitions]. *)
Definition definitions : list FactorDefinition :=
  [ mkFactor "momentum_12_1" 252 "momentum";
    mkFactor "momentum_6_1" 126 "momentum";
    mkFactor "realized_vol" 126 "volatility";
    mkFactor "max_drawdown" 252 "max_drawdown" ].

(** The price frame of one symbol: the [adj_close] column, rows ascending
    by date. *)
Definition frame : Type := list Q.

(** The division is numpy's: for a start price of zero it yields inf or
    nan, floats that have no value here, so what is proved of the value
    returned is proved for a start price that is not zero. *)
Definition _momentum (df : frame) (lookback : Z) : result (option Q) :=
  if Z.of_nat (length df) <? lookback then Ok None
  else
    let! start_price := py_index df (- lookback) in
    let! end_price := py_index df (-1) in
    Ok (Some (end_price / start_price - 1)%Q).

Section FloatOps.

(** The square root on floats. *)
Variable fsqrt : Q -> Q.

(** [Series.std()]: the sample standard deviation (one degree of freedom
    removed). *)
Definition series_std (l : list Q) : Q :=
  fsqrt (sq_dev l / inject_Z (Z.of_nat (length l) - 1))%Q.

Definition _realized_vol (df : frame) (lookback : Z) : option Q :=
  if Z.of_nat (length df) <? lookback then None
  else
    let returns := series_tail lookback (simple_returns df) in
    Some (series_std returns * fsqrt 252)%Q.

(** On an empty frame pandas yields NaN, which has no value here;
    [compute] skips empty frames before any factor is computed. *)
Definition _max_drawdown (df : frame) : option Q :=
  match ratio_minus_one df (running_max df) with
  | [] => Some 0%Q
  | d :: ds => Some (list_min d ds)
  end.

Definition _compute_factor (df : frame) (definition : FactorDefinition)
  : result (option Q) :=
  if String.eqb (method definition) "momentum"
  then _momentum df (lookback_days definition)
  else if String.eqb (method definition) "volatility"
  then Ok (_realized_vol df (lookback_days definition))
  else if String.eqb (method definition) "max_drawdown"
  then Ok (_max_drawdown df)
  else Ok None.

End FloatOps.

End Factors.

Import Factors.

(** ** backtest/performance.py *)

Module Performance.

Record PerformanceSummary : Type := mkSummary {
  cagr : Q;
  volatility : Q;
  max_drawdown : Q;
  periods : Z
}.

Section FloatOps.

(** [x ** y] on floats, as computed before the range check of
    [py_pow_checked], and [np.sqrt]. *)
Variable fpow : Q -> Q -> Q.
Variable fsqrt : Q -> Q.

(** [ndarray.std()]: the population standard deviation. *)
Definition np_std (l : list Q) : Q :=
  fsqrt (sq_dev l / inject_Z (Z.of_nat (length l)))%Q.

Definition compute_summary (equity_curve : list Q) (periods_per_year : Z)
  : result PerformanceSummary :=
  match equity_curve with
  | [] => Ok (mkSummary 0 0 0 0)
  | first :: _ =>
      let returns := simple_returns equity_curve in
      let! compounded := py_div (py_last equity_curve first) first in
      let! years :=
        (if periods_per_year =? 0 then Raise ZeroDivisionError
         else Ok (inject_Z (Z.max (Z.of_nat (length equity_curve) - 1) 1)
                  / inject_Z periods_per_year)%Q) in
      let! cagr :=
        (if Qltb 0 compounded
         then let! power := py_pow_checked (fpow compounded (1 / years)) in
              Ok (power - 1)%Q
         else Ok 0%Q) in
      let volatility := if (0 <? Z.of_nat (length returns))%Z
                        then (np_std returns * fsqrt (inject_Z periods_per_year))%Q
                        else 0%Q in
      let drawdowns := ratio_minus_one equity_curve (running_max equity_curve) in
      let max_drawdown := match drawdowns with
                          | [] => 0%Q
                          | d :: ds => list_min d ds
                          end in
      Ok (mkSummary cagr volatility max_drawdown (Z.of_nat (length equity_curve)))
  end.

End FloatOps.

End Performance.

Import Performance.

(** ** db/models.py and runs/context.py: the rows the core reads and writes *)

Module Db.

Record Symbol : Type := mkSymbol {
  sym_id : Z;
  sym_ticker : string
}.

Record UniverseMembership : Type := mkMembership {
  um_symbol_id : Z;
  um_start_date : date;
  um_end_date : option date
}.

Record PriceAdjusted : Type := mkPrice {
  pa_symbol_id : Z;
  pa_price_date : date;
  pa_adj_close : Q
}.

Record FactorValue : Type := mkFactorValue {
  fv_symbol_id : Z;
  fv_run_id : string;
  fv_factor_name : string;
  fv_value : Q
}.

Record LiquidityMetric : Type := mkLiquidity {
  lm_symbol_id : Z;
  lm_run_id : string;
  lm_median_traded_value_clp : Q
}.

Record SignalRecord : Type := mkSignalRecord {
  sr_run_id : string;
  sr_symbol_id : Z;
  sr_as_of_date : date;
  sr_score : Q;
  sr_liquidity : Q
}.

Record PortfolioPositionRecord : Type := mkPositionRecord {
  pp_run_id : string;
  pp_symbol_id : Z;
  pp_rebalance_date : date;
  pp_weight : Q;
  pp_liquidity_cap : Q
}.

Record BacktestResult : Type := mkBacktestResult {
  br_run_id : string;
  br_start_date : date;
  br_end_date : date;
  br_final_capital : Q;
  br_cagr : Q;
  br_volatility : Q;
  br_max_drawdown : Q;
  br_periods : Z
}.

Record BacktestEquityPoint : Type := mkEquityPoint {
  ep_run_id : string;
  ep_point_date : date;
  ep_capital : Q
}.

Record Store : Type := mkStore {
  symbols : list Symbol;
  universe_membership : list UniverseMembership;
  prices_adjusted : list PriceAdjusted;
  factor_values : list FactorValue;
  liquidity_metrics : list LiquidityMetric;
  signals : list SignalRecord;
  portfolio_positions : list PortfolioPositionRecord;
  backtest_results : list BacktestResult;
  backtest_equity_curve : list BacktestEquityPoint
}.

(** [RunContext]: the run identifier and the as-of date, which the runner
    reassigns at every rebalance.  The generator, the builder and the runner
    hold the same context object. *)
Record RunContext : Type := mkRun {
  run_id : string;
  as_of_date : date
}.

(** What the code of a run sees and changes: the shared run context and the
    database. *)
Record World : Type := mkWorld {
  run : RunContext;
  db : Store
}.

Definition set_signals (s : Store) (rows : list SignalRecord) : Store :=
  mkStore (symbols s) (universe_membership s) (prices_adjusted s)
          (factor_values s) (liquidity_metrics s) rows
          (portfolio_positions s) (backtest_results s) (backtest_equity_curve s).

Definition set_positions (s : Store) (rows : list PortfolioPositionRecord) : Store :=
  mkStore (symbols s) (universe_membership s) (prices_adjusted s)
          (factor_values s) (liquidity_metrics s) (signals s)
          rows (backtest_results s) (backtest_equity_curve s).

Definition set_backtest (s : Store) (res : list BacktestResult)
           (pts : list BacktestEquityPoint) : Store :=
  mkStore (symbols s) (universe_membership s) (prices_adjusted s)
          (factor_values s) (liquidity_metrics s) (signals s)
          (portfolio_positions s) res pts.

Definition set_as_of_date (w : World) (d : date) : World :=
  mkWorld (mkRun (run_id (run w)) d) (db w).

(** A computation inside the run: it may raise, and leaves a world behind. *)
Definition M (A : Type) : Type := World -> result A * World.

Definition ret {A : Type} (a : A) : M A := fun w => (Ok a, w).

Definition raise {A : Type} (e : exn) : M A := fun w => (Raise e, w).

Definition bind {A B : Type} (m : M A) (k : A -> M B) : M B :=
  fun w => match m w with
           | (Ok a, w') => k a w'
           | (Raise e, w') => (Raise e, w')
           end.

(** A pure fallible step inside a run. *)
Definition lift {A : Type} (r : result A) : M A := fun w => (r, w).

(** [Query.one()] *)
Definition one {A : Type} (rows : list A) : result A :=
  match rows with
  | [] => Raise NoResultFound
  | [a] => Ok a
  | _ => Raise MultipleResultsFound
  end.

(** [Query.first()] *)
Definition first {A : Type} (rows : list A) : option A := head rows.

(** Whether the rows to insert keep a unique constraint on [key], given the
    rows already stored: no new key is stored already or inserted twice. *)
Fixpoint unique_insert {A K : Type} (eqb : K -> K -> bool) (key : A -> K)
         (stored : list K) (pending : list A) : bool :=
  match pending with
  | [] => true
  | r :: pending' =>
      negb (existsb (eqb (key r)) stored)
      && unique_insert eqb key (key r :: stored) pending'
  end.

Definition symbol_by_ticker (s : Store) (ticker : string) : result Symbol :=
  one (List.filter (fun sym => String.eqb (sym_ticker sym) ticker) (symbols s)).

End Db.

Import Db.

Notation "'do!' x ':=' c 'in' k" := (bind c (fun x => k))
  (at level 10, x name, c at level 100, k at level 200).

(** ** universe/query.py *)

Module Universe.

Definition membership_active (as_of : date) (m : UniverseMembership) : bool :=
  (um_start_date m <=? as_of)
  && match um_end_date m with
     | None => true
     | Some e => as_of <=? e
     end.

(** The DISTINCT join of symbols with their memberships valid on [as_of]:
    each symbol with a valid membership once.  The query carries no ORDER
    BY: the order of the symbols table stands for the order the database
    returns, and the properties proved are about which symbols are
    returned. *)
Definition get_active_symbols (s : Store) (as_of : date) : list Symbol :=
  List.filter
    (fun sym =>
       existsb (fun m => (um_symbol_id m =? sym_id sym) && membership_active as_of m)
               (universe_membership s))
    (symbols s).

End Universe.

Import Universe.

(** ** signals/generator.py *)

Module Signals.

Record Signal : Type := mkSignal {
  ticker : string;
  score : Q;
  liquidity : Q
}.

(** [signals.sort(key=lambda s: s.score, reverse=True)]: descending by
    score, entries of equal score in their original order. *)
Fixpoint insert_desc (x : Signal) (l : list Signal) : list Signal :=
  match l with
  | [] => [x]
  | y :: l' => if Qle_bool (score y) (score x) then x :: l else y :: insert_desc x l'
  end.

Definition sort_desc (l : list Signal) : list Signal :=
  fold_right insert_desc [] l.

(** The query that opens [build_signals]: the signal rows of the run for
    [as_of], each joined with the ticker of its symbol.  The query carries
    no ORDER BY, so the database is free in the order of the rows: the
    order of the signals table stands for it, and what is proved of the
    signals read back holds up to their order, or for signals that do not
    tie on score. *)
Definition existing_signals (s : Store) (rid : string) (as_of : date)
  : list (SignalRecord * string) :=
  flat_map
    (fun rec =>
       if String.eqb (sr_run_id rec) rid && (sr_as_of_date rec =? as_of)
       then map (fun sym => (rec, sym_ticker sym))
                (List.filter (fun sym => sym_id sym =? sr_symbol_id rec) (symbols s))
       else [])
    (signals s).

Definition signal_of_row (row : SignalRecord * string) : Signal :=
  mkSignal (snd row) (sr_score (fst row)) (sr_liquidity (fst row)).

(** The metric of highest row id for the symbol and run. *)
Definition _latest_liquidity (s : Store) (rid : string) (symbol_id : Z) : option Q :=
  match rev (List.filter
               (fun m => (lm_symbol_id m =? symbol_id) && String.eqb (lm_run_id m) rid)
               (liquidity_metrics s)) with
  | [] => None
  | metric :: _ => Some (lm_median_traded_value_clp metric)
  end.

Definition _passes_liquidity (cfg : StrategyConfig) (liquidity : option Q) : bool :=
  match liquidity with
  | None => false
  | Some l => Qle_bool (median_traded_value_clp cfg) l
  end.

(** [.first()] on a query without ORDER BY: the first stored row of the
    symbol, run and factor stands for the row the database returns first.
    The properties proved are stated through [_get_factor] and hold
    whichever of several matching rows that is. *)
Definition _get_factor (s : Store) (rid : string) (symbol_id : Z) (name : string)
  : option Q :=
  match first (List.filter
                 (fun f => (fv_symbol_id f =? symbol_id)
                           && String.eqb (fv_run_id f) rid
                           && String.eqb (fv_factor_name f) name)
                 (factor_values s)) with
  | None => None
  | Some factor => Some (fv_value factor)
  end.

Definition _compose_score (cfg : StrategyConfig) (factors : gmap string Q) : Q :=
  fold_left
    (fun score item => (score + snd item * default 0%Q (factors !! fst item))%Q)
    (factor_weights cfg) 0%Q.

(** The inner loop over the configured factor names: the values found, or
    [None] as soon as one is missing. *)
Fixpoint gather_factors (s : Store) (rid : string) (symbol_id : Z)
         (names : list string) (factor_values : gmap string Q)
  : option (gmap string Q) :=
  match names with
  | [] => Some factor_values
  | factor_name :: names' =>
      match _get_factor s rid symbol_id factor_name with
      | None => None
      | Some value =>
          gather_factors s rid symbol_id names' (<[factor_name := value]> factor_values)
      end
  end.

(** [liquidity or 0.0] *)
Definition or_zero (liquidity : option Q) : Q :=
  match liquidity with
  | None => 0%Q
  | Some l => if Qeq_bool l 0 then 0%Q else l
  end.

(** The loop over the active symbols, with the set of symbol ids seen. *)
Fixpoint scan_symbols (cfg : StrategyConfig) (s : Store) (rid : string)
         (syms : list Symbol) (seen_symbols : gset Z) : list Signal :=
  match syms with
  | [] => []
  | symbol :: syms' =>
      if bool_decide (sym_id symbol ∈ seen_symbols)
      then scan_symbols cfg s rid syms' seen_symbols
      else
        let seen := {[sym_id symbol]} ∪ seen_symbols in
        let liquidity := _latest_liquidity s rid (sym_id symbol) in
        if negb (_passes_liquidity cfg liquidity)
        then scan_symbols cfg s rid syms' seen
        else
          match gather_factors s rid (sym_id symbol)
                               (map fst (factor_weights cfg)) ∅ with
          | None => scan_symbols cfg s rid syms' seen
          | Some factor_values =>
              mkSignal (sym_ticker symbol) (_compose_score cfg factor_values)
                       (or_zero liquidity)
              :: scan_symbols cfg s rid syms' seen
          end
  end.

(** [_persist_signals]: the rows added to the session, one per signal. *)
Fixpoint _persist_signals (s : Store) (r : RunContext) (sigs : list Signal)
  : result (list SignalRecord) :=
  match sigs with
  | [] => Ok []
  | signal :: sigs' =>
      let! symbol := symbol_by_ticker s (ticker signal) in
      let! rows := _persist_signals s r sigs' in
      Ok (mkSignalRecord (run_id r) (sym_id symbol) (as_of_date r)
                         (score signal) (liquidity signal) :: rows)
  end.

Definition signal_key (rec : SignalRecord) : string * Z * date :=
  (sr_run_id rec, sr_symbol_id rec, sr_as_of_date rec).

Definition key_eqb (k1 k2 : string * Z * date) : bool :=
  String.eqb (fst (fst k1)) (fst (fst k2))
  && (snd (fst k1) =? snd (fst k2))
  && (snd k1 =? snd k2).

(** The commit that closes the session: the pending rows are inserted, or
    [uq_signal_run_symbol_date] is violated and nothing is. *)
Definition commit_signals (s : Store) (pending : list SignalRecord) : result Store :=
  if unique_insert key_eqb signal_key (map signal_key (signals s)) pending
  then Ok (set_signals s (signals s ++ pending))
  else Raise IntegrityError.

Definition build_signals (cfg : StrategyConfig) (as_of : date) : M (list Signal) :=
  fun w =>
    let existing := existing_signals (db w) (run_id (run w)) as_of in
    match existing with
    | _ :: _ => (Ok (sort_desc (map signal_of_row existing)), w)
    | [] =>
        let syms := get_active_symbols (db w) (as_of_date (run w)) in
        let sigs := scan_symbols cfg (db w) (run_id (run w)) syms ∅ in
        match _persist_signals (db w) (run w) sigs with
        | Raise e => (Raise e, w)
        | Ok pending =>
            match commit_signals (db w) pending with
            | Raise e => (Raise e, w)
            | Ok db' => (Ok (sort_desc sigs), mkWorld (run w) db')
            end
        end
    end.

End Signals.

Import Signals.

(** ** portfolio/builder.py *)

Module Portfolio.

Record PortfolioPosition : Type := mkPosition {
  pos_ticker : string;
  weight : Q;
  liquidity_share : Q
}.

Definition _liquidity_cap (cfg : StrategyConfig) (signal : Signal) : Q :=
  let threshold_pct := (max_weight_pct_of_adv cfg / 100)%Q in
  if Qle_bool (liquidity signal) 0 then 0%Q else threshold_pct.

(** The first loop of [build]: one position per selected signal, its weight
    the provisional weight capped by the liquidity cap. *)
Definition capped_positions (cfg : StrategyConfig) (selected : list Signal)
  : list PortfolioPosition :=
  let total_score := py_sum (map score selected) in
  map (fun signal =>
         let weight :=
           if Qeq_bool total_score 0
           then (1 / inject_Z (Z.of_nat (length selected)))%Q
           else (score signal / total_score)%Q in
         let liquidity_cap := _liquidity_cap cfg signal in
         mkPosition (ticker signal) (Qmin weight liquidity_cap) liquidity_cap)
      selected.

Definition total_weight (positions : list PortfolioPosition) : Q :=
  py_sum (map weight positions).

(** The second loop: every weight divided by the total, when it is
    positive. *)
Definition renormalize (positions : list PortfolioPosition)
  : list PortfolioPosition :=
  let total := total_weight positions in
  if Qltb 0 total
  then map (fun pos =>
              mkPosition (pos_ticker pos) (weight pos / total)%Q (liquidity_share pos))
           positions
  else positions.

(** The list [build] returns, before it is persisted. *)
Definition build_positions (cfg : StrategyConfig) (sigs : list Signal) (top_n : Z)
  : list PortfolioPosition :=
  match py_prefix sigs top_n with
  | [] => []
  | selected => renormalize (capped_positions cfg selected)
  end.

Fixpoint position_rows (s : Store) (r : RunContext)
         (positions : list PortfolioPosition)
  : result (list PortfolioPositionRecord) :=
  match positions with
  | [] => Ok []
  | pos :: positions' =>
      let! symbol := symbol_by_ticker s (pos_ticker pos) in
      let! rows := position_rows s r positions' in
      Ok (mkPositionRecord (run_id r) (sym_id symbol) (as_of_date r)
                           (weight pos) (liquidity_share pos) :: rows)
  end.

Definition position_key (rec : PortfolioPositionRecord) : string * Z * date :=
  (pp_run_id rec, pp_symbol_id rec, pp_rebalance_date rec).

Definition _persist_positions (positions : list PortfolioPosition) : M unit :=
  fun w =>
    match positions with
    | [] => (Ok tt, w)
    | _ :: _ =>
        match position_rows (db w) (run w) positions with
        | Raise e => (Raise e, w)
        | Ok pending =>
            if unique_insert key_eqb position_key
                             (map position_key (portfolio_positions (db w))) pending
            then (Ok tt,
                  mkWorld (run w)
                          (set_positions (db w) (portfolio_positions (db w) ++ pending)))
            else (Raise IntegrityError, w)
        end
    end.

Definition build (cfg : StrategyConfig) (sigs : list Signal) (top_n : Z)
  : M (list PortfolioPosition) :=
  match py_prefix sigs top_n with
  | [] => ret []
  | selected =>
      let positions := renormalize (capped_positions cfg selected) in
      do! _ := _persist_positions positions in
      ret positions
  end.

End Portfolio.

Import Portfolio.

(** ** backtest/execution.py *)

Module Execution.

Definition cost_rate (cfg : StrategyConfig) : Q :=
  let tc := default 0%Q (transaction_cost_bps cfg) in
  let slippage := default 0%Q (slippage_bps cfg) in
  ((tc + slippage) / 10000)%Q.

Definition apply_costs (cfg : StrategyConfig) (gross_return : Q) : Q :=
  (gross_return - cost_rate cfg)%Q.

End Execution.

Import Execution.

(** ** backtest/runner.py *)

Module Runner.

(** The row of smallest date, the first row of it on a tie. *)
Fixpoint earliest (rows : list PriceAdjusted) : option PriceAdjusted :=
  match rows with
  | [] => None
  | r :: rows' =>
      match earliest rows' with
      | None => Some r
      | Some r' => if pa_price_date r <=? pa_price_date r' then Some r else Some r'
      end
  end.

(** The row of largest date, the first row of it on a tie. *)
Fixpoint latest (rows : list PriceAdjusted) : option PriceAdjusted :=
  match rows with
  | [] => None
  | r :: rows' =>
      match latest rows' with
      | None => Some r
      | Some r' => if pa_price_date r' <=? pa_price_date r then Some r else Some r'
      end
  end.

Definition _price_on_or_after (s : Store) (symbol_id : Z) (target : date) : option Q :=
  match earliest (List.filter
                    (fun p => (pa_symbol_id p =? symbol_id) && (target <=? pa_price_date p))
                    (prices_adjusted s)) with
  | None => None
  | Some row => Some (pa_adj_close row)
  end.

Definition _price_on_or_before (s : Store) (symbol_id : Z) (target : date) : option Q :=
  match latest (List.filter
                  (fun p => (pa_symbol_id p =? symbol_id) && (pa_price_date p <=? target))
                  (prices_adjusted s)) with
  | None => None
  | Some row => Some (pa_adj_close row)
  end.

(** The dict [symbols] of [_portfolio_return]: the symbols whose ticker is
    one of [tickers], by ticker, a later row replacing an earlier one. *)
Definition symbols_by_ticker (s : Store) (tickers : list string) : gmap string Symbol :=
  fold_left (fun d sym => <[sym_ticker sym := sym]> d)
            (List.filter (fun sym => existsb (String.eqb (sym_ticker sym)) tickers)
                         (symbols s))
            ∅.

(** The entry and exit prices of a position, when it has both. *)
Definition position_prices (s : Store) (symbols : gmap string Symbol)
           (position : PortfolioPosition) (trade_date exit_date : date)
  : option (Q * Q) :=
  match symbols !! pos_ticker position with
  | None => None
  | Some symbol =>
      match _price_on_or_after s (sym_id symbol) trade_date,
            _price_on_or_before s (sym_id symbol) exit_date with
      | Some entry_price, Some exit_price => Some (entry_price, exit_price)
      | _, _ => None
      end
  end.

(** The loop over the positions, from the running [total] and
    [effective_weight]; a position without both prices is passed over. *)
Fixpoint return_loop (s : Store) (symbols : gmap string Symbol)
         (positions : list PortfolioPosition) (trade_date exit_date : date)
         (total effective_weight : Q) : result (Q * Q) :=
  match positions with
  | [] => Ok (total, effective_weight)
  | position :: positions' =>
      match position_prices s symbols position trade_date exit_date with
      | None =>
          return_loop s symbols positions' trade_date exit_date total effective_weight
      | Some (entry_price, exit_price) =>
          let! ratio := py_div exit_price entry_price in
          let gross := (ratio - 1)%Q in
          return_loop s symbols positions' trade_date exit_date
                      (total + weight position * gross)%Q
                      (effective_weight + weight position)%Q
      end
  end.

(** The running totals when the loop of [_portfolio_return] ends: the
    aggregate gross return and the weight that contributed to it. *)
Definition gross_return (s : Store) (positions : list PortfolioPosition)
           (trade_date exit_date : date) : result (Q * Q) :=
  let symbols := symbols_by_ticker s (map pos_ticker positions) in
  return_loop s symbols positions trade_date exit_date 0%Q 0%Q.

Definition _portfolio_return (cfg : StrategyConfig) (s : Store)
           (positions : list PortfolioPosition) (trade_date exit_date : date)
  : result Q :=
  let! totals := gross_return s positions trade_date exit_date in
  if Qeq_bool (snd totals) 0 then Ok 0%Q
  else
    let avg_return := fst totals in
    Ok (apply_costs cfg avg_return).

(** The first steps of a period: the run is moved to the rebalance date,
    the signals are built as of it, and the portfolio from them. *)
Definition rebalance (cfg : StrategyConfig) (rebalance_date : date)
  : M (list PortfolioPosition) :=
  fun w =>
    (do! sigs := build_signals cfg rebalance_date in
     build cfg sigs 15) (set_as_of_date w rebalance_date).

(** [_portfolio_return] reads the database through the session of the
    runner and writes nothing. *)
Definition period_return_of (cfg : StrategyConfig) (portfolio : list PortfolioPosition)
           (trade_date exit_date : date) : M Q :=
  fun w => (_portfolio_return cfg (db w) portfolio trade_date exit_date, w).

(** The [for] loop over the schedule entries that remain. *)
Fixpoint walk_forward (cfg : StrategyConfig) (schedule : list date) (capital : Q)
         (equity_points : list (date * Q)) : M (list (date * Q)) :=
  match schedule with
  | [] => ret equity_points
  | rebalance_date :: schedule' =>
      match schedule' with
      | [] => ret equity_points
      | next_rebalance :: _ =>
          do! portfolio := rebalance cfg rebalance_date in
          match portfolio with
          | [] =>
              walk_forward cfg schedule' capital
                           (equity_points ++ [(next_rebalance, capital)])
          | _ :: _ =>
              let trade_date := next_trading_day rebalance_date in
              do! period_return :=
                period_return_of cfg portfolio trade_date next_rebalance in
              let capital' := (capital * (1 + period_return))%Q in
              walk_forward cfg schedule' capital'
                           (equity_points ++ [(next_rebalance, capital')])
          end
      end
  end.

Definition _persist_results (start_date end_date : date)
           (equity_points : list (date * Q)) (summary : PerformanceSummary) : M unit :=
  do! last_point := lift (py_index equity_points (-1)) in
  fun w =>
    let rid := run_id (run w) in
    let row := mkBacktestResult rid start_date end_date (snd last_point)
                 (cagr summary) (volatility summary) (max_drawdown summary)
                 (periods summary) in
    let points := map (fun p => mkEquityPoint rid (fst p) (snd p)) equity_points in
    if unique_insert String.eqb br_run_id
                     (map br_run_id (backtest_results (db w))) [row]
       && unique_insert
            (fun k1 k2 => String.eqb (fst k1) (fst k2) && (snd k1 =? snd k2))
            (fun p => (ep_run_id p, ep_point_date p))
            (map (fun p => (ep_run_id p, ep_point_date p))
                 (backtest_equity_curve (db w)))
            points
    then (Ok tt,
          mkWorld (run w)
                  (set_backtest (db w) (backtest_results (db w) ++ [row])
                                (backtest_equity_curve (db w) ++ points)))
    else (Raise IntegrityError, w).

Record Report : Type := mkReport {
  rep_run_id : string;
  rep_start : date;
  rep_end : date;
  rep_equity_curve : list (date * Q);
  rep_cagr : Q;
  rep_volatility : Q;
  rep_max_drawdown : Q
}.

Definition schedule_error : exn :=
  ValueError "Backtest requires at least two month-end dates".

Section FloatOps.

Variable fpow : Q -> Q -> Q.
Variable fsqrt : Q -> Q.

(** [run_backtest] from the length test on, for the schedule obtained. *)
Definition run_schedule (cfg : StrategyConfig) (start_date end_date : date)
           (schedule : list date) : M Report :=
  if Z.of_nat (length schedule) <? 2
  then raise schedule_error
  else
    do! equity_points := walk_forward cfg schedule 1%Q [(start_date, 1%Q)] in
    let equity_values := map snd equity_points in
    do! summary := lift (compute_summary fpow fsqrt equity_values 12) in
    do! _ := _persist_results start_date end_date equity_points summary in
    fun w =>
      (Ok (mkReport (run_id (run w)) start_date end_date equity_points
                    (cagr summary) (volatility summary) (max_drawdown summary)),
       w).

Definition run_backtest (cfg : StrategyConfig) (start_date end_date : date)
  : M Report :=
  do! schedule := lift (month_end_dates start_date end_date) in
  run_schedule cfg start_date end_date schedule.

End FloatOps.

End Runner.

Import Runner.

(** ** Sample float operations and inputs, for evaluating the model *)

(** A power that is exact for whole exponents, and a square root that is
    exact on squares of rationals. *)
Definition sample_pow (x y : Q) : Q := Qpower x (Qfloor y).

Definition sample_sqrt (x : Q) : Q :=
  Qmake (Z.sqrt (Qnum x * Zpos (Qden x))) (Qden x).

Definition sample_signals_mixed : list Signal :=
  [mkSignal "AAA" 3 100000000; mkSignal "BBB" (-1) 100000000].

(** ** Quantities the properties below speak of *)

(** The schedule that lines 14 to 17 of [month_end_dates] build when the
    emptiness of the index is answered by its length. *)
Definition schedule_by_length (start end_ : date) : result (list date) :=
  let offsets := date_range_M start end_ in
  schedule_with_end offsets end_ (match offsets with [] => false | _ :: _ => true end).

(** The result is a value, or an exception other than [ValueError]. *)
Definition no_value_error {A : Type} (r : result A) : Prop :=
  match r with
  | Raise (ValueError _) => False
  | _ => True
  end.

(** The simple return of a position over the period, from its entry and
    exit prices. *)
Definition position_gross (s : Store) (symbols : gmap string Symbol)
           (position : PortfolioPosition) (trade_date exit_date : date) : Q :=
  match position_prices s symbols position trade_date exit_date with
  | Some (entry_price, exit_price) => (exit_price / entry_price - 1)%Q
  | None => 0%Q
  end.

(** The sum over [positions] of weight times simple return. *)
Definition weighted_gross (s : Store) (positions : list PortfolioPosition)
           (trade_date exit_date : date) : Q :=
  let symbols := symbols_by_ticker s (map pos_ticker positions) in
  py_sum (map (fun p => (weight p * position_gross s symbols p trade_date exit_date)%Q)
              positions).

(** Every position has an entry and an exit price, the entry price not
    zero. *)
Definition priced (s : Store) (symbols : gmap string Symbol)
           (trade_date exit_date : date) (position : PortfolioPosition) : bool :=
  match position_prices s symbols position trade_date exit_date with
  | Some (entry_price, _) => negb (Qeq_bool entry_price 0)
  | None => false
  end.

Definition all_priced (s : Store) (positions : list PortfolioPosition)
           (trade_date exit_date : date) : bool :=
  forallb (priced s (symbols_by_ticker s (map pos_ticker positions))
                  trade_date exit_date)
          positions.







(** The test that opens [build_signals]: rows are stored for the run and
    the date, so that they are read back and nothing is computed. *)
Definition cache_hit (w : World) (as_of : date) : bool :=
  match existing_signals (db w) (run_id (run w)) as_of with
  | [] => false
  | _ :: _ => true
  end.

(** The constraints of the schema the signal cache relies on: symbol ids
    (primary key) and tickers are unique, and a signal row refers to a
    stored symbol (foreign key). *)
Record store_ok (s : Store) : Prop := mkStoreOk {
  ids_unique : NoDup (map sym_id (symbols s));
  tickers_unique : NoDup (map sym_ticker (symbols s));
  signals_have_symbol :
    forall rec, In rec (signals s) ->
                exists sym, In sym (symbols s) /\ sym_id sym = sr_symbol_id rec
}.

(** How a pending row stands to the signal it persists. *)
Definition row_of (s : Store) (r : RunContext) (sg : Signal) (rec : SignalRecord) : Prop :=
  exists sym, In sym (symbols s) /\ sym_ticker sym = ticker sg
              /\ rec = mkSignalRecord (run_id r) (sym_id sym) (as_of_date r)
                                      (score sg) (liquidity sg).

(** ** Sample databases *)

Definition sample_run : RunContext := mkRun "run-1" (mkdate 2024 12 31).

Definition sample_store (prices : list PriceAdjusted) : Store := {|
  symbols := [mkSymbol 1 "AAA"];
  universe_membership := [mkMembership 1 (mkdate 2023 1 1) None];
  prices_adjusted := prices;
  factor_values :=
    [mkFactorValue 1 "run-1" "momentum_12_1" 0.5%Q;
     mkFactorValue 1 "run-1" "momentum_6_1" 0.25%Q;
     mkFactorValue 1 "run-1" "realized_vol" 0.5%Q];
  liquidity_metrics := [mkLiquidity 1 "run-1" 50000000%Q];
  signals := [];
  portfolio_positions := [];
  backtest_results := [];
  backtest_equity_curve := []
|}.

(** One symbol bought at 100 on 1 November 2024 and worth 110 at the end of
    the month. *)
Definition rising_prices : list PriceAdjusted :=
  [mkPrice 1 (mkdate 2024 11 1) 100%Q; mkPrice 1 (mkdate 2024 11 29) 110%Q].

Definition flat_prices : list PriceAdjusted :=
  [mkPrice 1 (mkdate 2024 11 1) 100%Q; mkPrice 1 (mkdate 2024 11 29) 100%Q;
   mkPrice 1 (mkdate 2024 12 2) 100%Q; mkPrice 1 (mkdate 2024 12 31) 100%Q].

Definition sample_world (prices : list PriceAdjusted) : World :=
  mkWorld sample_run (sample_store prices).

Definition zero_cost_strategy : StrategyConfig := {|
  factor_weights := factor_weights default_strategy;
  transaction_cost_bps := Some 0%Q;
  slippage_bps := None;
  median_traded_value_clp := median_traded_value_clp default_strategy;
  max_weight_pct_of_adv := max_weight_pct_of_adv default_strategy
|}.

Definition sample_schedule : list date :=
  [mkdate 2024 10 31; mkdate 2024 11 30; mkdate 2024 12 31].

(** A liquidity threshold that the sample symbol does not reach. *)
Definition strict_strategy : StrategyConfig := {|
  factor_weights := factor_weights default_strategy;
  transaction_cost_bps := transaction_cost_bps default_strategy;
  slippage_bps := slippage_bps default_strategy;
  median_traded_value_clp := 100000000%Q;
  max_weight_pct_of_adv := max_weight_pct_of_adv default_strategy
|}.


(** ** Further code of the cited files *)

(** [universe/query.py]: [get_active_symbol_ids]. *)
Definition get_active_symbol_ids (s : Store) (as_of : date) : list Z :=
  map sym_id (get_active_symbols s as_of).

(** A membership interval that holds [as_of]: started on or before it, and
    open or ended on or after it. *)
Definition membership_holds (as_of : date) (m : UniverseMembership) : Prop :=
  um_start_date m <= as_of
  /\ match um_end_date m with
     | None => True
     | Some e => as_of <= e
     end.

(** Scores never rise along the list. *)
Definition descending (l : list Signal) : Prop :=
  StronglySorted (fun a b => (score b <= score a)%Q) l.

(** No two signals of the list tie on score. *)
Definition tie_free (l : list Signal) : Prop :=
  forall a b, In a l -> In b l -> (score a == score b)%Q -> a = b.

(** A symbol has what a signal needs: a latest liquidity metric for the run
    at or above the configured threshold, and a stored value for every
    factor the configuration weighs. *)
Definition qualifies (cfg : StrategyConfig) (s : Store) (rid : string)
           (sym : Symbol) : Prop :=
  (exists liq, _latest_liquidity s rid (sym_id sym) = Some liq
               /\ (median_traded_value_clp cfg <= liq)%Q)
  /\ forall name, In name (map fst (factor_weights cfg)) ->
                  _get_factor s rid (sym_id sym) name <> None.

(** The value stored for a factor, 0 when there is none. *)
Definition factor_or_zero (s : Store) (rid : string) (symbol_id : Z)
           (name : string) : Q :=
  default 0%Q (_get_factor s rid symbol_id name).

Definition sample_signals_tied : list Signal :=
  [mkSignal "AAA" 3 100000000; mkSignal "BBB" 1 100000000;
   mkSignal "CCC" 1 100000000; mkSignal "DDD" 0.5 100000000].

(** How a stored position row stands to the position it persists. *)
Definition position_row_of (s : Store) (r : RunContext) (p : PortfolioPosition)
           (rec : PortfolioPositionRecord) : Prop :=
  exists sym, In sym (symbols s) /\ sym_ticker sym = pos_ticker p
              /\ rec = mkPositionRecord (run_id r) (sym_id sym) (as_of_date r)
                                        (weight p) (liquidity_share p).

Definition sample_signals_unknown : list Signal :=
  [mkSignal "AAA" 3 100000000; mkSignal "ZZZ" 1 100000000].

(** The rebalance date of the last period of a schedule: its entry before
    the last. *)
Definition last_rebalance (schedule : list date) (d : date) : date :=
  List.last (removelast schedule) d.

(** The rows [_persist_results] writes for an equity curve and a summary. *)
Definition result_row (rid : string) (start_date end_date : date)
           (equity_points : list (date * Q)) (summary : PerformanceSummary)
  : BacktestResult :=
  mkBacktestResult rid start_date end_date
                   (snd (py_last equity_points (start_date, 1%Q)))
                   (cagr summary) (volatility summary) (max_drawdown summary)
                   (periods summary).

Definition equity_rows (rid : string) (equity_points : list (date * Q))
  : list BacktestEquityPoint :=
  map (fun p => mkEquityPoint rid (fst p) (snd p)) equity_points.

Definition sample_summary : PerformanceSummary := mkSummary 0 0 0 2.

(** The sample database with the one membership ended before 2024. *)
Definition lapsed_store : Store := {|
  symbols := symbols (sample_store flat_prices);
  universe_membership := [mkMembership 1 (mkdate 2023 1 1) (Some (mkdate 2023 12 31))];
  prices_adjusted := flat_prices;
  factor_values := factor_values (sample_store flat_prices);
  liquidity_metrics := liquidity_metrics (sample_store flat_prices);
  signals := [];
  portfolio_positions := [];
  backtest_results := [];
  backtest_equity_curve := []
|}.





(** Every point of the curve is above zero. *)
Definition all_positive (curve : list Q) : Prop :=
  forall x, In x curve -> (0 < x)%Q.

(** [d] is the deepest fall of [curve]: the smallest [x_j / x_i - 1] over a
    point [x_i] and a point [x_j] at or after it. *)
Definition deepest_fall (curve : list Q) (d : Q) : Prop :=
  (forall i j xi xj,
      (i <= j)%nat -> nth_error curve i = Some xi -> nth_error curve j = Some xj ->
      (d <= xj / xi - 1)%Q)
  /\ exists i j xi xj,
      (i <= j)%nat /\ nth_error curve i = Some xi /\ nth_error curve j = Some xj
      /\ (d == xj / xi - 1)%Q.

(** [FactorEngine.compute], the loop over the definitions for one symbol
    whose price frame is not empty: a row for every factor that has a
    value.  The rows carry the run and the factor name; the value date is
    not part of [FactorValue] here. *)
Section FactorRows.

Variable fsqrt : Q -> Q.

Fixpoint factor_rows (defs : list FactorDefinition) (symbol_id : Z) (rid : string)
         (df : frame) : result (list FactorValue) :=
  match defs with
  | [] => Ok []
  | definition :: rest =>
      let! value := _compute_factor fsqrt df definition in
      let! rows := factor_rows rest symbol_id rid df in
      Ok (match value with
          | None => rows
          | Some v => mkFactorValue symbol_id rid (name definition) v :: rows
          end)
  end.

End FactorRows.

Definition sample_curve : list Q := [1%Q; 1.2%Q; 0.9%Q; 1.5%Q; 1.2%Q].

(** The names of the default factors a frame of [n] prices is long enough
    for. *)
Definition factor_names_for (n : Z) : list string :=
  if n <? 126 then ["max_drawdown"]
  else if n <? 252 then ["momentum_6_1"; "realized_vol"; "max_drawdown"]
  else ["momentum_12_1"; "momentum_6_1"; "realized_vol"; "max_drawdown"].

Definition sample_frame : frame := repeat 100%Q 130.

(** ** config/loader.py: merging configuration overrides *)

Module Loader.

(** A value loaded from YAML: a mapping, or anything else (scalar or list),
    of which only the identity matters here.  A [dict] is the list of its
    items in insertion order. *)
#[warnings="-register-all"] Inductive pyval : Type :=
| PyAtom (repr : string)
| PyDict (items : list (string * pyval)).

Definition pydict : Type := list (string * pyval).

(** [d.get(key)] *)
Fixpoint dict_get (d : pydict) (key : string) : option pyval :=
  match d with
  | [] => None
  | (k, v) :: d' => if String.eqb k key then Some v else dict_get d' key
  end.

(** [d[key] = value]: a key already there keeps its place, a new one goes
    last. *)
Fixpoint dict_set (d : pydict) (key : string) (value : pyval) : pydict :=
  match d with
  | [] => [(key, value)]
  | (k, v) :: d' =>
      if String.eqb k key then (k, value) :: d' else (k, v) :: dict_set d' key value
  end.

(** [_merge_dict]: [base] is updated in place and returned; here the
    updated mapping is the result.  The recursion descends into the values
    of [overrides], so it is written on the mapping as a value:
    [merge_into (PyDict overrides) base] runs the loop over the items. *)
Fixpoint merge_into (overrides : pyval) (base : pydict) {struct overrides} : pydict :=
  match overrides with
  | PyAtom _ => base
  | PyDict items =>
      (fix loop (items : pydict) (base : pydict) {struct items} : pydict :=
         match items with
         | [] => base
         | (key, value) :: rest =>
             loop rest
                  match value, dict_get base key with
                  | PyDict _, Some (PyDict b) =>
                      dict_set base key (PyDict (merge_into value b))
                  | _, _ => dict_set base key value
                  end
         end) items base
  end.

Definition _merge_dict (base overrides : pydict) : pydict :=
  merge_into (PyDict overrides) base.

(** The keys of a mapping are distinct, at every depth. *)
Fixpoint well_formed (v : pyval) : Prop :=
  match v with
  | PyAtom _ => True
  | PyDict items =>
      List.NoDup (map fst items)
      /\ (fix all (l : pydict) : Prop :=
            match l with
            | [] => True
            | (_, x) :: l' => well_formed x /\ all l'
            end) items
  end.

Definition has_key (d : pydict) (key : string) : bool :=
  existsb (String.eqb key) (map fst d).

(** What a lookup in the merged mapping gives, from lookups in the two. *)
Definition merged_value (base overrides : pydict) (key : string) : option pyval :=
  match dict_get overrides key with
  | None => dict_get base key
  | Some (PyDict v) =>
      match dict_get base key with
      | Some (PyDict b) => Some (PyDict (_merge_dict b v))
      | _ => Some (PyDict v)
      end
  | Some value => Some value
  end.

(** The keys of the overrides that the base does not have. *)
Definition new_keys (base overrides : pydict) : list string :=
  List.filter (fun k => negb (has_key base k)) (map fst overrides).

Definition sample_base : pydict :=
  [("name", PyAtom "default");
   ("factor_weights", PyDict [("momentum_12_1", PyAtom "0.4");
                              ("realized_vol", PyAtom "-0.2")]);
   ("rebalance_cadence", PyAtom "monthly")].

Definition sample_overrides : pydict :=
  [("factor_weights", PyDict [("realized_vol", PyAtom "-0.3");
                              ("max_drawdown", PyAtom "0.1")]);
   ("liquidity_filters", PyDict [("lookback_days", PyAtom "60")]);
   ("name", PyAtom "tilted")].

End Loader.

Import Loader.

(** ** overrides/store.py and overrides/service.py *)

Module Overrides.

(** The errors of a step through something that is not a mapping. *)
Inductive store_exn : Type :=
| AttributeError
| TypeError.

Inductive outcome (A : Type) : Type :=
| Done (a : A)
| Failed (e : store_exn).

Arguments Done {A} a.
Arguments Failed {A} e.

(** [field_path.split(".")], which always has a first part: that part and
    the parts after it. *)
Fixpoint split_dot (s : string) : string * list string :=
  match s with
  | EmptyString => (EmptyString, [])
  | String c s' =>
      let (p, ps) := split_dot s' in
      if Ascii.eqb c "."%char then (EmptyString, p :: ps) else (String c p, ps)
  end.

(** The walk of [update_field] from [node] along [part] and the parts after
    it: [setdefault] for every part but the last, the assignment for the
    last.  The mapping is changed in place; the result is [node] after the
    change. *)
Fixpoint set_path (node : pydict) (part : string) (rest : list string)
         (value : pyval) {struct rest} : outcome pydict :=
  match rest with
  | [] => Done (dict_set node part value)
  | next :: rest' =>
      match dict_get node part with
      | None =>
          match set_path [] next rest' value with
          | Done sub => Done (dict_set node part (PyDict sub))
          | Failed e => Failed e
          end
      | Some (PyDict d) =>
          match set_path d next rest' value with
          | Done sub => Done (dict_set node part (PyDict sub))
          | Failed e => Failed e
          end
      | Some (PyAtom _) =>
          match rest' with
          | [] => Failed TypeError
          | _ :: _ => Failed AttributeError
          end
      end
  end.

(** [yaml.safe_dump(data, sort_keys=True)] read back: the mappings with
    their keys in ascending order, at every depth. *)
Fixpoint insert_item (key : string) (value : pyval) (d : pydict) : pydict :=
  match d with
  | [] => [(key, value)]
  | (k, v) :: d' =>
      if String.leb key k then (key, value) :: d
      else (k, v) :: insert_item key value d'
  end.

Fixpoint sort_keys (v : pyval) : pyval :=
  match v with
  | PyAtom s => PyAtom s
  | PyDict items =>
      PyDict ((fix sorted (items : pydict) : pydict :=
                 match items with
                 | [] => []
                 | (k, x) :: rest => insert_item k (sort_keys x) (sorted rest)
                 end) items)
  end.

Definition dumped (data : pydict) : pydict :=
  match sort_keys (PyDict data) with
  | PyDict d => d
  | PyAtom _ => []
  end.

(** The store file: absent, or the mapping it holds. *)
Definition store_file : Type := option pydict.

(** [OverrideStore.read] *)
Definition read (file : store_file) : pydict :=
  match file with
  | None => []
  | Some data => data
  end.

(** [OverrideStore.write] *)
Definition write (data : pydict) : store_file := Some (dumped data).

(** [OverrideStore.update_field]: the mapping returned, or the error, and
    the file left behind. *)
Definition update_field (file : store_file) (field_path : string) (value : pyval)
  : outcome pydict * store_file :=
  let data := read file in
  let (part, rest) := split_dot field_path in
  match set_path data part rest value with
  | Done data' => (Done data', write data')
  | Failed e => (Failed e, file)
  end.

(** The value found by following the parts from [node]. *)
Fixpoint get_path (node : pydict) (part : string) (rest : list string)
  : option pyval :=
  match rest with
  | [] => dict_get node part
  | next :: rest' =>
      match dict_get node part with
      | Some (PyDict d) => get_path d next rest'
      | _ => None
      end
  end.

Record OverrideProposal : Type := mkProposal {
  field : string;
  value : pyval;
  author : option string;
  notion_id : option string;
  enabled : bool
}.

Record OverrideAudit : Type := mkAudit {
  oa_run_id : string;
  oa_source : string;
  oa_field : string;
  oa_old_value : option string;
  oa_new_value : string;
  oa_author : option string;
  oa_enabled : bool
}.

(** The dictionary [apply] returns. *)
Record ApplyReport : Type := mkApplyReport {
  applied : Z;
  skipped : list string;
  total : Z;
  allow_flag : bool
}.

(** What [apply] works on: the audit table and the store file. *)
Record State : Type := mkState {
  override_audit : list OverrideAudit;
  file : store_file
}.

Section Service.

(** [str(value)] and [_coerce_value], which raise nothing. *)
Variable py_str : pyval -> string.
Variable _coerce_value : pyval -> pyval.

(** The service: its run and its set of allowed fields. *)
Variable run_id : string.
Variable allowed_fields : gset string.

Definition should_apply (allow_overrides : bool) (proposal : OverrideProposal) : bool :=
  let is_allowed := bool_decide (field proposal ∈ allowed_fields) in
  allow_overrides && enabled proposal && is_allowed.

Definition audit_row (allow_overrides : bool) (proposal : OverrideProposal)
  : OverrideAudit :=
  mkAudit run_id "notion" (field proposal) None (py_str (value proposal))
          (author proposal) (should_apply allow_overrides proposal).

(** The loop of [apply]: the count, the skipped fields and the rows added to
    the session so far, and the file. *)
Fixpoint apply_loop (allow_overrides : bool) (proposals : list OverrideProposal)
         (applied : Z) (skipped : list string) (added : list OverrideAudit)
         (f : store_file)
  : outcome (Z * list string * list OverrideAudit) * store_file :=
  match proposals with
  | [] => (Done (applied, skipped, added), f)
  | proposal :: proposals' =>
      let normalized_value := _coerce_value (value proposal) in
      let added' := (added ++ [audit_row allow_overrides proposal])%list in
      if should_apply allow_overrides proposal
      then match update_field f (field proposal) normalized_value with
           | (Done _, f') =>
               apply_loop allow_overrides proposals' (applied + 1) skipped added' f'
           | (Failed e, f') => (Failed e, f')
           end
      else apply_loop allow_overrides proposals' applied
                      (skipped ++ [field proposal])%list added' f
  end.

(** [OverridesService.apply]: the session commits the added rows when the
    loop ends and drops them when it raises; the file is written outside
    the session. *)
Definition apply (proposals : list OverrideProposal) (allow_overrides : bool)
           (st : State) : outcome ApplyReport * State :=
  match apply_loop allow_overrides proposals 0 [] [] (file st) with
  | (Done (applied, skipped, added), f') =>
      (Done (mkApplyReport applied skipped (Z.of_nat (length proposals)) allow_overrides),
       mkState (override_audit st ++ added) f')
  | (Failed e, f') => (Failed e, mkState (override_audit st) f')
  end.

(** The file after the updates of the proposals that are applied. *)
Definition written (allow_overrides : bool) (proposals : list OverrideProposal)
           (f : store_file) : store_file :=
  fold_left
    (fun f proposal =>
       if should_apply allow_overrides proposal
       then snd (update_field f (field proposal) (_coerce_value (value proposal)))
       else f)
    proposals f.

End Service.

(** Some part of the path before its last leads to something that is not a
    mapping. *)
Definition blocked (node : pydict) (part : string) (rest : list string) : Prop :=
  exists n a, (n < length rest)%nat
              /\ get_path node part (firstn n rest) = Some (PyAtom a).

Definition sample_file : store_file :=
  Some [("strategy", PyDict [("name", PyAtom "default")])].

Definition sample_proposals : list OverrideProposal :=
  [mkProposal "strategy.factor_weights.momentum_12_1" (PyAtom "0.55") (Some "quant") None true;
   mkProposal "strategy.rebalance_cadence" (PyAtom "weekly") None None false;
   mkProposal "universe.name" (PyAtom "ipsa") (Some "quant") None true].

Definition sample_allowed : gset string :=
  {["strategy.factor_weights.momentum_12_1"; "strategy.rebalance_cadence"]}.

End Overrides.

Import Overrides.

(** [str(value)] of the sample values, which are text already. *)
Definition sample_str (v : pyval) : string :=
  match v with
  | PyAtom repr => repr
  | PyDict _ => "{...}"
  end.

(** [config/loader.py]: [_load_applied_overrides], on the file of the
    store. *)
Definition _load_applied_overrides (f : store_file) : pydict :=
  match f with
  | None => []
  | Some data => data
  end.


(** * Properties *)

Local Open Scope Q_scope.

(** ** The calendar and the schedule *)

Example date_2024_10_31 : ord2ymd (mkdate 2024 10 31) = (2024, 10, 31)%Z.
Proof. reflexivity. Qed.

Example date_range_2024_q4 :
  date_range_M (mkdate 2024 10 31) (mkdate 2024 12 31)
  = [mkdate 2024 10 31; mkdate 2024 11 30; mkdate 2024 12 31].
Proof. vm_compute. reflexivity. Qed.

Example date_range_leap :
  date_range_M (mkdate 2024 2 1) (mkdate 2024 3 15) = [mkdate 2024 2 29].
Proof. vm_compute. reflexivity. Qed.

(** Had the emptiness test an answer, the schedule would follow: the month
    ends, and the end date itself when it is not one of them. *)
Example schedule_with_end_mid_month :
  schedule_with_end (date_range_M (mkdate 2024 10 31) (mkdate 2024 12 15))
                    (mkdate 2024 12 15) true
  = Ok [mkdate 2024 10 31; mkdate 2024 11 30; mkdate 2024 12 15].
Proof. vm_compute. reflexivity. Qed.

(** The loop of [next_trading_day] has stopped when the model returns: the
    day it yields is a week day, strictly after the day given. *)
Lemma next_trading_day_weekday (d : date) :
  (weekday (next_trading_day d) < 5 /\ d < next_trading_day d <= d + 3)%Z.
Proof.
  unfold next_trading_day, skip_weekend, weekday.
  destruct (Z.leb_spec 5 ((d + 1 + 6) mod 7));
    [destruct (Z.leb_spec 5 ((d + 1 + 1 + 6) mod 7))|];
    Z.div_mod_to_equations; lia.
Qed.

Lemma py_index_neg {A : Type} (l : list A) (k : Z) :
  (0 < k <= Z.of_nat (length l))%Z ->
  exists a, nth_error l (length l - Z.to_nat k) = Some a
            /\ py_index l (- k) = Ok a.
Proof.
  intros [Hk Hle].
  unfold py_index.
  assert ((- k <? 0)%Z = true) as -> by (apply Z.ltb_lt; lia).
  assert (((Z.of_nat (length l) + - k <? 0) || (Z.of_nat (length l) <=? Z.of_nat (length l) + - k))%Z%bool = false) as ->.
  { apply orb_false_iff. split; [apply Z.ltb_ge | apply Z.leb_gt]; lia. }
  replace (Z.to_nat (Z.of_nat (length l) + - k)) with (length l - Z.to_nat k)%nat by lia.
  destruct (nth_error l (length l - Z.to_nat k)) as [a|] eqn:E.
  - exists a. split; reflexivity.
  - apply nth_error_None in E. lia.
Qed.

Lemma py_index_last {A : Type} (l : list A) (x : A) :
  py_index (l ++ [x]) (-1) = Ok x.
Proof.
  destruct (py_index_neg (l ++ [x]) 1) as (a & Hn & Hi).
  { rewrite length_app. cbn [length]. lia. }
  rewrite length_app in Hn. cbn [length] in Hn.
  replace (length l + 1 - Z.to_nat 1)%nat with (length l) in Hn by lia.
  rewrite nth_error_app2, Nat.sub_diag in Hn by lia. cbn in Hn.
  inversion Hn; subst a. exact Hi.
Qed.

Lemma drop_duplicates_distinct (l : list date) :
  forall seen,
    List.NoDup l -> (forall x, In x l -> ~ In x seen) ->
    drop_duplicates seen l = l.
Proof.
  induction l as [|d l IH]; intros seen Hnd Hfresh; [reflexivity|].
  inversion Hnd as [|? ? Hd Hnd']; subst.
  cbn [drop_duplicates].
  destruct (existsb (Z.eqb d) seen) eqn:E.
  - apply existsb_exists in E as (y & Hy & Ey). apply Z.eqb_eq in Ey. subst y.
    exfalso. exact (Hfresh d (or_introl eq_refl) Hy).
  - f_equal. apply IH; [exact Hnd'|].
    intros x Hx [<-|Hs]; [exact (Hd Hx) | exact (Hfresh x (or_intror Hx) Hs)].
Qed.

Lemma date_range_M_split (start end_ : date) :
  (start <= end_)%Z ->
  let before := List.filter is_month_end (seqZ start (end_ - start)) in
  date_range_M start end_ = (before ++ if is_month_end end_ then [end_] else [])%list
  /\ List.NoDup before
  /\ (forall x, In x before -> (start <= x < end_)%Z).
Proof.
  intros Hle before. split; [|split].
  - unfold date_range_M, before.
    rewrite (seqZ_app start (end_ - start) 1) by lia.
    rewrite List.filter_app. f_equal.
    replace (start + (end_ - start))%Z with end_ by lia.
    reflexivity.
  - apply List.NoDup_filter, NoDup_ListNoDup, NoDup_seqZ.
  - intros x Hx. apply filter_In in Hx as [Hx _].
    apply list_elem_of_In, elem_of_seqZ in Hx. lia.
Qed.

(** With the emptiness of the index answered by its length, the lines that
    follow build what the schedule is meant to be: the month ends from
    [start] to [end_] in ascending order, and [end_] after them when it is
    not a month end itself. *)
Lemma schedule_by_length_spec (start end_ : date) :
  (start <= end_)%Z ->
  schedule_by_length start end_
  = Ok (if is_month_end end_ then date_range_M start end_
        else date_range_M start end_ ++ [end_])%list.
Proof.
  intros Hle.
  destruct (date_range_M_split start end_ Hle) as (Hsplit & Hnd & Hin).
  unfold schedule_by_length. cbv zeta. rewrite Hsplit.
  set (before := List.filter is_month_end (seqZ start (end_ - start))) in *.
  destruct (is_month_end end_).
  - assert (match (before ++ [end_])%list with [] => false | _ :: _ => true end = true)
      as -> by (destruct before; reflexivity).
    unfold schedule_with_end. cbn [negb]. rewrite py_index_last. cbn [rbind].
    rewrite Z.eqb_refl. reflexivity.
  - rewrite app_nil_r.
    assert (drop_duplicates [] (before ++ [end_]) = (before ++ [end_])%list) as Hdd.
    { apply drop_duplicates_distinct; [|intros x _ []].
      apply NoDup_ListNoDup, NoDup_app. split; [apply NoDup_ListNoDup; exact Hnd|].
      split; [|apply NoDup_singleton].
      intros x Hx Hend. apply list_elem_of_In in Hx.
      apply list_elem_of_singleton in Hend. specialize (Hin x Hx). lia. }
    destruct before as [|a t] eqn:Eb.
    + unfold schedule_with_end. cbn [negb rbind]. rewrite Hdd. reflexivity.
    + rewrite <- Eb in *. unfold schedule_with_end. cbn [negb].
      destruct (py_index_neg before 1) as (x & Hx & Hi).
      { rewrite Eb. cbn [length]. lia. }
      change (- (1))%Z with (-1)%Z in Hi. rewrite Hi. cbn [rbind].
      apply nth_error_In in Hx. specialize (Hin x Hx).
      assert ((x =? end_)%Z = false) as -> by (apply Z.eqb_neq; lia).
      cbn [negb]. rewrite Hdd. reflexivity.
Qed.

(** C3. [month_end_dates] never returns a schedule: the test [not offsets]
    asks a pandas index for its truth value, which raises [ValueError] for
    every index, so every pair of dates ends in that exception and the lines
    that would append the end date are not reached. *)
Theorem month_end_dates_raises (start end_ : date) :
  exists msg, month_end_dates start end_ = Raise (ValueError msg).
Proof.
  unfold month_end_dates, index_bool. simpl. eexists. reflexivity.
Qed.

(** The repository's own end-to-end test calls the backtest on these dates. *)
Example month_end_dates_2024_q4 :
  month_end_dates (mkdate 2024 10 31) (mkdate 2024 12 31)
  = Raise (ValueError "The truth value of a DatetimeIndex is ambiguous. Use a.empty, a.bool(), a.item(), a.any() or a.all().").
Proof. reflexivity. Qed.

(** ** The factor engine *)

(** C8. For a positive lookback, the momentum factor emits no value exactly
    when the window holds fewer than [lookback] observations; otherwise,
    for a start price [price[-lookback]] that is not zero, it returns the
    last price divided by the start price, minus one. *)
Theorem momentum_none_iff_short (df : frame) (lookback : Z) :
  (0 < lookback)%Z ->
  (_momentum df lookback = Ok None <-> (Z.of_nat (length df) < lookback)%Z)
  /\ ((lookback <= Z.of_nat (length df))%Z ->
      exists start_price end_price,
        nth_error df (length df - Z.to_nat lookback) = Some start_price
        /\ nth_error df (length df - 1) = Some end_price
        /\ (~ start_price == 0 ->
            _momentum df lookback = Ok (Some (end_price / start_price - 1)))).
Proof.
  intros Hpos.
  assert ((lookback <= Z.of_nat (length df))%Z ->
      exists start_price end_price,
        nth_error df (length df - Z.to_nat lookback) = Some start_price
        /\ nth_error df (length df - 1) = Some end_price
        /\ exists value, _momentum df lookback = Ok (Some value)
                         /\ (~ start_price == 0 -> value = end_price / start_price - 1))
    as Hval.
  { intros Hle. unfold _momentum.
    assert ((Z.of_nat (length df) <? lookback)%Z = false) as -> by (apply Z.ltb_ge; lia).
    destruct (py_index_neg df lookback) as (s & Hs & Es); [lia|].
    destruct (py_index_neg df 1) as (e & He & Ee); [lia|].
    exists s, e. rewrite Es. change (- (1))%Z with (-1)%Z in Ee. simpl. rewrite Ee. simpl.
    change (Z.to_nat 1) with 1%nat in He.
    split; [exact Hs|]. split; [exact He|]. eexists. split; [reflexivity|].
    intros _. reflexivity. }
  split.
  - split.
    + intros Hnone.
      destruct (Z.lt_ge_cases (Z.of_nat (length df)) lookback) as [Hlt|Hge]; [exact Hlt|].
      destruct (Hval Hge) as (s & e & _ & _ & v & Hm & _).
      rewrite Hm in Hnone. discriminate.
    + intros Hlt. unfold _momentum.
      assert ((Z.of_nat (length df) <? lookback)%Z = true) as -> by (apply Z.ltb_lt; lia).
      reflexivity.
  - intros Hle. destruct (Hval Hle) as (s & e & Hs & He & v & Hm & Hv).
    exists s, e. split; [exact Hs|]. split; [exact He|].
    intros Hnz. rewrite Hm, (Hv Hnz). reflexivity.
Qed.

Lemma momentum_none_iff_short_witness :
  (0 < 3)%Z
  /\ (_momentum [100; 101; 102; 110] 3 = Ok None
      <-> (Z.of_nat (length [100; 101; 102; 110]) < 3)%Z)
  /\ exists start_price end_price,
      nth_error [100; 101; 102; 110]
                (length [100; 101; 102; 110] - Z.to_nat 3) = Some start_price
      /\ nth_error [100; 101; 102; 110]
                   (length [100; 101; 102; 110] - 1) = Some end_price
      /\ ~ start_price == 0
      /\ _momentum [100; 101; 102; 110] 3 = Ok (Some (end_price / start_price - 1)).
Proof.
  assert (Hpos : (0 < 3)%Z) by lia.
  destruct (momentum_none_iff_short [100; 101; 102; 110] 3 Hpos) as [Hiff Hval].
  split; [exact Hpos|]. split; [exact Hiff|].
  destruct Hval as (s & e & Hs & He & Hm); [cbn; lia|].
  assert (Hnz : ~ s == 0).
  { cbn in Hs. injection Hs as <-. intros H. discriminate H. }
  exists s, e. split; [exact Hs|]. split; [exact He|]. split; [exact Hnz|].
  exact (Hm Hnz).
Defined.

Example momentum_value : _momentum [100; 101; 102; 110] 3 = Ok (Some (110 / 101 - 1)).
Proof. reflexivity. Qed.

Example momentum_short_window : _momentum [100; 110] 3 = Ok None.
Proof. reflexivity. Qed.

(** A lookback of zero is read by pandas as position 0: on an empty frame
    the factor raises instead of returning. *)
Example momentum_zero_lookback : _momentum [] 0 = Raise IndexError.
Proof. reflexivity. Qed.

(** C7, as stated, fails: the names of the default factors are not the keys
    of the default factor weights. *)
Lemma default_factor_names_differ :
  (list_to_set (map name definitions) : gset string)
  <> list_to_set (map fst (factor_weights default_strategy)).
Proof.
  intros H.
  assert ("max_drawdown"%string ∈ (list_to_set (map name definitions) : gset string))
    as Hin by (simpl; set_solver).
  rewrite H in Hin. simpl in Hin. set_solver.
Qed.

(** C7, amended. The default factor set is momentum_12_1 (252 days),
    momentum_6_1 (126 days), realized_vol (126 days) and max_drawdown, whose
    value is taken over the whole frame whatever lookback its definition
    carries; the keys of the default factor weights are the first three of
    these names, so every default weight names a default factor and
    max_drawdown alone has no default weight. *)
Theorem default_factors_cover_weights :
  map (fun d => (name d, lookback_days d, method d)) definitions
  = [("momentum_12_1", 252%Z, "momentum"); ("momentum_6_1", 126%Z, "momentum");
     ("realized_vol", 126%Z, "volatility"); ("max_drawdown", 252%Z, "max_drawdown")]%string
  /\ (forall fsqrt df lookback,
        _compute_factor fsqrt df (mkFactor "max_drawdown" lookback "max_drawdown")
        = Ok (_max_drawdown df))
  /\ map fst (factor_weights default_strategy)
     = ["momentum_12_1"; "momentum_6_1"; "realized_vol"]%string
  /\ (list_to_set (map name definitions) : gset string)
     = list_to_set (map fst (factor_weights default_strategy)) ∪ {["max_drawdown"%string]}
  /\ "max_drawdown"%string ∉ (list_to_set (map fst (factor_weights default_strategy)) : gset string).
Proof.
  split; [reflexivity|]. split; [intros; reflexivity|]. split; [reflexivity|].
  split; apply (bool_decide_unpack _); vm_compute; exact I.
Qed.

(** ** The performance summary *)

Lemma sample_pow_one (c e : Q) : c == 1 -> sample_pow c e == 1.
Proof.
  intros Hc. unfold sample_pow. rewrite Hc. apply Qpower_1.
Qed.

Lemma Qltb_false (x y : Q) : y <= x -> Qltb x y = false.
Proof.
  intros H. unfold Qltb. apply Qle_bool_iff in H. rewrite H. reflexivity.
Qed.

Lemma Qltb_true (x y : Q) : x < y -> Qltb x y = true.
Proof.
  intros H. unfold Qltb. destruct (Qle_bool y x) eqn:E; [|reflexivity].
  apply Qle_bool_iff in E. exfalso. apply (Qlt_not_le _ _ H E).
Qed.

Lemma py_pow_checked_ok (p : Q) : p <= float_max -> py_pow_checked p = Ok p.
Proof. intros H. unfold py_pow_checked. rewrite (Qltb_false _ _ H). reflexivity. Qed.

Lemma py_pow_checked_overflow (p : Q) :
  float_max < p -> py_pow_checked p = Raise OverflowError.
Proof. intros H. unfold py_pow_checked. rewrite (Qltb_true _ _ H). reflexivity. Qed.

Lemma one_le_float_max : 1 <= float_max.
Proof. unfold float_max, Qle. cbn. lia. Qed.

(** C4, as stated, fails on a curve of one point: the summary counts one
    period, not none. *)
Lemma one_point_periods_not_zero :
  ~ (exists s, compute_summary sample_pow sample_sqrt [1] 12 = Ok s /\ periods s = 0%Z).
Proof.
  intros (s & Hs & Hp). vm_compute in Hs. inversion Hs; subst s. discriminate Hp.
Qed.

(** C4, amended. For a power with [1 ** e = 1], the summary of the empty
    curve is all zero with periods 0; the summary of a curve of one non-zero
    point has cagr, volatility and max drawdown zero and periods 1, the
    length of the curve. *)
Theorem compute_summary_short_curves (fpow : Q -> Q -> Q) (fsqrt : Q -> Q) :
  (forall c e, c == 1 -> fpow c e == 1) ->
  compute_summary fpow fsqrt [] 12 = Ok (mkSummary 0 0 0 0)
  /\ (forall x, ~ x == 0 ->
        exists s, compute_summary fpow fsqrt [x] 12 = Ok s
                  /\ cagr s == 0 /\ volatility s == 0 /\ max_drawdown s == 0
                  /\ periods s = 1%Z).
Proof.
  intros Hpow. split; [reflexivity|].
  intros x Hx. unfold compute_summary, py_div. cbn [py_last List.last].
  destruct (Qeq_bool x 0) eqn:E; [apply Qeq_bool_iff in E; contradiction|].
  cbn [rbind Z.eqb].
  assert (x / x == 1) as H1 by (field; exact Hx).
  assert (Qltb 0 (x / x) = true) as -> by (apply Qltb_true; rewrite H1; reflexivity).
  rewrite py_pow_checked_ok
    by (rewrite (Hpow _ _ H1); exact one_le_float_max).
  cbn [rbind]. eexists. split; [reflexivity|].
  cbn [cagr volatility max_drawdown periods].
  split; [|split; [|split]].
  - rewrite (Hpow _ _ H1). reflexivity.
  - reflexivity.
  - cbn. unfold list_min. cbn. rewrite H1. reflexivity.
  - reflexivity.
Qed.

Lemma compute_summary_short_curves_witness :
  (forall c e, c == 1 -> sample_pow c e == 1)
  /\ (compute_summary sample_pow sample_sqrt [] 12 = Ok (mkSummary 0 0 0 0)
      /\ (forall x, ~ x == 0 ->
            exists s, compute_summary sample_pow sample_sqrt [x] 12 = Ok s
                      /\ cagr s == 0 /\ volatility s == 0 /\ max_drawdown s == 0
                      /\ periods s = 1%Z)).
Proof.
  split; [exact sample_pow_one
         | exact (compute_summary_short_curves sample_pow sample_sqrt sample_pow_one)].
Defined.

(** A curve whose only point is zero makes the summary raise. *)
Example compute_summary_zero_point :
  compute_summary sample_pow sample_sqrt [0] 12 = Raise ZeroDivisionError.
Proof. reflexivity. Qed.

(** ** Sums as Python computes them *)

Lemma fold_left_Qplus_acc (l : list Q) (a : Q) :
  fold_left Qplus l a == a + py_sum l.
Proof.
  unfold py_sum. revert a.
  induction l as [|x l IH]; intros a; simpl.
  - ring.
  - rewrite (IH (a + x)), (IH (0 + x)). ring.
Qed.

Lemma py_sum_cons (x : Q) (l : list Q) : py_sum (x :: l) == x + py_sum l.
Proof. unfold py_sum at 1. simpl. rewrite fold_left_Qplus_acc. ring. Qed.

Lemma py_sum_map_div {A : Type} (f : A -> Q) (t : Q) (l : list A) :
  py_sum (map (fun a => f a / t) l) == py_sum (map f l) / t.
Proof.
  induction l as [|a l IH]; simpl.
  - unfold py_sum. simpl. unfold Qdiv. ring.
  - rewrite !py_sum_cons, IH. unfold Qdiv. ring.
Qed.

Lemma Qltb_lt (x y : Q) : Qltb x y = true <-> x < y.
Proof.
  unfold Qltb. rewrite negb_true_iff.
  destruct (Qle_bool y x) eqn:E.
  - apply Qle_bool_iff in E. split; [discriminate | intros H; lra].
  - split; [intros _ | reflexivity].
    apply Qnot_le_lt. intros H. apply Qle_bool_iff in H. congruence.
Qed.

(** ** The portfolio builder *)

Lemma py_prefix_nonempty {A : Type} (l : list A) (n : Z) :
  l <> [] -> (1 <= n)%Z -> py_prefix l n <> [].
Proof.
  intros Hl Hn. unfold py_prefix.
  assert ((n <? 0)%Z = false) as -> by (apply Z.ltb_ge; lia).
  destruct l as [|a l]; [contradiction|].
  destruct (Z.to_nat n) eqn:E; [lia|]. simpl. discriminate.
Qed.

Lemma renormalize_length (ps : list PortfolioPosition) :
  length (renormalize ps) = length ps.
Proof.
  unfold renormalize. destruct (Qltb 0 (total_weight ps)); [apply length_map | reflexivity].
Qed.

Lemma renormalize_total (ps : list PortfolioPosition) :
  0 < total_weight ps -> total_weight (renormalize ps) == 1.
Proof.
  intros Hpos. unfold renormalize.
  rewrite (proj2 (Qltb_lt _ _) Hpos).
  unfold total_weight at 1. rewrite map_map. simpl.
  rewrite (py_sum_map_div weight). fold (total_weight ps).
  field. lra.
Qed.

Lemma renormalize_skipped (ps : list PortfolioPosition) :
  ~ 0 < total_weight ps -> renormalize ps = ps.
Proof.
  intros Hneg. unfold renormalize.
  destruct (Qltb 0 (total_weight ps)) eqn:E; [|reflexivity].
  apply Qltb_lt in E. contradiction.
Qed.

(** What [build] hands back is the list of [build_positions]; when it
    raises, the store is the one it was given. *)
Lemma build_returns_positions (cfg : StrategyConfig) (sigs : list Signal) (top_n : Z)
      (w : World) :
  match build cfg sigs top_n w with
  | (Ok ps, _) => ps = build_positions cfg sigs top_n
  | (Raise _, w') => w' = w
  end.
Proof.
  unfold build, build_positions.
  destruct (py_prefix sigs top_n) as [|s sel]; [reflexivity|].
  unfold bind, _persist_positions, ret.
  destruct (renormalize (capped_positions cfg (s :: sel))) as [|p ps] eqn:E; [reflexivity|].
  destruct (position_rows (db w) (run w) (p :: ps)); [|reflexivity].
  destruct unique_insert; reflexivity.
Qed.

(** C2, as stated, fails: a signal of negative score keeps its negative
    weight through the cap, the capped weights sum to -0.45, and the list
    is returned without renormalization. *)
Lemma build_weights_not_one :
  sample_signals_mixed <> []
  /\ (1 <= 15)%Z
  /\ ~ total_weight (build_positions default_strategy sample_signals_mixed 15) == 1.
Proof.
  split; [discriminate|]. split; [lia|].
  vm_compute. discriminate.
Qed.

Example build_weights_mixed :
  map weight (build_positions default_strategy sample_signals_mixed 15)
  = [Qmin (3 / (0 + 3 + -1)) (5 / 100); Qmin (-1 / (0 + 3 + -1)) (5 / 100)]
  /\ total_weight (build_positions default_strategy sample_signals_mixed 15) == -0.45.
Proof. split; [reflexivity | vm_compute; reflexivity]. Qed.

(** C2, amended. For a non-empty list of signals and [top_n >= 1], the list
    [build] returns is non-empty, one position per selected signal; its
    weights sum to 1 when the capped weights sum to a positive total, and
    otherwise it is the list of capped positions, not renormalized. *)
Theorem build_weights_sum (cfg : StrategyConfig) (sigs : list Signal) (top_n : Z) :
  sigs <> [] -> (1 <= top_n)%Z ->
  let selected := py_prefix sigs top_n in
  let positions := build_positions cfg sigs top_n in
  positions <> []
  /\ length positions = length selected
  /\ (0 < total_weight (capped_positions cfg selected) -> total_weight positions == 1)
  /\ (~ 0 < total_weight (capped_positions cfg selected) ->
      positions = capped_positions cfg selected)
  /\ (forall w, match build cfg sigs top_n w with
                | (Ok ps, _) => ps = positions
                | (Raise _, w') => w' = w
                end).
Proof.
  intros Hs Hn. cbv zeta.
  pose proof (py_prefix_nonempty sigs top_n Hs Hn) as Hsel.
  pose proof (build_returns_positions cfg sigs top_n) as Hbuild.
  unfold build_positions in *.
  destruct (py_prefix sigs top_n) as [|s sel] eqn:E; [contradiction|].
  assert (length (renormalize (capped_positions cfg (s :: sel))) = length (s :: sel))
    as Hlen.
  { rewrite renormalize_length. unfold capped_positions. apply length_map. }
  split.
  { intros E0. rewrite E0 in Hlen. discriminate. }
  split; [exact Hlen|].
  split; [apply renormalize_total|].
  split; [apply renormalize_skipped | exact Hbuild].
Qed.

Lemma build_weights_sum_witness :
  [mkSignal "AAA" 3 100000000; mkSignal "BBB" 1 100000000] <> []
  /\ (1 <= 15)%Z
  /\ (let selected := py_prefix [mkSignal "AAA" 3 100000000; mkSignal "BBB" 1 100000000] 15 in
      let positions := build_positions default_strategy
                         [mkSignal "AAA" 3 100000000; mkSignal "BBB" 1 100000000] 15 in
      positions <> []
      /\ length positions = length selected
      /\ (0 < total_weight (capped_positions default_strategy selected) ->
          total_weight positions == 1)
      /\ (~ 0 < total_weight (capped_positions default_strategy selected) ->
          positions = capped_positions default_strategy selected)
      /\ (forall w, match build default_strategy
                            [mkSignal "AAA" 3 100000000; mkSignal "BBB" 1 100000000] 15 w with
                    | (Ok ps, _) => ps = positions
                    | (Raise _, w') => w' = w
                    end)).
Proof.
  split; [discriminate|]. split; [lia|].
  apply (build_weights_sum default_strategy
           [mkSignal "AAA" 3 100000000; mkSignal "BBB" 1 100000000] 15);
    [discriminate | lia].
Defined.

Example build_two_capped :
  map weight (build_positions default_strategy
                [mkSignal "AAA" 3 100000000; mkSignal "BBB" 1 100000000] 15)
  = [Qmin (3 / (0 + 3 + 1)) (5 / 100) / (0 + Qmin (3 / (0 + 3 + 1)) (5 / 100)
                                          + Qmin (1 / (0 + 3 + 1)) (5 / 100));
     Qmin (1 / (0 + 3 + 1)) (5 / 100) / (0 + Qmin (3 / (0 + 3 + 1)) (5 / 100)
                                          + Qmin (1 / (0 + 3 + 1)) (5 / 100))].
Proof. reflexivity. Qed.

(** ** The period return *)

Lemma py_sum_map_scale {A : Type} (f g : A -> Q) (t : Q) (l : list A) :
  py_sum (map (fun a => f a / t * g a) l) == py_sum (map (fun a => f a * g a) l) / t.
Proof.
  induction l as [|a l IH]; simpl.
  - unfold py_sum. simpl. unfold Qdiv. ring.
  - rewrite !py_sum_cons, IH. unfold Qdiv. ring.
Qed.

Lemma py_div_nonzero (x y : Q) : Qeq_bool y 0 = false -> py_div x y = Ok (x / y).
Proof. intros H. unfold py_div. rewrite H. reflexivity. Qed.

(** The loop over positions that all have their prices: it ends, with the
    weighted sum of simple returns added to [total] and the weights added to
    [effective_weight]. *)
Lemma return_loop_priced (s : Store) (symbols : gmap string Symbol)
      (trade_date exit_date : date) (positions : list PortfolioPosition) :
  forallb (priced s symbols trade_date exit_date) positions = true ->
  forall total effective_weight,
  exists total' effective_weight',
    return_loop s symbols positions trade_date exit_date total effective_weight
    = Ok (total', effective_weight')
    /\ total' == total
                 + py_sum (map (fun p => weight p
                                         * position_gross s symbols p trade_date exit_date)
                               positions)
    /\ effective_weight' == effective_weight + py_sum (map weight positions).
Proof.
  induction positions as [|p ps IH]; intros Hall total eff.
  - exists total, eff. split; [reflexivity|].
    unfold py_sum; simpl. split; ring.
  - simpl in Hall. apply andb_true_iff in Hall as [Hp Hps].
    unfold priced in Hp.
    destruct (position_prices s symbols p trade_date exit_date) as [[entry exit_]|] eqn:Epp;
      [|discriminate].
    assert (position_gross s symbols p trade_date exit_date = exit_ / entry - 1) as Hg.
    { unfold position_gross. rewrite Epp. reflexivity. }
    apply negb_true_iff in Hp.
    cbn [return_loop]. rewrite Epp, (py_div_nonzero _ _ Hp). cbn [rbind].
    destruct (IH Hps (total + weight p * (exit_ / entry - 1))
                 (eff + weight p)) as (T & W & Hrun & HT & HW).
    exists T, W. split; [exact Hrun|].
    cbn [map]. rewrite !py_sum_cons, Hg. split; [rewrite HT | rewrite HW]; ring.
Qed.

(** The loop over positions that all lack a price leaves the totals as they
    were. *)
Lemma return_loop_dropped (s : Store) (symbols : gmap string Symbol)
      (trade_date exit_date : date) (positions : list PortfolioPosition) :
  (forall p, In p positions ->
             position_prices s symbols p trade_date exit_date = None) ->
  forall total effective_weight,
    return_loop s symbols positions trade_date exit_date total effective_weight
    = Ok (total, effective_weight).
Proof.
  induction positions as [|p ps IH]; intros Hall total eff; [reflexivity|].
  simpl. rewrite (Hall p (or_introl eq_refl)).
  apply IH. intros q Hq. apply Hall. right. exact Hq.
Qed.

(** One round of the loop of [run_backtest], unfolded. *)
Lemma walk_forward_step (cfg : StrategyConfig) (d1 d2 : date) (rest : list date)
      (capital : Q) (points : list (date * Q)) (w : World) :
  walk_forward cfg (d1 :: d2 :: rest) capital points w
  = match rebalance cfg d1 w with
    | (Raise e, w') => (Raise e, w')
    | (Ok [], w') =>
        walk_forward cfg (d2 :: rest) capital (points ++ [(d2, capital)]) w'
    | (Ok (p :: ps), w') =>
        match _portfolio_return cfg (db w') (p :: ps) (next_trading_day d1) d2 with
        | Raise e => (Raise e, w')
        | Ok r =>
            walk_forward cfg (d2 :: rest) (capital * (1 + r))
                         (points ++ [(d2, capital * (1 + r))]) w'
        end
    end.
Proof.
  cbn [walk_forward]. unfold bind at 1.
  destruct (rebalance cfg d1 w) as [[[|p ps]|e] w']; reflexivity.
Qed.

(** C10. When a portfolio was built but every position lacks its entry or
    its exit price, the period return is 0 and no cost is subtracted: the
    point appended to the equity curve carries the capital of the period
    before, and the walk goes on from it. *)
Theorem dropped_positions_carry_capital (cfg : StrategyConfig) (w w' : World)
        (d1 d2 : date) (rest : list date) (portfolio : list PortfolioPosition) :
  rebalance cfg d1 w = (Ok portfolio, w') ->
  portfolio <> [] ->
  (forall p, In p portfolio ->
             position_prices (db w') (symbols_by_ticker (db w') (map pos_ticker portfolio))
                             p (next_trading_day d1) d2 = None) ->
  _portfolio_return cfg (db w') portfolio (next_trading_day d1) d2 = Ok 0
  /\ forall capital points,
      exists capital',
        walk_forward cfg (d1 :: d2 :: rest) capital points w
        = walk_forward cfg (d2 :: rest) capital' (points ++ [(d2, capital')])%list w'
        /\ capital' == capital.
Proof.
  intros Hreb Hne Hdrop.
  assert (_portfolio_return cfg (db w') portfolio (next_trading_day d1) d2 = Ok 0) as Hret.
  { unfold _portfolio_return, gross_return.
    rewrite (return_loop_dropped _ _ _ _ _ Hdrop). reflexivity. }
  split; [exact Hret|].
  intros capital points. exists (capital * (1 + 0)).
  split; [|ring].
  rewrite walk_forward_step, Hreb.
  destruct portfolio as [|p ps]; [contradiction|].
  rewrite Hret. reflexivity.
Qed.

Lemma dropped_positions_carry_capital_witness :
  exists portfolio w',
    rebalance default_strategy (mkdate 2024 10 31) (sample_world []) = (Ok portfolio, w')
    /\ portfolio <> []
    /\ (forall p, In p portfolio ->
                  position_prices (db w')
                                  (symbols_by_ticker (db w') (map pos_ticker portfolio))
                                  p (next_trading_day (mkdate 2024 10 31))
                                  (mkdate 2024 11 30) = None)
    /\ (_portfolio_return default_strategy (db w') portfolio
                          (next_trading_day (mkdate 2024 10 31)) (mkdate 2024 11 30) = Ok 0
        /\ forall capital points,
            exists capital',
              walk_forward default_strategy [mkdate 2024 10 31; mkdate 2024 11 30]
                           capital points (sample_world [])
              = walk_forward default_strategy [mkdate 2024 11 30] capital'
                             (points ++ [(mkdate 2024 11 30, capital')])%list w'
              /\ capital' == capital).
Proof.
  eexists. eexists.
  assert (forall portfolio w',
             rebalance default_strategy (mkdate 2024 10 31) (sample_world [])
             = (Ok portfolio, w') ->
             portfolio <> []
             /\ (forall p, In p portfolio ->
                  position_prices (db w')
                                  (symbols_by_ticker (db w') (map pos_ticker portfolio))
                                  p (next_trading_day (mkdate 2024 10 31))
                                  (mkdate 2024 11 30) = None)) as Hyps.
  { intros portfolio w' E. vm_compute in E. inversion E; subst portfolio w'; clear E.
    split; [discriminate|].
    intros p [<-|[]]. vm_compute. reflexivity. }
  split; [vm_compute; reflexivity|].
  split; [apply (Hyps _ _ eq_refl)|].
  split; [apply (Hyps _ _ eq_refl)|].
  apply (dropped_positions_carry_capital default_strategy (sample_world []) _
           (mkdate 2024 10 31) (mkdate 2024 11 30) [] _ eq_refl);
    apply (Hyps _ _ eq_refl).
Defined.

Example dropped_positions_equity_curve :
  exists points w',
    walk_forward default_strategy [mkdate 2024 10 31; mkdate 2024 11 30] 1
                 [(mkdate 2024 10 31, 1)] (sample_world []) = (Ok points, w')
    /\ Forall2 Qeq (map snd points) [1; 1]
    /\ length (portfolio_positions (db w')) = 1%nat.
Proof.
  eexists. eexists. split; [vm_compute; reflexivity|].
  split; [repeat constructor; vm_compute; reflexivity | reflexivity].
Qed.

Lemma renormalize_tickers (ps : list PortfolioPosition) :
  map pos_ticker (renormalize ps) = map pos_ticker ps.
Proof.
  unfold renormalize. destruct (Qltb 0 (total_weight ps)); [|reflexivity].
  rewrite map_map. reflexivity.
Qed.

(** The weighted sum of returns over renormalized positions is that over the
    capped positions, divided by the total of the capped weights. *)
Lemma weighted_gross_renormalize (s : Store) (ps : list PortfolioPosition)
      (trade_date exit_date : date) :
  0 < total_weight ps ->
  weighted_gross s (renormalize ps) trade_date exit_date
  == weighted_gross s ps trade_date exit_date / total_weight ps.
Proof.
  intros Hpos. unfold weighted_gross.
  rewrite renormalize_tickers.
  unfold renormalize. rewrite (proj2 (Qltb_lt _ _) Hpos).
  rewrite map_map.
  apply (py_sum_map_scale weight
           (fun p => position_gross s (symbols_by_ticker s (map pos_ticker ps)) p
                                    trade_date exit_date)).
Qed.

(** C1, as stated, fails: one signal, capped at 5%, renormalized to a weight
    of 1, bought at 100 and worth 110.  The total handed to the execution
    model is 0.1, not the 0.005 that the capped weight would give. *)
Lemma gross_return_not_capped_weights :
  let positions := build_positions default_strategy [mkSignal "AAA" 1 50000000] 15 in
  let capped := capped_positions default_strategy
                  (py_prefix [mkSignal "AAA" 1 50000000] 15) in
  all_priced (sample_store rising_prices) positions
             (mkdate 2024 11 1) (mkdate 2024 11 30) = true
  /\ exists total effective_weight,
      gross_return (sample_store rising_prices) positions
                   (mkdate 2024 11 1) (mkdate 2024 11 30) = Ok (total, effective_weight)
      /\ total == 0.1
      /\ weighted_gross (sample_store rising_prices) capped
                        (mkdate 2024 11 1) (mkdate 2024 11 30) == 0.005
      /\ ~ total == weighted_gross (sample_store rising_prices) capped
                                   (mkdate 2024 11 1) (mkdate 2024 11 30).
Proof.
  cbv zeta. split; [vm_compute; reflexivity|].
  eexists. eexists. split; [vm_compute; reflexivity|].
  split; [vm_compute; reflexivity|].
  split; [vm_compute; reflexivity|].
  vm_compute. discriminate.
Qed.

(** C1, amended. When every position of the portfolio [build] returns has an
    entry and an exit price, the loop of [_portfolio_return] ends with the sum
    over the positions of weight times (exit price / entry price - 1), the
    weight being the final weight [build] returns: when the capped weights
    sum to a positive total, that is the sum taken with the capped weights
    divided by their total.  This sum is what [apply_costs] receives whenever
    the weights that contributed do not add up to zero. *)
Theorem gross_return_uses_final_weights (cfg : StrategyConfig) (s : Store)
        (sigs : list Signal) (top_n : Z) (trade_date exit_date : date) :
  let positions := build_positions cfg sigs top_n in
  let capped := capped_positions cfg (py_prefix sigs top_n) in
  all_priced s positions trade_date exit_date = true ->
  exists total effective_weight,
    gross_return s positions trade_date exit_date = Ok (total, effective_weight)
    /\ total == weighted_gross s positions trade_date exit_date
    /\ effective_weight == total_weight positions
    /\ (~ effective_weight == 0 ->
        _portfolio_return cfg s positions trade_date exit_date
        = Ok (apply_costs cfg total))
    /\ (0 < total_weight capped ->
        total == weighted_gross s capped trade_date exit_date / total_weight capped).
Proof.
  cbv zeta. intros Hpriced.
  unfold all_priced in Hpriced.
  destruct (return_loop_priced _ _ _ _ _ Hpriced 0 0) as (T & W & Hrun & HT & HW).
  exists T, W.
  assert (gross_return s (build_positions cfg sigs top_n) trade_date exit_date
          = Ok (T, W)) as Hg by exact Hrun.
  assert (T == weighted_gross s (build_positions cfg sigs top_n) trade_date exit_date)
    as HT'.
  { unfold weighted_gross. rewrite HT. ring. }
  split; [exact Hg|]. split; [exact HT'|].
  split; [unfold total_weight; rewrite HW; ring|].
  split.
  - intros Hnz. unfold _portfolio_return. rewrite Hg. cbn [rbind snd fst].
    destruct (Qeq_bool W 0) eqn:E; [|reflexivity].
    apply Qeq_bool_iff in E. contradiction.
  - intros Hpos. rewrite HT'. unfold build_positions.
    destruct (py_prefix sigs top_n) as [|sg sel] eqn:E.
    + exfalso. revert Hpos. unfold total_weight, py_sum. simpl. lra.
    + apply weighted_gross_renormalize. exact Hpos.
Qed.

Lemma gross_return_uses_final_weights_witness :
  let positions := build_positions default_strategy [mkSignal "AAA" 1 50000000] 15 in
  let capped := capped_positions default_strategy
                  (py_prefix [mkSignal "AAA" 1 50000000] 15) in
  all_priced (sample_store rising_prices) positions
             (mkdate 2024 11 1) (mkdate 2024 11 30) = true
  /\ exists total effective_weight,
      gross_return (sample_store rising_prices) positions
                   (mkdate 2024 11 1) (mkdate 2024 11 30) = Ok (total, effective_weight)
      /\ total == weighted_gross (sample_store rising_prices) positions
                                 (mkdate 2024 11 1) (mkdate 2024 11 30)
      /\ effective_weight == total_weight positions
      /\ (~ effective_weight == 0 ->
          _portfolio_return default_strategy (sample_store rising_prices) positions
                            (mkdate 2024 11 1) (mkdate 2024 11 30)
          = Ok (apply_costs default_strategy total))
      /\ (0 < total_weight capped ->
          total == weighted_gross (sample_store rising_prices) capped
                                  (mkdate 2024 11 1) (mkdate 2024 11 30)
                   / total_weight capped).
Proof.
  cbv zeta. split; [vm_compute; reflexivity|].
  apply (gross_return_uses_final_weights default_strategy (sample_store rising_prices)
           [mkSignal "AAA" 1 50000000] 15 (mkdate 2024 11 1) (mkdate 2024 11 30)).
  vm_compute. reflexivity.
Defined.

(** The spec's scenario: entry 100, exit 110 and no costs give a net return
    of 0.10 on the single position. *)
Example portfolio_return_single_position :
  exists r,
    _portfolio_return zero_cost_strategy (sample_store rising_prices)
                      (build_positions zero_cost_strategy [mkSignal "AAA" 1 50000000] 15)
                      (mkdate 2024 11 1) (mkdate 2024 11 30) = Ok r
    /\ r == 0.1.
Proof. eexists. split; vm_compute; reflexivity. Qed.

(** ** The length test of the runner *)

Lemma symbol_by_ticker_no_value_error (s : Store) (t : string) :
  no_value_error (symbol_by_ticker s t).
Proof.
  unfold symbol_by_ticker, one.
  destruct (List.filter _ (symbols s)) as [|a [|b l]]; exact I.
Qed.

Lemma rbind_no_value_error {A B : Type} (r : result A) (k : A -> result B) :
  no_value_error r -> (forall a, no_value_error (k a)) -> no_value_error (rbind r k).
Proof. intros Hr Hk. destruct r as [a|e]; [apply Hk | exact Hr]. Qed.

Lemma persist_signals_no_value_error (s : Store) (r : RunContext) (sigs : list Signal) :
  no_value_error (_persist_signals s r sigs).
Proof.
  induction sigs as [|sg sigs IH]; [exact I|].
  cbn [_persist_signals].
  apply rbind_no_value_error; [apply symbol_by_ticker_no_value_error|].
  intros sym. apply rbind_no_value_error; [exact IH | intros; exact I].
Qed.

Lemma position_rows_no_value_error (s : Store) (r : RunContext)
      (ps : list PortfolioPosition) :
  no_value_error (position_rows s r ps).
Proof.
  induction ps as [|p ps IH]; [exact I|].
  cbn [position_rows].
  apply rbind_no_value_error; [apply symbol_by_ticker_no_value_error|].
  intros sym. apply rbind_no_value_error; [exact IH | intros; exact I].
Qed.

Lemma build_signals_no_value_error (cfg : StrategyConfig) (as_of : date) (w : World) :
  no_value_error (fst (build_signals cfg as_of w)).
Proof.
  unfold build_signals.
  destruct (existing_signals _ _ _); [|exact I].
  pose proof (persist_signals_no_value_error (db w) (run w)
                (scan_symbols cfg (db w) (run_id (run w))
                              (get_active_symbols (db w) (as_of_date (run w))) ∅)) as H.
  destruct (_persist_signals _ _ _) as [pending|e]; [|exact H].
  unfold commit_signals. destruct (unique_insert _ _ _ _); exact I.
Qed.

Lemma build_no_value_error (cfg : StrategyConfig) (sigs : list Signal) (top_n : Z)
      (w : World) :
  no_value_error (fst (build cfg sigs top_n w)).
Proof.
  unfold build. destruct (py_prefix sigs top_n) as [|sg sel]; [exact I|].
  unfold bind, _persist_positions, ret.
  destruct (renormalize _) as [|p ps]; [exact I|].
  pose proof (position_rows_no_value_error (db w) (run w) (p :: ps)) as H.
  destruct (position_rows _ _ _) as [pending|e]; [|exact H].
  destruct (unique_insert _ _ _ _); exact I.
Qed.

Lemma rebalance_no_value_error (cfg : StrategyConfig) (d : date) (w : World) :
  no_value_error (fst (rebalance cfg d w)).
Proof.
  unfold rebalance, bind.
  pose proof (build_signals_no_value_error cfg d (set_as_of_date w d)) as H.
  destruct (build_signals cfg d (set_as_of_date w d)) as [[sigs|e] w1]; [|exact H].
  apply build_no_value_error.
Qed.

Lemma return_loop_no_value_error (s : Store) (symbols : gmap string Symbol)
      (trade_date exit_date : date) (ps : list PortfolioPosition) :
  forall total eff,
    no_value_error (return_loop s symbols ps trade_date exit_date total eff).
Proof.
  induction ps as [|p ps IH]; intros total eff; [exact I|].
  cbn [return_loop].
  destruct (position_prices _ _ _ _ _) as [[entry exit_]|]; [|apply IH].
  unfold py_div. destruct (Qeq_bool entry 0); [exact I | apply IH].
Qed.

Lemma portfolio_return_no_value_error (cfg : StrategyConfig) (s : Store)
      (ps : list PortfolioPosition) (trade_date exit_date : date) :
  no_value_error (_portfolio_return cfg s ps trade_date exit_date).
Proof.
  unfold _portfolio_return.
  apply rbind_no_value_error; [apply return_loop_no_value_error|].
  intros [t e]. destruct (Qeq_bool _ _); exact I.
Qed.

Lemma walk_forward_no_value_error (cfg : StrategyConfig) (schedule : list date) :
  forall capital points w,
    no_value_error (fst (walk_forward cfg schedule capital points w)).
Proof.
  induction schedule as [|d1 [|d2 rest] IH]; intros capital points w; try exact I.
  rewrite walk_forward_step.
  pose proof (rebalance_no_value_error cfg d1 w) as H.
  destruct (rebalance cfg d1 w) as [[[|p ps]|e] w']; [apply IH| |exact H].
  pose proof (portfolio_return_no_value_error cfg (db w') (p :: ps)
                (next_trading_day d1) d2) as H2.
  destruct (_portfolio_return _ _ _ _ _) as [r|e]; [apply IH | exact H2].
Qed.

Lemma compute_summary_no_value_error (fpow : Q -> Q -> Q) (fsqrt : Q -> Q)
      (curve : list Q) (ppy : Z) :
  no_value_error (compute_summary fpow fsqrt curve ppy).
Proof.
  unfold compute_summary. destruct curve as [|x curve]; [exact I|].
  unfold py_div. destruct (Qeq_bool x 0); [exact I|].
  cbn [rbind]. destruct (ppy =? 0)%Z; [exact I|]. cbn [rbind].
  destruct (Qltb 0 _); [|exact I].
  unfold py_pow_checked. destruct (Qltb float_max _); exact I.
Qed.

Lemma py_index_raises {A : Type} (l : list A) (i : Z) (e : exn) :
  py_index l i = Raise e -> e = IndexError.
Proof.
  unfold py_index. destruct (_ || _); [intros H; injection H as <-; reflexivity|].
  destruct (nth_error _ _); [discriminate|].
  intros H; injection H as <-; reflexivity.
Qed.

(** The length test on the body of [run_backtest] that follows the
    schedule: a schedule of fewer than two dates makes it raise the
    configuration error at once, the run context and the database left as
    they were; with two dates or more it raises no [ValueError]. *)
Lemma run_schedule_length_guard (fpow : Q -> Q -> Q) (fsqrt : Q -> Q)
        (cfg : StrategyConfig) (start_date end_date : date) (schedule : list date)
        (w : World) :
  ((length schedule < 2)%nat ->
   run_schedule fpow fsqrt cfg start_date end_date schedule w
   = (Raise schedule_error, w))
  /\ ((2 <= length schedule)%nat ->
      no_value_error
        (fst (run_schedule fpow fsqrt cfg start_date end_date schedule w))).
Proof.
  unfold run_schedule. split; intros Hlen.
  - assert ((Z.of_nat (length schedule) <? 2)%Z = true) as -> by (apply Z.ltb_lt; lia).
    reflexivity.
  - assert ((Z.of_nat (length schedule) <? 2)%Z = false) as -> by (apply Z.ltb_ge; lia).
    unfold bind at 1.
    pose proof (walk_forward_no_value_error cfg schedule 1 [(start_date, 1)] w) as H.
    destruct (walk_forward _ _ _ _ _) as [[points|e] w1]; [|exact H].
    unfold bind at 1, lift.
    pose proof (compute_summary_no_value_error fpow fsqrt (map snd points) 12) as H2.
    destruct (compute_summary _ _ _ _) as [summary|e]; [|exact H2].
    unfold _persist_results, bind, lift.
    destruct (py_index points (-1)) as [last_point|e] eqn:Elast.
    + destruct (_ && _); exact I.
    + apply py_index_raises in Elast. subst e. exact I.
Qed.

Lemma run_schedule_length_guard_witness :
  ((length [mkdate 2024 12 31] < 2)%nat ->
   run_schedule sample_pow sample_sqrt default_strategy (mkdate 2024 12 1)
                (mkdate 2024 12 31) [mkdate 2024 12 31] (sample_world flat_prices)
   = (Raise schedule_error, sample_world flat_prices))
  /\ ((2 <= length [mkdate 2024 10 31; mkdate 2024 11 30])%nat ->
      no_value_error
        (fst (run_schedule sample_pow sample_sqrt default_strategy (mkdate 2024 10 31)
                           (mkdate 2024 11 30) [mkdate 2024 10 31; mkdate 2024 11 30]
                           (sample_world flat_prices))))
  /\ (length [mkdate 2024 12 31] < 2)%nat
  /\ (2 <= length [mkdate 2024 10 31; mkdate 2024 11 30])%nat.
Proof.
  split; [exact (proj1 (run_schedule_length_guard sample_pow sample_sqrt default_strategy
                          (mkdate 2024 12 1) (mkdate 2024 12 31) [mkdate 2024 12 31]
                          (sample_world flat_prices)))|].
  split; [exact (proj2 (run_schedule_length_guard sample_pow sample_sqrt default_strategy
                          (mkdate 2024 10 31) (mkdate 2024 11 30)
                          [mkdate 2024 10 31; mkdate 2024 11 30]
                          (sample_world flat_prices)))|].
  split; simpl; lia.
Defined.

(** As [month_end_dates] raises for every pair of dates, so does
    [run_backtest], before the length test is reached. *)
Lemma run_backtest_raises (fpow : Q -> Q -> Q) (fsqrt : Q -> Q) (cfg : StrategyConfig)
      (start_date end_date : date) (w : World) :
  exists msg,
    run_backtest fpow fsqrt cfg start_date end_date w = (Raise (ValueError msg), w)
    /\ ValueError msg <> schedule_error.
Proof.
  unfold run_backtest, bind, lift, month_end_dates, index_bool. cbn [rbind].
  eexists. split; [reflexivity | discriminate].
Qed.

(** C9. [run_backtest] never reaches its length test.  For every pair of
    dates it raises the [ValueError] of the index truth value, which is not
    the configuration error, and leaves the run context and the database as
    they were.  So it does for 2024-10-31 to 2024-12-31, whose schedule
    would hold three month ends, where the length test would have let the
    backtest run. *)
Theorem run_backtest_length_guard_unreached (fpow : Q -> Q -> Q) (fsqrt : Q -> Q)
        (cfg : StrategyConfig) (w : World) :
  (forall start_date end_date,
      run_backtest fpow fsqrt cfg start_date end_date w
      = (Raise (ValueError "The truth value of a DatetimeIndex is ambiguous. Use a.empty, a.bool(), a.item(), a.any() or a.all()."), w)
      /\ fst (run_backtest fpow fsqrt cfg start_date end_date w) <> Raise schedule_error)
  /\ schedule_by_length (mkdate 2024 10 31) (mkdate 2024 12 31)
     = Ok [mkdate 2024 10 31; mkdate 2024 11 30; mkdate 2024 12 31]
  /\ ~ no_value_error
         (fst (run_backtest fpow fsqrt cfg (mkdate 2024 10 31) (mkdate 2024 12 31) w)).
Proof.
  assert (Hraise : forall start_date end_date,
             run_backtest fpow fsqrt cfg start_date end_date w
             = (Raise (ValueError "The truth value of a DatetimeIndex is ambiguous. Use a.empty, a.bool(), a.item(), a.any() or a.all()."), w)).
  { intros start_date end_date.
    unfold run_backtest, bind, lift, month_end_dates, index_bool. cbn [rbind].
    reflexivity. }
  split; [|split].
  - intros start_date end_date. split; [apply Hraise|].
    rewrite Hraise. cbn [fst]. discriminate.
  - vm_compute. reflexivity.
  - rewrite Hraise. cbn [fst no_value_error]. intros [].
Qed.

(** ** A backtest over flat prices *)













Example flat_backtest_default_costs :
  cost_rate default_strategy == 0.0025
  /\ exists points w',
      walk_forward default_strategy sample_schedule 1 [(mkdate 2024 10 31, 1)]
                   (sample_world flat_prices) = (Ok points, w')
      /\ Forall2 Qeq (map snd points) [1; 0.9975; 0.9975 * 0.9975].
Proof.
  split; [vm_compute; reflexivity|].
  eexists. eexists. split; [vm_compute; reflexivity|].
  repeat constructor; vm_compute; reflexivity.
Qed.

(** A portfolio whose weights are all zero, here under a cap of zero, has
    its prices and yet returns 0 with no cost subtracted. *)
Example zero_weights_pay_no_costs :
  let cfg := mkStrategy (factor_weights default_strategy) (Some 20) (Some 5)
                        20000000 0 in
  let ps := build_positions cfg [mkSignal "AAA" 1 50000000] 15 in
  ps <> []
  /\ all_priced (sample_store flat_prices) ps (mkdate 2024 11 1) (mkdate 2024 11 30) = true
  /\ _portfolio_return cfg (sample_store flat_prices) ps
                       (mkdate 2024 11 1) (mkdate 2024 11 30) = Ok 0.
Proof. cbv zeta. split; [discriminate|]. split; vm_compute; reflexivity. Qed.

(** ** The signal cache *)

Lemma key_eqb_eq (k1 k2 : string * Z * date) : key_eqb k1 k2 = true <-> k1 = k2.
Proof.
  destruct k1 as [[a1 b1] c1], k2 as [[a2 b2] c2]. unfold key_eqb. cbn [fst snd].
  rewrite !andb_true_iff, String.eqb_eq, !Z.eqb_eq.
  split; [intros [[-> ->] ->]; reflexivity | intros H; inversion H; auto].
Qed.

Lemma NoDup_cons_In {A : Type} (x : A) (l : list A) :
  NoDup (x :: l) <-> ~ In x l /\ NoDup l.
Proof. rewrite NoDup_cons, list_elem_of_In. reflexivity. Qed.

(** Rows whose keys are new and pairwise distinct pass the unique
    constraint. *)
Lemma unique_insert_fresh {A K : Type} (eqb : K -> K -> bool) (key : A -> K)
      (pending : list A) :
  (forall a b, eqb a b = true <-> a = b) ->
  forall stored,
    NoDup (map key pending) ->
    (forall r, In r pending -> ~ In (key r) stored) ->
    unique_insert eqb key stored pending = true.
Proof.
  intros Heqb. induction pending as [|r pending IH]; intros stored Hnd Hfresh;
    [reflexivity|].
  cbn [unique_insert map] in *. apply NoDup_cons_In in Hnd as [Hr Hnd].
  apply andb_true_iff. split.
  - apply negb_true_iff. destruct (existsb (eqb (key r)) stored) eqn:E; [|reflexivity].
    apply existsb_exists in E as (k & Hk & Ek). apply Heqb in Ek. subst k.
    exfalso. apply (Hfresh r); [left; reflexivity | exact Hk].
  - apply IH; [exact Hnd|].
    intros r' Hr' [Heq|Hin].
    + apply Hr. rewrite Heq. apply in_map. exact Hr'.
    + apply (Hfresh r'); [right; exact Hr' | exact Hin].
Qed.

(** In a table with unique keys, selecting by the key of a stored row yields
    that row alone. *)
Lemma filter_by_unique_key {A K : Type} (eqb : K -> K -> bool) (f : A -> K)
      (l : list A) (x : A) :
  (forall a b, eqb a b = true <-> a = b) ->
  NoDup (map f l) -> In x l ->
  List.filter (fun y => eqb (f y) (f x)) l = [x].
Proof.
  intros Heqb. induction l as [|a l IH]; intros Hnd Hin; [contradiction|].
  cbn [map] in Hnd. apply NoDup_cons_In in Hnd as [Ha Hnd].
  cbn [List.filter]. destruct Hin as [->|Hin].
  - rewrite (proj2 (Heqb (f x) (f x)) eq_refl). f_equal.
    destruct (List.filter (fun y => eqb (f y) (f x)) l) as [|y ys] eqn:E; [reflexivity|].
    assert (In y (List.filter (fun y => eqb (f y) (f x)) l)) as Hy
        by (rewrite E; left; reflexivity).
    apply filter_In in Hy as [Hy Ey]. apply Heqb in Ey.
    exfalso. apply Ha. rewrite <- Ey. apply in_map. exact Hy.
  - destruct (eqb (f a) (f x)) eqn:E.
    + apply Heqb in E. exfalso. apply Ha. rewrite E. apply in_map. exact Hin.
    + apply IH; assumption.
Qed.

Lemma NoDup_map_injective {A K : Type} (f : A -> K) (l : list A) (x y : A) :
  NoDup (map f l) -> In x l -> In y l -> f x = f y -> x = y.
Proof.
  induction l as [|a l IH]; intros Hnd Hx Hy Hxy; [contradiction|].
  cbn [map] in Hnd. apply NoDup_cons_In in Hnd as [Ha Hnd].
  destruct Hx as [->|Hx], Hy as [->|Hy]; auto.
  - exfalso. apply Ha. rewrite Hxy. apply in_map. exact Hy.
  - exfalso. apply Ha. rewrite <- Hxy. apply in_map. exact Hx.
Qed.

Lemma symbol_by_ticker_stored (s : Store) (sym : Symbol) :
  NoDup (map sym_ticker (symbols s)) -> In sym (symbols s) ->
  symbol_by_ticker s (sym_ticker sym) = Ok sym.
Proof.
  intros Hnd Hin. unfold symbol_by_ticker.
  rewrite (filter_by_unique_key String.eqb sym_ticker _ sym String.eqb_eq Hnd Hin).
  reflexivity.
Qed.

(** The tickers of the signals scanned are, in order, tickers of the symbols
    scanned. *)
Lemma scan_symbols_tickers (cfg : StrategyConfig) (s : Store) (rid : string)
      (syms : list Symbol) :
  forall seen,
    sublist (map ticker (scan_symbols cfg s rid syms seen)) (map sym_ticker syms).
Proof.
  induction syms as [|sym syms IH]; intros seen; [constructor|].
  cbn [scan_symbols map].
  destruct (bool_decide _); [apply sublist_cons, IH|].
  destruct (negb _); [apply sublist_cons, IH|].
  destruct (gather_factors _ _ _ _ _); [|apply sublist_cons, IH].
  cbn [map ticker]. apply sublist_skip, IH.
Qed.

Lemma filter_map_sublist {A K : Type} (f : A -> K) (P : A -> bool) (l : list A) :
  sublist (map f (List.filter P l)) (map f l).
Proof.
  induction l as [|a l IH]; [constructor|].
  cbn [List.filter map]. destruct (P a); [apply sublist_skip | apply sublist_cons]; exact IH.
Qed.

Lemma scan_active_tickers (cfg : StrategyConfig) (s : Store) (rid : string)
      (as_of : date) :
  sublist (map ticker (scan_symbols cfg s rid (get_active_symbols s as_of) ∅))
          (map sym_ticker (symbols s)).
Proof.
  etransitivity; [apply scan_symbols_tickers|].
  unfold get_active_symbols. apply filter_map_sublist.
Qed.

Lemma persist_signals_rows (s : Store) (r : RunContext) (sigs : list Signal) :
  NoDup (map sym_ticker (symbols s)) ->
  (forall sg, In sg sigs -> In (ticker sg) (map sym_ticker (symbols s))) ->
  exists pending, _persist_signals s r sigs = Ok pending
                  /\ Forall2 (row_of s r) sigs pending.
Proof.
  intros Hnd. induction sigs as [|sg sigs IH]; intros Hin.
  - exists []. split; [reflexivity | constructor].
  - destruct IH as (pending & Hp & Hrows); [intros x Hx; apply Hin; right; exact Hx|].
    destruct (proj1 (in_map_iff _ _ _) (Hin sg (or_introl eq_refl))) as (sym & Ht & Hsym).
    pose proof (symbol_by_ticker_stored s sym Hnd Hsym) as Hone. rewrite Ht in Hone.
    cbn [_persist_signals]. rewrite Hone. cbn [rbind]. rewrite Hp. cbn [rbind].
    eexists. split; [reflexivity|].
    constructor; [|exact Hrows]. exists sym. auto.
Qed.

Lemma pending_keys_distinct (s : Store) (r : RunContext) (sigs : list Signal)
      (pending : list SignalRecord) :
  NoDup (map sym_id (symbols s)) ->
  Forall2 (row_of s r) sigs pending ->
  NoDup (map ticker sigs) ->
  NoDup (map signal_key pending)
  /\ forall rec, In rec pending ->
                 exists sg, In sg sigs /\ row_of s r sg rec.
Proof.
  intros Hids Hrows. induction Hrows as [|sg rec sigs pending Hrow Hrows IH]; intros Hnd.
  - split; [constructor | intros rec []].
  - cbn [map] in Hnd. apply NoDup_cons_In in Hnd as [Hsg Hnd].
    destruct (IH Hnd) as [Hkeys Hback].
    split.
    + cbn [map]. apply NoDup_cons_In. split; [|exact Hkeys].
      intros Hk. apply in_map_iff in Hk as (rec' & Ek & Hrec').
      destruct (Hback rec' Hrec') as (sg' & Hsg' & sym' & Hs' & Ht' & ->).
      destruct Hrow as (sym & Hs & Ht & ->).
      unfold signal_key in Ek. cbn in Ek. inversion Ek as [Eid].
      assert (sym' = sym) as -> by (apply (NoDup_map_injective sym_id (symbols s)); auto).
      apply Hsg. rewrite <- Ht, Ht'. apply in_map. exact Hsg'.
    + intros rec0 [<-|Hin].
      * exists sg. split; [left; reflexivity | exact Hrow].
      * destruct (Hback rec0 Hin) as (sg0 & Hsg0 & Hr0).
        exists sg0. split; [right; exact Hsg0 | exact Hr0].
Qed.

Lemma flat_map_nil_inv {A B : Type} (f : A -> list B) (l : list A) (x : A) :
  flat_map f l = [] -> In x l -> f x = [].
Proof.
  induction l as [|a l IH]; intros H Hin; [contradiction|].
  cbn [flat_map] in H. apply app_eq_nil in H as [Ha Hl].
  destruct Hin as [<-|Hin]; auto.
Qed.

(** With nothing cached for the run and the date, no stored row carries
    them. *)
Lemma no_cached_row (s : Store) (rid : string) (as_of : date) (rec : SignalRecord) :
  store_ok s ->
  existing_signals s rid as_of = [] ->
  In rec (signals s) ->
  ~ (sr_run_id rec = rid /\ sr_as_of_date rec = as_of).
Proof.
  intros Hok Hnone Hin [Hrid Hdate].
  unfold existing_signals in Hnone.
  pose proof (flat_map_nil_inv _ _ rec Hnone Hin) as Hrec. cbv beta in Hrec.
  rewrite Hrid, Hdate, String.eqb_refl, Z.eqb_refl in Hrec. cbn [andb] in Hrec.
  destruct (signals_have_symbol s Hok rec Hin) as (sym & Hsym & Hid).
  assert (In sym (List.filter (fun sym0 => (sym_id sym0 =? sr_symbol_id rec)%Z) (symbols s)))
    as Hf by (apply filter_In; split; [exact Hsym | apply Z.eqb_eq; exact Hid]).
  destruct (List.filter _ (symbols s)); [contradiction | discriminate].
Qed.

Lemma existing_signals_app (s : Store) (rows1 rows2 : list SignalRecord)
      (rid : string) (as_of : date) :
  existing_signals (set_signals s (rows1 ++ rows2)) rid as_of
  = (existing_signals (set_signals s rows1) rid as_of
     ++ existing_signals (set_signals s rows2) rid as_of)%list.
Proof. unfold existing_signals. cbn [signals symbols set_signals]. apply flat_map_app. Qed.

(** Read back, the rows persisted for a list of signals give that list. *)
Lemma existing_signals_pending (s : Store) (r : RunContext) (sigs : list Signal)
      (pending : list SignalRecord) :
  NoDup (map sym_id (symbols s)) ->
  Forall2 (row_of s r) sigs pending ->
  map signal_of_row (existing_signals (set_signals s pending) (run_id r) (as_of_date r))
  = sigs.
Proof.
  intros Hids Hrows. induction Hrows as [|sg rec sigs pending Hrow Hrows IH];
    [reflexivity|].
  change (rec :: pending) with ([rec] ++ pending)%list.
  rewrite existing_signals_app, map_app, IH. cbn [app]. f_equal.
  destruct Hrow as (sym & Hsym & Ht & ->).
  unfold existing_signals. cbn [signals symbols set_signals flat_map sr_run_id
                                 sr_as_of_date sr_symbol_id].
  rewrite String.eqb_refl, Z.eqb_refl. cbn [andb].
  rewrite (filter_by_unique_key Z.eqb sym_id (symbols s) sym Z.eqb_eq Hids Hsym).
  cbn. rewrite Ht. destruct sg; reflexivity.
Qed.

Lemma insert_desc_not_nil (x : Signal) (l : list Signal) : insert_desc x l <> [].
Proof.
  destruct l as [|y l]; cbn [insert_desc]; [discriminate|].
  destruct (Qle_bool (score y) (score x)); discriminate.
Qed.

Lemma set_signals_same (s : Store) : set_signals s (signals s) = s.
Proof. destruct s; reflexivity. Qed.

Lemma insert_desc_perm (x : Signal) (l : list Signal) : insert_desc x l ≡ₚ x :: l.
Proof.
  induction l as [|y l IH]; [reflexivity|].
  cbn [insert_desc]. destruct (Qle_bool (score y) (score x)); [reflexivity|].
  rewrite IH. apply perm_swap.
Qed.

Lemma sort_desc_perm (l : list Signal) : sort_desc l ≡ₚ l.
Proof.
  induction l as [|x l IH]; [reflexivity|].
  cbn [sort_desc fold_right]. fold (sort_desc l).
  rewrite insert_desc_perm, IH. reflexivity.
Qed.

Lemma insert_desc_descending (x : Signal) (l : list Signal) :
  descending l -> descending (insert_desc x l).
Proof.
  unfold descending. induction l as [|y l IH]; intros Hs.
  - repeat constructor.
  - apply StronglySorted_inv in Hs as [Hl Hy].
    cbn [insert_desc]. destruct (Qle_bool (score y) (score x)) eqn:E.
    + apply Qle_bool_iff in E. constructor; [constructor; assumption|].
      constructor; [exact E|].
      eapply Forall_impl; [exact Hy|]. intros b Hb. cbv beta in *. lra.
    + assert (score x < score y) as Hlt.
      { apply Qnot_le_lt. intros H. apply Qle_bool_iff in H. congruence. }
      constructor; [apply IH; exact Hl|].
      apply Forall_forall. intros b Hb.
      rewrite insert_desc_perm in Hb.
      apply elem_of_cons in Hb as [->|Hb]; [lra|].
      rewrite Forall_forall in Hy. apply Hy. exact Hb.
Qed.

Lemma sort_desc_descending (l : list Signal) : descending (sort_desc l).
Proof.
  induction l as [|x l IH]; [constructor|].
  cbn [sort_desc fold_right]. apply insert_desc_descending. exact IH.
Qed.

(** Two lists of the same signals, both in descending order of score, are
    the same list when no two of the signals tie. *)
Lemma descending_perm_unique (l1 : list Signal) :
  forall l2, descending l1 -> descending l2 -> l1 ≡ₚ l2 -> tie_free l2 -> l1 = l2.
Proof.
  unfold descending.
  induction l1 as [|a l1 IH]; intros l2 H1 H2 Hp Hfree.
  - symmetry. apply Permutation_nil. exact Hp.
  - destruct l2 as [|b l2]; [symmetry in Hp; apply Permutation_nil in Hp; discriminate Hp|].
    apply StronglySorted_inv in H1 as [H1 Ha].
    apply StronglySorted_inv in H2 as [H2 Hb].
    assert (Hina : In a (b :: l2)) by (eapply Permutation_in; [exact Hp|left; reflexivity]).
    assert (Hinb : In b (a :: l1))
      by (eapply Permutation_in; [symmetry; exact Hp|left; reflexivity]).
    assert (Hle1 : score b <= score a).
    { destruct Hinb as [->|Hin]; [apply Qle_refl|].
      rewrite List.Forall_forall in Ha. apply Ha. exact Hin. }
    assert (Hle2 : score a <= score b).
    { destruct Hina as [->|Hin]; [apply Qle_refl|].
      rewrite List.Forall_forall in Hb. apply Hb. exact Hin. }
    assert (a = b) as ->.
    { apply Hfree; [exact Hina|left; reflexivity|]. apply Qle_antisym; assumption. }
    f_equal. apply IH; [exact H1|exact H2|eapply Permutation_cons_inv; exact Hp|].
    intros x y Hx Hy. apply Hfree; right; assumption.
Qed.

Lemma build_signals_sorted (cfg : StrategyConfig) (as_of : date) (w w' : World)
      (sigs : list Signal) :
  build_signals cfg as_of w = (Ok sigs, w') -> descending sigs.
Proof.
  unfold build_signals.
  destruct (existing_signals (db w) (run_id (run w)) as_of) as [|row rows].
  - destruct (_persist_signals _ _ _) as [pending|e]; [|discriminate].
    destruct (commit_signals _ _) as [db'|e]; [|discriminate].
    intros H. injection H as <- _. apply sort_desc_descending.
  - intros H. injection H as <- _.
    apply (sort_desc_descending (map signal_of_row (row :: rows))).
Qed.

(** C6, as stated, fails: when the first call yields no signal (here the
    one symbol is below the liquidity threshold) nothing is cached, and the
    second call finds no row to read and runs the computation again. *)
Lemma build_signals_recomputes_when_empty :
  exists w1,
    build_signals strict_strategy (as_of_date sample_run) (sample_world flat_prices)
    = (Ok [], w1)
    /\ cache_hit w1 (as_of_date sample_run) = false
    /\ build_signals strict_strategy (as_of_date sample_run) w1
       = (Ok (sort_desc
                (scan_symbols strict_strategy (db w1) (run_id (run w1))
                              (get_active_symbols (db w1) (as_of_date (run w1))) ∅)),
          w1).
Proof. eexists. repeat split; vm_compute; reflexivity. Qed.

(** Two calls in a row, with the rows read in the order this development
    gives them (the order of insertion): in a database that keeps its key
    constraints the first call succeeds and the second returns what the
    first returned, from the cache whenever the first yielded a signal. *)
Lemma build_signals_repeats (cfg : StrategyConfig) (w : World) (as_of : date) :
  store_ok (db w) ->
  as_of = as_of_date (run w) ->
  exists sigs w1,
    build_signals cfg as_of w = (Ok sigs, w1)
    /\ build_signals cfg as_of w1 = (Ok sigs, w1)
    /\ (sigs <> [] -> cache_hit w1 as_of = true)
    /\ (sigs = [] -> w1 = w).
Proof.
  intros Hok ->.
  destruct (existing_signals (db w) (run_id (run w)) (as_of_date (run w)))
    as [|row rows] eqn:Ecache.
  - (* nothing cached: the signals are computed and persisted *)
    pose proof (scan_active_tickers cfg (db w) (run_id (run w)) (as_of_date (run w)))
      as Hsub.
    remember (scan_symbols cfg (db w) (run_id (run w))
                           (get_active_symbols (db w) (as_of_date (run w))) ∅)
      as sigs eqn:Escan.
    assert (NoDup (map ticker sigs)) as Hnd
        by (eapply sublist_NoDup; [exact (tickers_unique _ Hok) | exact Hsub]).
    destruct (persist_signals_rows (db w) (run w) sigs (tickers_unique _ Hok))
      as (pending & Hpersist & Hrows).
    { intros sg Hsg. apply list_elem_of_In.
      eapply elem_of_sublist; [|exact Hsub]. apply list_elem_of_In, in_map. exact Hsg. }
    destruct (pending_keys_distinct _ _ _ _ (ids_unique _ Hok) Hrows Hnd)
      as [Hkeys Hback].
    assert (commit_signals (db w) pending
            = Ok (set_signals (db w) (signals (db w) ++ pending))) as Hcommit.
    { unfold commit_signals.
      rewrite (unique_insert_fresh key_eqb signal_key pending key_eqb_eq); [reflexivity| |].
      - exact Hkeys.
      - intros rec Hrec Hstored.
        apply in_map_iff in Hstored as (rec0 & Ek & Hrec0).
        destruct (Hback rec Hrec) as (sg & _ & sym & _ & _ & ->).
        unfold signal_key in Ek. cbn in Ek. inversion Ek.
        apply (no_cached_row _ _ _ rec0 Hok Ecache Hrec0). auto. }
    assert (build_signals cfg (as_of_date (run w)) w
            = (Ok (sort_desc sigs),
               mkWorld (run w) (set_signals (db w) (signals (db w) ++ pending)))) as Hfirst.
    { unfold build_signals. rewrite Ecache, <- Escan, Hpersist, Hcommit.
      reflexivity. }
    assert (map signal_of_row
              (existing_signals (set_signals (db w) (signals (db w) ++ pending))
                                (run_id (run w)) (as_of_date (run w))) = sigs) as Hread.
    { rewrite existing_signals_app, set_signals_same, Ecache. cbn [app].
      apply existing_signals_pending; [exact (ids_unique _ Hok) | exact Hrows]. }
    clear Escan. destruct sigs as [|sg sigs'].
    + (* no signal: nothing was persisted *)
      inversion Hrows; subst pending.
      rewrite app_nil_r, set_signals_same in Hfirst.
      assert (mkWorld (run w) (db w) = w) as Hw by (destruct w; reflexivity).
      rewrite Hw in Hfirst.
      exists [], w. split; [exact Hfirst|]. split; [exact Hfirst|].
      split; [intros H; contradiction | reflexivity].
    + exists (sort_desc (sg :: sigs')), (mkWorld (run w)
                (set_signals (db w) (signals (db w) ++ pending))).
      split; [exact Hfirst|].
      assert (exists row' rows',
                 existing_signals (set_signals (db w) (signals (db w) ++ pending))
                                  (run_id (run w)) (as_of_date (run w)) = row' :: rows')
        as (row' & rows' & Ehit).
      { destruct (existing_signals (set_signals (db w) (signals (db w) ++ pending))
                                   (run_id (run w)) (as_of_date (run w)))
          as [|row' rows']; [discriminate Hread | eauto]. }
      split.
      * unfold build_signals. cbn [db run]. rewrite Ehit, <- Ehit, Hread. reflexivity.
      * split; [|intros H; exfalso; exact (insert_desc_not_nil _ _ H)].
        intros _. unfold cache_hit. cbn [db run]. rewrite Ehit. reflexivity.
  - (* cached rows: they are read back, twice *)
    exists (sort_desc (map signal_of_row (row :: rows))), w.
    assert (build_signals cfg (as_of_date (run w)) w
            = (Ok (sort_desc (map signal_of_row (row :: rows))), w)) as Hcall.
    { unfold build_signals. rewrite Ecache. reflexivity. }
    split; [exact Hcall|]. split; [exact Hcall|].
    split; [|reflexivity].
    intros _. unfold cache_hit. rewrite Ecache. reflexivity.
Qed.

Lemma sample_store_ok (prices : list PriceAdjusted) : store_ok (sample_store prices).
Proof.
  constructor; cbn.
  - apply NoDup_singleton.
  - apply NoDup_singleton.
  - intros rec [].
Defined.

(** C6, amended. In a database that keeps its key constraints, a call of
    [build_signals] for the as-of date of the run succeeds and returns its
    signals in descending order of score.  A second call returns the same
    signals, again in descending order, and leaves the database as the
    first call left it; the two sequences are identical when no two signals
    tie on score (the order among tied signals is whatever order the rows
    are read in).  The second call reads the cached rows whenever the first
    call yielded a signal, and a first call that yielded none left the
    database untouched. *)
Theorem build_signals_idempotent (cfg : StrategyConfig) (w : World) (as_of : date) :
  store_ok (db w) ->
  as_of = as_of_date (run w) ->
  exists sigs w1,
    build_signals cfg as_of w = (Ok sigs, w1)
    /\ descending sigs
    /\ (exists sigs',
           build_signals cfg as_of w1 = (Ok sigs', w1)
           /\ sigs' ≡ₚ sigs
           /\ descending sigs'
           /\ (tie_free sigs -> sigs' = sigs))
    /\ (sigs <> [] -> cache_hit w1 as_of = true)
    /\ (sigs = [] -> w1 = w).
Proof.
  intros Hok Has.
  destruct (build_signals_repeats cfg w as_of Hok Has)
    as (sigs & w1 & Hfirst & Hsecond & Hhit & Hnone).
  exists sigs, w1. split; [exact Hfirst|].
  pose proof (build_signals_sorted _ _ _ _ _ Hfirst) as Hsorted.
  split; [exact Hsorted|]. split; [|split; assumption].
  exists sigs. split; [exact Hsecond|]. split; [reflexivity|].
  split; [exact Hsorted|].
  intros Hfree. apply descending_perm_unique; [exact Hsorted|exact Hsorted|reflexivity|exact Hfree].
Qed.

Lemma build_signals_idempotent_witness :
  store_ok (db (sample_world flat_prices))
  /\ as_of_date sample_run = as_of_date (run (sample_world flat_prices))
  /\ exists sigs w1,
      build_signals default_strategy (as_of_date sample_run) (sample_world flat_prices)
      = (Ok sigs, w1)
      /\ descending sigs
      /\ (exists sigs',
             build_signals default_strategy (as_of_date sample_run) w1 = (Ok sigs', w1)
             /\ sigs' ≡ₚ sigs
             /\ descending sigs'
             /\ (tie_free sigs -> sigs' = sigs))
      /\ (sigs <> [] -> cache_hit w1 (as_of_date sample_run) = true)
      /\ (sigs = [] -> w1 = sample_world flat_prices).
Proof.
  split; [exact (sample_store_ok flat_prices)|].
  split; [reflexivity|].
  exact (build_signals_idempotent default_strategy (sample_world flat_prices)
           (as_of_date sample_run) (sample_store_ok flat_prices) eq_refl).
Defined.

Example build_signals_cached :
  exists w1,
    build_signals default_strategy (as_of_date sample_run) (sample_world flat_prices)
    = (Ok [mkSignal "AAA" (0 + 0.4 * 0.5 + 0.4 * 0.25 + -0.2 * 0.5) 50000000], w1)
    /\ length (signals (db w1)) = 1%nat
    /\ cache_hit w1 (as_of_date sample_run) = true.
Proof. eexists. repeat split; vm_compute; reflexivity. Qed.

(** The rows are stored under the as-of date of the run, whatever date the
    call is for.  When the two differ, the first call caches nothing for the
    date asked, and the second computes again and tries to store the same
    rows again, which the unique constraint refuses. *)
Example build_signals_other_date :
  exists sigs w1,
    build_signals default_strategy (mkdate 2024 10 31) (sample_world flat_prices)
    = (Ok sigs, w1)
    /\ sigs <> []
    /\ map sr_as_of_date (signals (db w1)) = [mkdate 2024 12 31]
    /\ build_signals default_strategy (mkdate 2024 10 31) w1 = (Raise IntegrityError, w1).
Proof.
  eexists. eexists. split; [vm_compute; reflexivity|].
  split; [discriminate|]. split; vm_compute; reflexivity.
Qed.


(** * Further properties of the code *)

(** ** The trading calendar *)

(** X1. [next_trading_day] yields the first day after [d] that is not a
    Saturday or a Sunday: a week day, one to three days later, every day
    in between being part of the weekend. *)
Theorem next_trading_day_first_weekday (d : date) :
  (weekday (next_trading_day d) < 5)%Z
  /\ (d < next_trading_day d <= d + 3)%Z
  /\ forall x, (d < x < next_trading_day d)%Z -> (5 <= weekday x)%Z.
Proof.
  unfold next_trading_day, skip_weekend.
  destruct (Z.leb_spec 5 (weekday (d + 1)%Z)) as [H1|H1];
    [destruct (Z.leb_spec 5 (weekday (d + 1 + 1)%Z)) as [H2|H2]|].
  - split; [|split; [lia|]].
    + unfold weekday in *. Z.div_mod_to_equations. lia.
    + intros x Hx. assert (x = d + 1 \/ x = d + 1 + 1)%Z as [->| ->] by lia; assumption.
  - split; [exact H2|]. split; [lia|].
    intros x Hx. assert (x = d + 1)%Z as -> by lia. exact H1.
  - split; [exact H1|]. split; [lia|]. intros x Hx. lia.
Qed.

(** ** The active universe *)

Lemma membership_active_holds (as_of : date) (m : UniverseMembership) :
  membership_active as_of m = true <-> membership_holds as_of m.
Proof.
  unfold membership_active, membership_holds.
  rewrite andb_true_iff, Z.leb_le.
  destruct (um_end_date m); [rewrite Z.leb_le|]; intuition.
Qed.

(** X2. The active symbols on a date are exactly the stored symbols that
    have a membership interval holding the date; a symbol with several such
    intervals is returned once, so that with unique symbol ids no id is
    listed twice. *)
Theorem get_active_symbols_spec (s : Store) (as_of : date) :
  (forall sym,
      In sym (get_active_symbols s as_of)
      <-> In sym (symbols s)
          /\ exists m, In m (universe_membership s)
                       /\ um_symbol_id m = sym_id sym
                       /\ membership_holds as_of m)
  /\ (NoDup (map sym_id (symbols s)) -> NoDup (get_active_symbol_ids s as_of)).
Proof.
  split.
  - intros sym. unfold get_active_symbols. rewrite filter_In, existsb_exists.
    split.
    + intros [Hin (m & Hm & Hb)]. apply andb_true_iff in Hb as [Hid Hact].
      split; [exact Hin|]. exists m.
      rewrite Z.eqb_eq in Hid. rewrite membership_active_holds in Hact. auto.
    + intros [Hin (m & Hm & Hid & Hact)]. split; [exact Hin|]. exists m.
      split; [exact Hm|]. apply andb_true_iff.
      rewrite Z.eqb_eq, membership_active_holds. auto.
  - intros Hnd. unfold get_active_symbol_ids, get_active_symbols.
    eapply sublist_NoDup; [exact Hnd | apply filter_map_sublist].
Qed.

Lemma get_active_symbols_spec_witness :
  (forall sym,
      In sym (get_active_symbols (sample_store []) (mkdate 2024 10 31))
      <-> In sym (symbols (sample_store []))
          /\ exists m, In m (universe_membership (sample_store []))
                       /\ um_symbol_id m = sym_id sym
                       /\ membership_holds (mkdate 2024 10 31) m)
  /\ NoDup (get_active_symbol_ids (sample_store []) (mkdate 2024 10 31)).
Proof.
  destruct (get_active_symbols_spec (sample_store []) (mkdate 2024 10 31)) as [Hin Hnd].
  split; [exact Hin|]. apply Hnd. apply NoDup_singleton.
Defined.

(** ** Entry and exit prices *)

Lemma earliest_spec (rows : list PriceAdjusted) :
  match earliest rows with
  | None => rows = []
  | Some r => In r rows
              /\ forall r', In r' rows -> (pa_price_date r <= pa_price_date r')%Z
  end.
Proof.
  induction rows as [|a rows IH]; [reflexivity|].
  cbn [earliest]. destruct (earliest rows) as [r|].
  - destruct IH as [Hin Hmin].
    destruct (Z.leb_spec (pa_price_date a) (pa_price_date r)) as [Hle|Hlt].
    + split; [left; reflexivity|].
      intros r' [<-|Hr']; [lia|]. specialize (Hmin r' Hr'). lia.
    + split; [right; exact Hin|].
      intros r' [<-|Hr']; [lia | exact (Hmin r' Hr')].
  - subst rows. split; [left; reflexivity|]. intros r' [<-|[]]. lia.
Qed.

Lemma latest_spec (rows : list PriceAdjusted) :
  match latest rows with
  | None => rows = []
  | Some r => In r rows
              /\ forall r', In r' rows -> (pa_price_date r' <= pa_price_date r)%Z
  end.
Proof.
  induction rows as [|a rows IH]; [reflexivity|].
  cbn [latest]. destruct (latest rows) as [r|].
  - destruct IH as [Hin Hmax].
    destruct (Z.leb_spec (pa_price_date r) (pa_price_date a)) as [Hle|Hlt].
    + split; [left; reflexivity|].
      intros r' [<-|Hr']; [lia|]. specialize (Hmax r' Hr'). lia.
    + split; [right; exact Hin|].
      intros r' [<-|Hr']; [lia | exact (Hmax r' Hr')].
  - subst rows. split; [left; reflexivity|]. intros r' [<-|[]]. lia.
Qed.

(** X3. The entry price of a symbol is the close of its earliest stored
    price dated on or after the target: no price of the symbol lies between
    the target and that date.  There is none exactly when every stored price
    of the symbol is dated before the target. *)
Theorem price_on_or_after_spec (s : Store) (symbol_id : Z) (target : date) :
  match _price_on_or_after s symbol_id target with
  | Some price =>
      exists row, In row (prices_adjusted s)
                  /\ pa_symbol_id row = symbol_id
                  /\ (target <= pa_price_date row)%Z
                  /\ pa_adj_close row = price
                  /\ forall row', In row' (prices_adjusted s) ->
                                  pa_symbol_id row' = symbol_id ->
                                  (target <= pa_price_date row')%Z ->
                                  (pa_price_date row <= pa_price_date row')%Z
  | None =>
      forall row, In row (prices_adjusted s) -> pa_symbol_id row = symbol_id ->
                  (pa_price_date row < target)%Z
  end.
Proof.
  unfold _price_on_or_after.
  pose proof (earliest_spec
                (List.filter (fun p => (pa_symbol_id p =? symbol_id)%Z
                                       && (target <=? pa_price_date p)%Z)
                             (prices_adjusted s))) as H.
  destruct (earliest _) as [r|].
  - destruct H as [Hin Hmin]. apply filter_In in Hin as [Hin Hb].
    apply andb_true_iff in Hb as [Hid Hd]. apply Z.eqb_eq in Hid. apply Z.leb_le in Hd.
    exists r. repeat split; auto.
    intros row' Hrow' Hid' Hd'. apply Hmin. apply filter_In. split; [exact Hrow'|].
    apply andb_true_iff. rewrite Z.eqb_eq, Z.leb_le. auto.
  - intros row Hrow Hid.
    destruct (Z.lt_ge_cases (pa_price_date row) target) as [Hlt|Hge]; [exact Hlt|].
    assert (In row (List.filter (fun p => (pa_symbol_id p =? symbol_id)%Z
                                          && (target <=? pa_price_date p)%Z)
                                (prices_adjusted s))) as Hf.
    { apply filter_In. split; [exact Hrow|]. apply andb_true_iff.
      rewrite Z.eqb_eq, Z.leb_le. auto. }
    rewrite H in Hf. contradiction.
Qed.

(** X4. The exit price of a symbol is the close of its latest stored price
    dated on or before the target; there is none exactly when every stored
    price of the symbol is dated after the target. *)
Theorem price_on_or_before_spec (s : Store) (symbol_id : Z) (target : date) :
  match _price_on_or_before s symbol_id target with
  | Some price =>
      exists row, In row (prices_adjusted s)
                  /\ pa_symbol_id row = symbol_id
                  /\ (pa_price_date row <= target)%Z
                  /\ pa_adj_close row = price
                  /\ forall row', In row' (prices_adjusted s) ->
                                  pa_symbol_id row' = symbol_id ->
                                  (pa_price_date row' <= target)%Z ->
                                  (pa_price_date row' <= pa_price_date row)%Z
  | None =>
      forall row, In row (prices_adjusted s) -> pa_symbol_id row = symbol_id ->
                  (target < pa_price_date row)%Z
  end.
Proof.
  unfold _price_on_or_before.
  pose proof (latest_spec
                (List.filter (fun p => (pa_symbol_id p =? symbol_id)%Z
                                       && (pa_price_date p <=? target)%Z)
                             (prices_adjusted s))) as H.
  destruct (latest _) as [r|].
  - destruct H as [Hin Hmax]. apply filter_In in Hin as [Hin Hb].
    apply andb_true_iff in Hb as [Hid Hd]. apply Z.eqb_eq in Hid. apply Z.leb_le in Hd.
    exists r. repeat split; auto.
    intros row' Hrow' Hid' Hd'. apply Hmax. apply filter_In. split; [exact Hrow'|].
    apply andb_true_iff. rewrite Z.eqb_eq, Z.leb_le. auto.
  - intros row Hrow Hid.
    destruct (Z.lt_ge_cases target (pa_price_date row)) as [Hlt|Hge]; [exact Hlt|].
    assert (In row (List.filter (fun p => (pa_symbol_id p =? symbol_id)%Z
                                          && (pa_price_date p <=? target)%Z)
                                (prices_adjusted s))) as Hf.
    { apply filter_In. split; [exact Hrow|]. apply andb_true_iff.
      rewrite Z.eqb_eq, Z.leb_le. auto. }
    rewrite H in Hf. contradiction.
Qed.

(** ** Ranking the signals *)

(** X5. The sort of the signals returns the same signals, scores never
    rising, and leaves a list that is already in that order exactly as it
    is, signals of equal score included. *)
Theorem sort_desc_spec (l : list Signal) :
  sort_desc l ≡ₚ l
  /\ descending (sort_desc l)
  /\ (descending l -> sort_desc l = l).
Proof.
  split; [apply sort_desc_perm|]. split; [apply sort_desc_descending|].
  unfold descending. induction l as [|x l IH]; intros Hs; [reflexivity|].
  apply StronglySorted_inv in Hs as [Hl Hx].
  cbn [sort_desc fold_right]. fold (sort_desc l). rewrite (IH Hl).
  destruct l as [|y l]; [reflexivity|].
  cbn [insert_desc]. apply Forall_inv in Hx.
  rewrite (proj2 (Qle_bool_iff _ _) Hx). reflexivity.
Qed.

Lemma sample_signals_tied_descending : descending sample_signals_tied.
Proof.
  unfold descending, sample_signals_tied.
  repeat (constructor; [|repeat constructor; cbn; lra]). constructor.
Defined.

Lemma sort_desc_spec_witness :
  descending sample_signals_tied
  /\ (sort_desc sample_signals_tied ≡ₚ sample_signals_tied
      /\ descending (sort_desc sample_signals_tied)
      /\ (descending sample_signals_tied -> sort_desc sample_signals_tied = sample_signals_tied)).
Proof.
  split; [exact sample_signals_tied_descending | exact (sort_desc_spec sample_signals_tied)].
Defined.

Example sort_desc_stable :
  map ticker (sort_desc [mkSignal "BBB" 1 1; mkSignal "DDD" 0.5 1;
                         mkSignal "CCC" 1 1; mkSignal "AAA" 3 1])
  = ["AAA"; "BBB"; "CCC"; "DDD"]%string.
Proof. reflexivity. Qed.

(** X6. Whatever [build_signals] returns is in descending order of score,
    and holds the cached signals of the run and date when there are some,
    the signals computed from the active symbols otherwise. *)
Theorem build_signals_descending (cfg : StrategyConfig) (as_of : date) (w w' : World)
        (sigs : list Signal) :
  build_signals cfg as_of w = (Ok sigs, w') ->
  descending sigs
  /\ sigs ≡ₚ (if cache_hit w as_of
              then map signal_of_row (existing_signals (db w) (run_id (run w)) as_of)
              else scan_symbols cfg (db w) (run_id (run w))
                                (get_active_symbols (db w) (as_of_date (run w))) ∅).
Proof.
  unfold build_signals, cache_hit.
  destruct (existing_signals (db w) (run_id (run w)) as_of) as [|row rows].
  - destruct (_persist_signals _ _ _) as [pending|e]; [|discriminate].
    destruct (commit_signals _ _) as [db'|e]; [|discriminate].
    intros H. injection H as <- _.
    split; [apply sort_desc_descending | apply sort_desc_perm].
  - intros H. injection H as <- _.
    split; [apply (sort_desc_descending (map signal_of_row (row :: rows)))
           | apply (sort_desc_perm (map signal_of_row (row :: rows)))].
Qed.

Lemma build_signals_descending_witness :
  exists sigs w',
    build_signals default_strategy (as_of_date sample_run) (sample_world flat_prices)
    = (Ok sigs, w')
    /\ descending sigs
    /\ sigs ≡ₚ (if cache_hit (sample_world flat_prices) (as_of_date sample_run)
                then map signal_of_row
                         (existing_signals (db (sample_world flat_prices))
                                           (run_id (run (sample_world flat_prices)))
                                           (as_of_date sample_run))
                else scan_symbols default_strategy (db (sample_world flat_prices))
                                  (run_id (run (sample_world flat_prices)))
                                  (get_active_symbols (db (sample_world flat_prices))
                                                      (as_of_date (run (sample_world flat_prices))))
                                  ∅).
Proof.
  eexists. eexists. split; [vm_compute; reflexivity|].
  eapply (build_signals_descending default_strategy (as_of_date sample_run)
            (sample_world flat_prices)).
  vm_compute. reflexivity.
Defined.

(** ** Which symbols get a signal, and with what score *)

Lemma gather_factors_some (s : Store) (rid : string) (symbol_id : Z)
      (names : list string) :
  forall acc fv,
    gather_factors s rid symbol_id names acc = Some fv ->
    forall name,
      (In name names ->
       fv !! name = _get_factor s rid symbol_id name
       /\ _get_factor s rid symbol_id name <> None)
      /\ (~ In name names -> fv !! name = acc !! name).
Proof.
  induction names as [|n names IH]; intros acc fv H name.
  - cbn in H. inversion H; subst. split; [intros [] | reflexivity].
  - cbn [gather_factors] in H.
    destruct (_get_factor s rid symbol_id n) as [v|] eqn:En; [|discriminate].
    destruct (IH _ _ H name) as [Hin Hout].
    destruct (in_dec string_dec name names) as [Hn|Hn].
    + split; [intros _; exact (Hin Hn) | intros Hc; exfalso; apply Hc; right; exact Hn].
    + split.
      * intros [<-|Hc]; [|contradiction].
        rewrite (Hout Hn), lookup_insert_eq, En. split; [reflexivity | discriminate].
      * intros Hc. rewrite (Hout Hn). apply lookup_insert_ne.
        intros ->. apply Hc. left; reflexivity.
Qed.

Lemma gather_factors_none (s : Store) (rid : string) (symbol_id : Z)
      (names : list string) :
  forall acc,
    gather_factors s rid symbol_id names acc = None <->
    exists name, In name names /\ _get_factor s rid symbol_id name = None.
Proof.
  induction names as [|n names IH]; intros acc.
  - cbn. split; [discriminate | intros (name & [] & _)].
  - cbn [gather_factors].
    destruct (_get_factor s rid symbol_id n) as [v|] eqn:En.
    + rewrite IH. split.
      * intros (name & Hin & Hnone). exists name. split; [right; exact Hin | exact Hnone].
      * intros (name & [<-|Hin] & Hnone); [congruence|]. exists name. auto.
    + split; [intros _; exists n; split; [left; reflexivity | exact En] | reflexivity].
Qed.

Lemma fold_left_sum {A : Type} (g : A -> Q) (l : list A) (a : Q) :
  fold_left (fun acc x => acc + g x) l a == a + py_sum (map g l).
Proof.
  revert a. induction l as [|x l IH]; intros a.
  - unfold py_sum. cbn. ring.
  - cbn [fold_left map]. rewrite IH, py_sum_cons. ring.
Qed.

Lemma py_sum_ext {A : Type} (f g : A -> Q) (l : list A) :
  (forall a, In a l -> f a == g a) -> py_sum (map f l) == py_sum (map g l).
Proof.
  induction l as [|a l IH]; intros H; [reflexivity|].
  cbn [map]. rewrite !py_sum_cons, IH, (H a (or_introl eq_refl)); [reflexivity|].
  intros b Hb. apply H. right. exact Hb.
Qed.

Lemma compose_score_sum (cfg : StrategyConfig) (s : Store) (rid : string)
        (symbol_id : Z) (fv : gmap string Q) :
  gather_factors s rid symbol_id (map fst (factor_weights cfg)) ∅ = Some fv ->
  _compose_score cfg fv
  == py_sum (map (fun item => snd item * factor_or_zero s rid symbol_id (fst item))
                 (factor_weights cfg)).
Proof.
  intros Hg. unfold _compose_score.
  rewrite (fold_left_sum (fun item => snd item * default 0 (fv !! fst item))).
  rewrite Qplus_0_l. apply py_sum_ext. intros [name wt] Hin. cbn [fst snd].
  destruct (gather_factors_some _ _ _ _ _ _ Hg name) as [Hpresent _].
  destruct Hpresent as [Hv _]; [apply in_map_iff; exists (name, wt); auto|].
  unfold factor_or_zero. rewrite Hv. reflexivity.
Qed.

(** X7. When every configured factor has a stored value for the symbol, the
    composite score is the plain weighted sum of those values, each weight
    of the configuration times the stored value of its factor. *)
Theorem compose_score_weighted_sum (cfg : StrategyConfig) (s : Store) (rid : string)
        (symbol_id : Z) (fv : gmap string Q) :
  gather_factors s rid symbol_id (map fst (factor_weights cfg)) ∅ = Some fv ->
  _compose_score cfg fv
  == py_sum (map (fun item => snd item * factor_or_zero s rid symbol_id (fst item))
                 (factor_weights cfg)).
Proof. exact (compose_score_sum cfg s rid symbol_id fv). Qed.

Lemma compose_score_weighted_sum_witness :
  exists fv,
    gather_factors (sample_store []) "run-1" 1
                   (map fst (factor_weights default_strategy)) ∅ = Some fv
    /\ _compose_score default_strategy fv
       == py_sum (map (fun item => snd item * factor_or_zero (sample_store []) "run-1" 1
                                                             (fst item))
                      (factor_weights default_strategy)).
Proof.
  eexists. split; [vm_compute; reflexivity|].
  apply (compose_score_weighted_sum default_strategy (sample_store []) "run-1" 1).
  vm_compute. reflexivity.
Defined.

Lemma passes_liquidity_iff (cfg : StrategyConfig) (liquidity : option Q) :
  _passes_liquidity cfg liquidity = true
  <-> exists liq, liquidity = Some liq /\ median_traded_value_clp cfg <= liq.
Proof.
  unfold _passes_liquidity. destruct liquidity as [l|].
  - rewrite Qle_bool_iff. split; [intros H; exists l; auto | intros (l' & E & H)].
    inversion E; subst. exact H.
  - split; [discriminate | intros (l' & E & _); discriminate].
Qed.

Lemma qualifies_iff (cfg : StrategyConfig) (s : Store) (rid : string) (sym : Symbol) :
  qualifies cfg s rid sym
  <-> _passes_liquidity cfg (_latest_liquidity s rid (sym_id sym)) = true
      /\ gather_factors s rid (sym_id sym) (map fst (factor_weights cfg)) ∅ <> None.
Proof.
  unfold qualifies. rewrite passes_liquidity_iff, gather_factors_none.
  split; intros [Hl Hf]; (split; [exact Hl|]).
  - intros (name & Hin & Hnone). exact (Hf name Hin Hnone).
  - intros name Hin Hnone. apply Hf. exists name. auto.
Qed.

Lemma or_zero_eq (l : Q) : or_zero (Some l) == l.
Proof.
  unfold or_zero. destruct (Qeq_bool l 0) eqn:E; [|reflexivity].
  apply Qeq_bool_iff in E. symmetry. exact E.
Qed.

Lemma scan_symbols_sound (cfg : StrategyConfig) (s : Store) (rid : string)
      (syms : list Symbol) :
  forall seen sig,
    In sig (scan_symbols cfg s rid syms seen) ->
    exists sym liq,
      In sym syms /\ (sym_id sym ∉ seen)
      /\ ticker sig = sym_ticker sym
      /\ qualifies cfg s rid sym
      /\ _latest_liquidity s rid (sym_id sym) = Some liq
      /\ liquidity sig == liq
      /\ score sig
         == py_sum (map (fun item => snd item * factor_or_zero s rid (sym_id sym) (fst item))
                        (factor_weights cfg)).
Proof.
  induction syms as [|sym syms IH]; intros seen sig Hin; [contradiction|].
  cbn [scan_symbols] in Hin.
  assert (forall seen', seen ⊆ seen' ->
                        In sig (scan_symbols cfg s rid syms seen') ->
                        exists sym0 liq,
                          In sym0 (sym :: syms) /\ (sym_id sym0 ∉ seen)
                          /\ ticker sig = sym_ticker sym0
                          /\ qualifies cfg s rid sym0
                          /\ _latest_liquidity s rid (sym_id sym0) = Some liq
                          /\ liquidity sig == liq
                          /\ score sig
                             == py_sum (map (fun item =>
                                               snd item * factor_or_zero s rid (sym_id sym0)
                                                                         (fst item))
                                            (factor_weights cfg))) as Hrest.
  { intros seen' Hsub H. destruct (IH _ _ H) as (sym0 & liq & H0 & Hs & Hrest').
    exists sym0, liq. split; [right; exact H0|].
    split; [intros Hc; exact (Hs (Hsub _ Hc)) | exact Hrest']. }
  assert (seen ⊆ {[sym_id sym]} ∪ seen) as Hgrow by apply union_subseteq_r.
  destruct (bool_decide (sym_id sym ∈ seen)) eqn:Eseen;
    [apply (Hrest seen); [reflexivity | exact Hin]|].
  apply bool_decide_eq_false in Eseen.
  destruct (_passes_liquidity cfg (_latest_liquidity s rid (sym_id sym))) eqn:Epass;
    cbn [negb] in Hin; [|apply (Hrest ({[sym_id sym]} ∪ seen)); assumption].
  destruct (gather_factors s rid (sym_id sym) (map fst (factor_weights cfg)) ∅)
    as [fv|] eqn:Eg; [|apply (Hrest ({[sym_id sym]} ∪ seen)); assumption].
  destruct Hin as [<-|Hin]; [|apply (Hrest ({[sym_id sym]} ∪ seen)); assumption].
  destruct (proj1 (passes_liquidity_iff _ _) Epass) as (liq & El & Hle).
  exists sym, liq. cbn [ticker liquidity score].
  split; [left; reflexivity|]. split; [exact Eseen|]. split; [reflexivity|].
  split; [apply qualifies_iff; rewrite Epass, Eg; split; [reflexivity | discriminate]|].
  split; [exact El|]. split; [rewrite El; apply or_zero_eq|].
  apply compose_score_sum. exact Eg.
Qed.

Lemma scan_symbols_complete (cfg : StrategyConfig) (s : Store) (rid : string)
      (syms : list Symbol) :
  forall seen sym,
    NoDup (map sym_id syms) ->
    In sym syms -> sym_id sym ∉ seen -> qualifies cfg s rid sym ->
    In (sym_ticker sym) (map ticker (scan_symbols cfg s rid syms seen)).
Proof.
  induction syms as [|a syms IH]; intros seen sym Hnd Hin Hseen Hq; [contradiction|].
  cbn [map] in Hnd. apply NoDup_cons_In in Hnd as [Ha Hnd].
  cbn [scan_symbols].
  destruct Hin as [->|Hin].
  - rewrite (bool_decide_eq_false_2 _ Hseen).
    apply qualifies_iff in Hq as [Hpass Hg]. rewrite Hpass. cbn [negb].
    destruct (gather_factors _ _ _ _ _) as [fv|]; [|contradiction].
    left. reflexivity.
  - assert (sym_id sym <> sym_id a) as Hne.
    { intros E. apply Ha. rewrite <- E. apply in_map. exact Hin. }
    assert (forall seen', sym_id sym ∉ seen' ->
                          In (sym_ticker sym)
                             (map ticker (scan_symbols cfg s rid syms seen'))) as Hrest
        by (intros seen' Hs; apply IH; assumption).
    assert (sym_id sym ∉ {[sym_id a]} ∪ seen) as Hseen'.
    { intros Hc. apply elem_of_union in Hc as [Hc|Hc]; [|exact (Hseen Hc)].
      apply elem_of_singleton in Hc. exact (Hne Hc). }
    destruct (bool_decide (sym_id a ∈ seen)); [apply Hrest; exact Hseen|].
    destruct (negb _); [apply Hrest; exact Hseen'|].
    destruct (gather_factors _ _ _ _ _); [right|]; apply Hrest; exact Hseen'.
Qed.

(** X8. A signal is computed for exactly the scanned symbols that qualify:
    those whose latest liquidity metric of the run reaches the configured
    threshold and that have a stored value for every weighted factor (one
    missing factor excludes the symbol).  The signal carries the ticker,
    that liquidity, and the weighted sum of the factor values as score. *)
Theorem scan_symbols_selects (cfg : StrategyConfig) (s : Store) (rid : string)
        (syms : list Symbol) :
  NoDup (map sym_id syms) ->
  (forall t, In t (map ticker (scan_symbols cfg s rid syms ∅))
             <-> exists sym, In sym syms /\ sym_ticker sym = t /\ qualifies cfg s rid sym)
  /\ (forall sig, In sig (scan_symbols cfg s rid syms ∅) ->
                  exists sym liq,
                    In sym syms /\ ticker sig = sym_ticker sym
                    /\ _latest_liquidity s rid (sym_id sym) = Some liq
                    /\ median_traded_value_clp cfg <= liq
                    /\ liquidity sig == liq
                    /\ score sig
                       == py_sum (map (fun item =>
                                         snd item * factor_or_zero s rid (sym_id sym) (fst item))
                                      (factor_weights cfg))).
Proof.
  intros Hnd. split.
  - intros t. split.
    + intros Hin. apply in_map_iff in Hin as (sig & <- & Hsig).
      destruct (scan_symbols_sound _ _ _ _ _ _ Hsig)
        as (sym & liq & Hsym & _ & Ht & Hq & _).
      exists sym. auto.
    + intros (sym & Hsym & <- & Hq).
      apply scan_symbols_complete;
        [exact Hnd | exact Hsym | apply not_elem_of_empty | exact Hq].
  - intros sig Hsig.
    destruct (scan_symbols_sound _ _ _ _ _ _ Hsig)
      as (sym & liq & Hsym & _ & Ht & Hq & Hl & Hliq & Hscore).
    exists sym, liq. repeat split; auto.
    destruct Hq as [(liq' & El' & Hle) _]. rewrite Hl in El'. inversion El'; subst. exact Hle.
Qed.

Lemma scan_symbols_selects_witness :
  NoDup (map sym_id (symbols (sample_store [])))
  /\ ((forall t, In t (map ticker (scan_symbols default_strategy (sample_store []) "run-1"
                                                (symbols (sample_store [])) ∅))
                 <-> exists sym, In sym (symbols (sample_store []))
                                 /\ sym_ticker sym = t
                                 /\ qualifies default_strategy (sample_store []) "run-1" sym)
      /\ (forall sig, In sig (scan_symbols default_strategy (sample_store []) "run-1"
                                           (symbols (sample_store [])) ∅) ->
                      exists sym liq,
                        In sym (symbols (sample_store [])) /\ ticker sig = sym_ticker sym
                        /\ _latest_liquidity (sample_store []) "run-1" (sym_id sym) = Some liq
                        /\ median_traded_value_clp default_strategy <= liq
                        /\ liquidity sig == liq
                        /\ score sig
                           == py_sum (map (fun item =>
                                             snd item * factor_or_zero (sample_store []) "run-1"
                                                                       (sym_id sym) (fst item))
                                          (factor_weights default_strategy)))).
Proof.
  split; [apply NoDup_singleton|].
  apply (scan_symbols_selects default_strategy (sample_store []) "run-1"
           (symbols (sample_store []))).
  apply NoDup_singleton.
Defined.

(** ** The weights the builder gives *)

Lemma py_sum_nonneg (l : list Q) : (forall x, In x l -> 0 <= x) -> 0 <= py_sum l.
Proof.
  induction l as [|a l IH]; intros H; [unfold py_sum; cbn; lra|].
  rewrite py_sum_cons.
  pose proof (H a (or_introl eq_refl)).
  assert (0 <= py_sum l) by (apply IH; intros x Hx; apply H; right; exact Hx). lra.
Qed.

Lemma elem_le_py_sum (l : list Q) (x : Q) :
  (forall y, In y l -> 0 <= y) -> In x l -> x <= py_sum l.
Proof.
  induction l as [|a l IH]; intros H Hin; [contradiction|].
  rewrite py_sum_cons.
  pose proof (H a (or_introl eq_refl)).
  assert (forall y, In y l -> 0 <= y) as Hl by (intros y Hy; apply H; right; exact Hy).
  pose proof (py_sum_nonneg l Hl).
  destruct Hin as [->|Hin]; [lra|]. specialize (IH Hl Hin). lra.
Qed.

Lemma py_prefix_In {A : Type} (l : list A) (n : Z) (x : A) :
  In x (py_prefix l n) -> In x l.
Proof.
  unfold py_prefix. intros H.
  destruct (n <? 0)%Z;
    [rewrite <- (firstn_skipn (Z.to_nat (Z.of_nat (length l) + n)) l)
    | rewrite <- (firstn_skipn (Z.to_nat n) l)];
    apply in_or_app; left; exact H.
Qed.

Lemma py_prefix_length {A : Type} (l : list A) (n : Z) :
  (0 <= n)%Z -> (Z.of_nat (length (py_prefix l n)) <= n)%Z.
Proof.
  intros Hn. unfold py_prefix.
  assert ((n <? 0)%Z = false) as -> by (apply Z.ltb_ge; lia).
  rewrite length_firstn. lia.
Qed.

Lemma liquidity_cap_values (cfg : StrategyConfig) (sig : Signal) :
  (liquidity sig <= 0 /\ _liquidity_cap cfg sig = 0)
  \/ (0 < liquidity sig /\ _liquidity_cap cfg sig = max_weight_pct_of_adv cfg / 100).
Proof.
  unfold _liquidity_cap. destruct (Qle_bool (liquidity sig) 0) eqn:E.
  - left. split; [apply Qle_bool_iff; exact E | reflexivity].
  - right. split; [|reflexivity].
    apply Qnot_le_lt. intros H. apply Qle_bool_iff in H. congruence.
Qed.

(** The capped weights, for scores that are not negative and a cap that is
    not negative. *)
Lemma capped_positions_nonneg (cfg : StrategyConfig) (selected : list Signal)
      (c : PortfolioPosition) :
  (forall sig, In sig selected -> 0 <= score sig) ->
  0 <= max_weight_pct_of_adv cfg ->
  In c (capped_positions cfg selected) ->
  0 <= weight c
  /\ weight c <= liquidity_share c
  /\ (liquidity_share c == 0 -> weight c == 0).
Proof.
  intros Hscore Hcap Hin. unfold capped_positions in Hin.
  apply in_map_iff in Hin as (sig & <- & Hsig). cbn [weight liquidity_share].
  assert (0 <= py_sum (map score selected)) as Htot.
  { apply py_sum_nonneg. intros x Hx. apply in_map_iff in Hx as (sg & <- & Hsg). auto. }
  assert (0 < inject_Z (Z.of_nat (length selected))) as Hn.
  { destruct selected; [contradiction|]. unfold Qlt, inject_Z. cbn. lia. }
  set (w := if Qeq_bool (py_sum (map score selected)) 0
            then 1 / inject_Z (Z.of_nat (length selected))
            else score sig / py_sum (map score selected)).
  assert (0 <= w) as Hw.
  { unfold w. destruct (Qeq_bool (py_sum (map score selected)) 0) eqn:E.
    - apply Qlt_le_weak. apply Qlt_shift_div_l; [exact Hn | lra].
    - apply Qeq_bool_neq in E.
      apply Qle_shift_div_l; [lra|]. specialize (Hscore sig Hsig). lra. }
  assert (0 <= _liquidity_cap cfg sig) as Hc.
  { destruct (liquidity_cap_values cfg sig) as [[_ ->]|[_ ->]]; [lra|].
    apply Qle_shift_div_l; lra. }
  split; [apply Q.min_glb; assumption|].
  split; [apply Q.le_min_r|].
  intros Hz. rewrite Q.min_r; [exact Hz | rewrite Hz; exact Hw].
Qed.

(** X9. When no selected score is negative and the configured cap is not
    negative, every weight [build] returns lies between 0 and 1, and a
    position whose liquidity cap is 0, as for a symbol without positive
    liquidity, has weight 0. *)
Theorem build_weights_unit_interval (cfg : StrategyConfig) (sigs : list Signal)
        (top_n : Z) (p : PortfolioPosition) :
  (forall sig, In sig sigs -> 0 <= score sig) ->
  0 <= max_weight_pct_of_adv cfg ->
  In p (build_positions cfg sigs top_n) ->
  0 <= weight p <= 1 /\ (liquidity_share p == 0 -> weight p == 0).
Proof.
  intros Hscore Hcap Hin. unfold build_positions in Hin.
  destruct (py_prefix sigs top_n) as [|sg sel] eqn:Esel; [contradiction|].
  assert (forall c, In c (capped_positions cfg (sg :: sel)) ->
                    0 <= weight c /\ weight c <= liquidity_share c
                    /\ (liquidity_share c == 0 -> weight c == 0)) as Hcapped.
  { intros c Hc. apply (capped_positions_nonneg cfg (sg :: sel)); [|exact Hcap | exact Hc].
    intros sig Hsig. apply Hscore. apply (py_prefix_In sigs top_n). rewrite Esel. exact Hsig. }
  assert (forall c, In c (capped_positions cfg (sg :: sel)) ->
                    weight c <= total_weight (capped_positions cfg (sg :: sel))) as Hle.
  { intros c Hc. unfold total_weight. apply elem_le_py_sum; [|apply in_map; exact Hc].
    intros y Hy. apply in_map_iff in Hy as (c' & <- & Hc'). apply Hcapped. exact Hc'. }
  unfold renormalize in Hin.
  destruct (Qltb 0 (total_weight (capped_positions cfg (sg :: sel)))) eqn:Et.
  - apply Qltb_lt in Et. apply in_map_iff in Hin as (c & <- & Hc).
    cbn [weight liquidity_share].
    destruct (Hcapped c Hc) as (H0 & _ & Hz). specialize (Hle c Hc).
    split; [split|].
    + apply Qle_shift_div_l; lra.
    + apply Qle_shift_div_r; lra.
    + intros Hs. rewrite (Hz Hs). field. lra.
  - assert (~ 0 < total_weight (capped_positions cfg (sg :: sel))) as Hnot.
    { intros H. apply Qltb_lt in H. congruence. }
    destruct (Hcapped p Hin) as (H0 & _ & Hz). specialize (Hle p Hin).
    split; [lra | exact Hz].
Qed.

Lemma build_weights_unit_interval_witness :
  (forall sig, In sig sample_signals_tied -> 0 <= score sig)
  /\ 0 <= max_weight_pct_of_adv default_strategy
  /\ In (mkPosition "AAA" (Qmin (3 / (0 + 3 + 1 + 1 + 0.5)) (5 / 100)
                           / (0 + Qmin (3 / (0 + 3 + 1 + 1 + 0.5)) (5 / 100)
                              + Qmin (1 / (0 + 3 + 1 + 1 + 0.5)) (5 / 100)
                              + Qmin (1 / (0 + 3 + 1 + 1 + 0.5)) (5 / 100)
                              + Qmin (0.5 / (0 + 3 + 1 + 1 + 0.5)) (5 / 100)))
                        (5 / 100))
        (build_positions default_strategy sample_signals_tied 15)
  /\ forall p, In p (build_positions default_strategy sample_signals_tied 15) ->
               0 <= weight p <= 1 /\ (liquidity_share p == 0 -> weight p == 0).
Proof.
  assert (forall sig, In sig sample_signals_tied -> 0 <= score sig) as Hs.
  { intros sig [<-|[<-|[<-|[<-|[]]]]]; cbn; lra. }
  assert (0 <= max_weight_pct_of_adv default_strategy) as Hc by (cbn; lra).
  split; [exact Hs|]. split; [exact Hc|]. split; [left; reflexivity|].
  intros p Hp.
  exact (build_weights_unit_interval default_strategy sample_signals_tied 15 p Hs Hc Hp).
Defined.

Lemma py_sum_le_bound (l : list Q) (b : Q) :
  (forall x, In x l -> x <= b) -> py_sum l <= inject_Z (Z.of_nat (length l)) * b.
Proof.
  induction l as [|a l IH]; intros H.
  - unfold py_sum. cbn [fold_left length Z.of_nat]. change (inject_Z 0) with 0.
    rewrite Qmult_0_l. apply Qle_refl.
  - rewrite py_sum_cons. cbn [length].
    rewrite Nat2Z.inj_succ, <- Z.add_1_r, inject_Z_plus.
    pose proof (H a (or_introl eq_refl)).
    assert (py_sum l <= inject_Z (Z.of_nat (length l)) * b)
      by (apply IH; intros x Hx; apply H; right; exact Hx).
    assert ((inject_Z (Z.of_nat (length l)) + inject_Z 1) * b
            == inject_Z (Z.of_nat (length l)) * b + b) as ->
        by (change (inject_Z 1) with 1; ring).
    lra.
Qed.

(** X10. The capped weights of at most [top_n] positions add up to less
    than 1 whenever [top_n] times the cap is below 1, as with the default 5%
    cap and 15 positions.  The renormalization that follows then raises
    every positive weight: a position that sat at its liquidity cap ends
    above it. *)
Theorem final_weights_exceed_cap (cfg : StrategyConfig) (sigs : list Signal)
        (top_n : Z) :
  0 < max_weight_pct_of_adv cfg ->
  (0 <= top_n)%Z ->
  inject_Z top_n * (max_weight_pct_of_adv cfg / 100) < 1 ->
  let capped := capped_positions cfg (py_prefix sigs top_n) in
  total_weight capped < 1
  /\ (0 < total_weight capped ->
      Forall2 (fun c p =>
                 pos_ticker p = pos_ticker c
                 /\ liquidity_share p = liquidity_share c
                 /\ weight p == weight c / total_weight capped
                 /\ (0 < weight c -> weight c < weight p)
                 /\ (0 < weight c -> weight c == liquidity_share c ->
                     liquidity_share p < weight p))
              capped (build_positions cfg sigs top_n)).
Proof.
  intros Hcap Hn Hbound. cbv zeta.
  set (cap := max_weight_pct_of_adv cfg / 100) in *.
  assert (0 < cap) as Hcap' by (unfold cap; apply Qlt_shift_div_l; lra).
  pose proof (py_prefix_length sigs top_n Hn) as Hlen.
  assert (build_positions cfg sigs top_n
          = renormalize (capped_positions cfg (py_prefix sigs top_n))) as ->
      by (unfold build_positions; destruct (py_prefix sigs top_n); reflexivity).
  revert Hlen. generalize (py_prefix sigs top_n). intros sel Hlen.
  assert (total_weight (capped_positions cfg sel) < 1) as Htot.
  { eapply Qle_lt_trans; [|exact Hbound].
    eapply Qle_trans.
    - unfold total_weight. apply (py_sum_le_bound _ cap).
      intros x Hx. apply in_map_iff in Hx as (c & <- & Hc).
      unfold capped_positions in Hc. apply in_map_iff in Hc as (sig & <- & _).
      cbn [weight]. eapply Qle_trans; [apply Q.le_min_r|].
      destruct (liquidity_cap_values cfg sig) as [[_ ->]|[_ ->]]; [lra | unfold cap; lra].
    - rewrite length_map. unfold capped_positions. rewrite length_map.
      apply Qmult_le_compat_r; [|lra].
      rewrite <- Zle_Qle. exact Hlen. }
  split; [exact Htot|]. intros Hpos.
  unfold renormalize. rewrite (proj2 (Qltb_lt _ _) Hpos).
  revert Htot Hpos. generalize (total_weight (capped_positions cfg sel)).
  generalize (capped_positions cfg sel). intros capped t Ht1 Ht0.
  induction capped as [|c capped IH]; [constructor|].
  cbn [map]. constructor; [|exact IH]. cbn [pos_ticker liquidity_share weight].
  assert (0 < weight c -> weight c < weight c / t) as Hgrow.
  { intros Hw. apply Qlt_shift_div_l; [exact Ht0|]. nra. }
  split; [reflexivity|]. split; [reflexivity|]. split; [reflexivity|].
  split; [exact Hgrow|].
  intros Hw Heq. rewrite <- Heq. apply Hgrow. exact Hw.
Qed.

Lemma final_weights_exceed_cap_witness :
  0 < max_weight_pct_of_adv default_strategy
  /\ (0 <= 15)%Z
  /\ inject_Z 15 * (max_weight_pct_of_adv default_strategy / 100) < 1
  /\ (let capped := capped_positions default_strategy (py_prefix sample_signals_tied 15) in
      total_weight capped < 1
      /\ (0 < total_weight capped ->
          Forall2 (fun c p =>
                     pos_ticker p = pos_ticker c
                     /\ liquidity_share p = liquidity_share c
                     /\ weight p == weight c / total_weight capped
                     /\ (0 < weight c -> weight c < weight p)
                     /\ (0 < weight c -> weight c == liquidity_share c ->
                         liquidity_share p < weight p))
                  capped (build_positions default_strategy sample_signals_tied 15))).
Proof.
  split; [cbn; lra|]. split; [lia|]. split; [vm_compute; reflexivity|].
  apply (final_weights_exceed_cap default_strategy sample_signals_tied 15);
    [cbn; lra | lia | vm_compute; reflexivity].
Defined.

Example final_weights_above_cap :
  Forall2 Qeq (map weight (build_positions default_strategy sample_signals_tied 15))
          [0.25; 0.25; 0.25; 0.25]
  /\ map liquidity_share (build_positions default_strategy sample_signals_tied 15)
     = [5 / 100; 5 / 100; 5 / 100; 5 / 100].
Proof. split; [repeat constructor; vm_compute; reflexivity | reflexivity]. Qed.

(** ** What the builder persists *)

Lemma position_rows_ok (s : Store) (r : RunContext) (ps : list PortfolioPosition) :
  NoDup (map sym_ticker (symbols s)) ->
  (forall p, In p ps -> In (pos_ticker p) (map sym_ticker (symbols s))) ->
  exists pending, position_rows s r ps = Ok pending
                  /\ Forall2 (position_row_of s r) ps pending.
Proof.
  intros Hnd. induction ps as [|p ps IH]; intros Hin.
  - exists []. split; [reflexivity | constructor].
  - destruct IH as (pending & Hp & Hrows); [intros x Hx; apply Hin; right; exact Hx|].
    destruct (proj1 (in_map_iff _ _ _) (Hin p (or_introl eq_refl))) as (sym & Ht & Hsym).
    pose proof (symbol_by_ticker_stored s sym Hnd Hsym) as Hone. rewrite Ht in Hone.
    cbn [position_rows]. rewrite Hone. cbn [rbind]. rewrite Hp. cbn [rbind].
    eexists. split; [reflexivity|].
    constructor; [|exact Hrows]. exists sym. auto.
Qed.

Lemma position_keys_distinct (s : Store) (r : RunContext) (ps : list PortfolioPosition)
      (pending : list PortfolioPositionRecord) :
  NoDup (map sym_id (symbols s)) ->
  Forall2 (position_row_of s r) ps pending ->
  NoDup (map pos_ticker ps) ->
  NoDup (map position_key pending)
  /\ forall rec, In rec pending ->
                 pp_run_id rec = run_id r /\ pp_rebalance_date rec = as_of_date r.
Proof.
  intros Hids Hrows.
  assert (forall rec, In rec pending ->
                      exists p, In p ps /\ position_row_of s r p rec) as Hback.
  { induction Hrows as [|p rec ps pending Hrow Hrows IH]; [intros rec []|].
    intros rec0 [<-|Hin].
    - exists p. split; [left; reflexivity | exact Hrow].
    - destruct (IH rec0 Hin) as (p0 & Hp0 & Hr0). exists p0. split; [right|]; assumption. }
  intros Hnd. split.
  - clear Hback. induction Hrows as [|p rec ps pending Hrow Hrows IH]; [constructor|].
    cbn [map] in *. apply NoDup_cons_In in Hnd as [Hp Hnd].
    apply NoDup_cons_In. split; [|apply IH; exact Hnd].
    intros Hk. apply in_map_iff in Hk as (rec' & Ek & Hrec').
    assert (exists p', In p' ps /\ position_row_of s r p' rec') as (p' & Hp' & Hrow').
    { clear - Hrows Hrec'. induction Hrows as [|q rc qs rcs Hq Hrs IH]; [contradiction|].
      destruct Hrec' as [<-|Hin].
      - exists q. split; [left; reflexivity | exact Hq].
      - destruct (IH Hin) as (q0 & Hq0 & Hr0). exists q0. split; [right|]; assumption. }
    destruct Hrow' as (sym' & Hs' & Ht' & ->). destruct Hrow as (sym & Hs & Ht & ->).
    unfold position_key in Ek. cbn in Ek. inversion Ek as [Eid].
    assert (sym' = sym) as -> by (apply (NoDup_map_injective sym_id (symbols s)); auto).
    apply Hp. rewrite <- Ht, Ht'. apply in_map. exact Hp'.
  - intros rec Hrec. destruct (Hback rec Hrec) as (p & _ & sym & _ & _ & ->).
    split; reflexivity.
Qed.

Lemma capped_tickers (cfg : StrategyConfig) (selected : list Signal) :
  map pos_ticker (renormalize (capped_positions cfg selected)) = map ticker selected.
Proof.
  rewrite renormalize_tickers. unfold capped_positions. rewrite map_map. reflexivity.
Qed.

(** X11. In a database with unique tickers and symbol ids, when the
    selected signals carry distinct stored tickers and no position is stored
    yet for the run and its as-of date, [build] succeeds and stores one row
    per returned position, in order, under the run and its as-of date, with
    the returned weight and the liquidity cap; nothing else changes.  An
    empty selection stores no row. *)
Theorem build_persists (cfg : StrategyConfig) (sigs : list Signal) (top_n : Z)
        (w : World) :
  NoDup (map sym_ticker (symbols (db w))) ->
  NoDup (map sym_id (symbols (db w))) ->
  NoDup (map ticker (py_prefix sigs top_n)) ->
  (forall sig, In sig (py_prefix sigs top_n) ->
               In (ticker sig) (map sym_ticker (symbols (db w)))) ->
  (forall rec, In rec (portfolio_positions (db w)) ->
               ~ (pp_run_id rec = run_id (run w)
                  /\ pp_rebalance_date rec = as_of_date (run w))) ->
  exists rows w',
    build cfg sigs top_n w = (Ok (build_positions cfg sigs top_n), w')
    /\ run w' = run w
    /\ db w' = set_positions (db w) (portfolio_positions (db w) ++ rows)
    /\ Forall2 (position_row_of (db w) (run w)) (build_positions cfg sigs top_n) rows.
Proof.
  intros Htick Hids Hnd Hknown Hfree.
  unfold build, build_positions.
  destruct (py_prefix sigs top_n) as [|sg sel] eqn:Esel.
  - exists [], w. split; [reflexivity|]. split; [reflexivity|].
    split; [|constructor]. rewrite app_nil_r. destruct (db w); reflexivity.
  - set (ps := renormalize (capped_positions cfg (sg :: sel))).
    assert (map pos_ticker ps = map ticker (sg :: sel)) as Htk by apply capped_tickers.
    destruct (position_rows_ok (db w) (run w) ps Htick) as (pending & Hrows & Hrel).
    { intros p Hp. apply (in_map pos_ticker) in Hp. rewrite Htk in Hp.
      apply in_map_iff in Hp as (sig & <- & Hsig). apply Hknown. exact Hsig. }
    destruct (position_keys_distinct _ _ _ _ Hids Hrel) as [Hkeys Hrun];
      [rewrite Htk; exact Hnd|].
    exists pending, (mkWorld (run w)
                             (set_positions (db w) (portfolio_positions (db w) ++ pending))).
    split; [|split; [reflexivity | split; [reflexivity | exact Hrel]]].
    unfold bind, _persist_positions, ret.
    destruct ps as [|p ps'] eqn:Eps; [discriminate Htk|].
    rewrite Hrows.
    rewrite (unique_insert_fresh key_eqb position_key pending key_eqb_eq); [reflexivity| |].
    + exact Hkeys.
    + intros rec Hrec Hstored. apply in_map_iff in Hstored as (rec0 & Ek & Hrec0).
      destruct (Hrun rec Hrec) as [Hr Hd].
      unfold position_key in Ek. inversion Ek as [[E1 E2 E3]].
      apply (Hfree rec0 Hrec0). split; congruence.
Qed.

Lemma build_persists_witness :
  NoDup (map sym_ticker (symbols (db (sample_world []))))
  /\ NoDup (map sym_id (symbols (db (sample_world []))))
  /\ NoDup (map ticker (py_prefix [mkSignal "AAA" 1 50000000] 15))
  /\ (forall sig, In sig (py_prefix [mkSignal "AAA" 1 50000000] 15) ->
                  In (ticker sig) (map sym_ticker (symbols (db (sample_world [])))))
  /\ (forall rec, In rec (portfolio_positions (db (sample_world []))) ->
                  ~ (pp_run_id rec = run_id (run (sample_world []))
                     /\ pp_rebalance_date rec = as_of_date (run (sample_world []))))
  /\ exists rows w',
      build default_strategy [mkSignal "AAA" 1 50000000] 15 (sample_world [])
      = (Ok (build_positions default_strategy [mkSignal "AAA" 1 50000000] 15), w')
      /\ run w' = run (sample_world [])
      /\ db w' = set_positions (db (sample_world []))
                               (portfolio_positions (db (sample_world [])) ++ rows)
      /\ Forall2 (position_row_of (db (sample_world [])) (run (sample_world [])))
                 (build_positions default_strategy [mkSignal "AAA" 1 50000000] 15) rows.
Proof.
  assert (NoDup (map ticker (py_prefix [mkSignal "AAA" 1 50000000] 15))) as H3
      by apply NoDup_singleton.
  assert (forall sig, In sig (py_prefix [mkSignal "AAA" 1 50000000] 15) ->
                      In (ticker sig) (map sym_ticker (symbols (db (sample_world [])))))
    as H4 by (intros sig [<-|[]]; left; reflexivity).
  assert (forall rec, In rec (portfolio_positions (db (sample_world []))) ->
                      ~ (pp_run_id rec = run_id (run (sample_world []))
                         /\ pp_rebalance_date rec = as_of_date (run (sample_world []))))
    as H5 by (intros rec []).
  split; [apply NoDup_singleton|]. split; [apply NoDup_singleton|].
  split; [exact H3|]. split; [exact H4|]. split; [exact H5|].
  exact (build_persists default_strategy [mkSignal "AAA" 1 50000000] 15 (sample_world [])
           (NoDup_singleton _) (NoDup_singleton _) H3 H4 H5).
Defined.

Lemma position_rows_positions_table (s : Store) (rows : list PortfolioPositionRecord)
      (r : RunContext) (ps : list PortfolioPosition) :
  position_rows (set_positions s rows) r ps = position_rows s r ps.
Proof.
  induction ps as [|p ps IH]; [reflexivity|].
  cbn [position_rows]. rewrite IH. reflexivity.
Qed.

Lemma key_eqb_refl (k : string * Z * date) : key_eqb k k = true.
Proof. apply key_eqb_eq. reflexivity. Qed.

(** X12. [build] is not repeatable: once it has returned a non-empty
    portfolio for a run and date, the same call made again raises
    [IntegrityError] on the unique constraint of the positions table, and
    stores nothing more. *)
Theorem build_twice_raises (cfg : StrategyConfig) (sigs : list Signal) (top_n : Z)
        (w w1 : World) (p : PortfolioPosition) (ps : list PortfolioPosition) :
  build cfg sigs top_n w = (Ok (p :: ps), w1) ->
  build cfg sigs top_n w1 = (Raise IntegrityError, w1).
Proof.
  unfold build. destruct (py_prefix sigs top_n) as [|sg sel]; [discriminate|].
  unfold bind, _persist_positions, ret.
  destruct (renormalize (capped_positions cfg (sg :: sel))) as [|q qs] eqn:Eps;
    [discriminate|].
  destruct (position_rows (db w) (run w) (q :: qs)) as [pending|e] eqn:Erows;
    [|discriminate].
  destruct (unique_insert _ _ _ pending) eqn:Eu; [|discriminate].
  intros H. injection H as _ _ <-. cbn [db run].
  rewrite position_rows_positions_table, Erows.
  cbn [portfolio_positions set_positions].
  destruct pending as [|rec pending].
  { cbn [position_rows] in Erows.
    destruct (symbol_by_ticker (db w) (pos_ticker q)); [|discriminate].
    cbn [rbind] in Erows. destruct (position_rows (db w) (run w) qs); discriminate. }
  cbn [unique_insert].
  assert (existsb (key_eqb (position_key rec))
                  (map position_key (portfolio_positions (db w) ++ rec :: pending)) = true)
    as ->; [|reflexivity].
  apply existsb_exists. exists (position_key rec). split; [|apply key_eqb_refl].
  apply in_map, in_or_app. right. left. reflexivity.
Qed.

Lemma build_twice_raises_witness :
  exists p ps w1,
    build default_strategy [mkSignal "AAA" 1 50000000] 15 (sample_world [])
    = (Ok (p :: ps), w1)
    /\ build default_strategy [mkSignal "AAA" 1 50000000] 15 w1
       = (Raise IntegrityError, w1).
Proof.
  eexists. eexists. eexists.
  assert (forall p ps w1,
             build default_strategy [mkSignal "AAA" 1 50000000] 15 (sample_world [])
             = (Ok (p :: ps), w1) ->
             build default_strategy [mkSignal "AAA" 1 50000000] 15 (sample_world [])
             = (Ok (p :: ps), w1)
             /\ build default_strategy [mkSignal "AAA" 1 50000000] 15 w1
                = (Raise IntegrityError, w1)) as H.
  { intros p ps w1 E. split; [exact E|].
    exact (build_twice_raises default_strategy [mkSignal "AAA" 1 50000000] 15
             (sample_world []) w1 p ps E). }
  apply H. vm_compute. reflexivity.
Defined.

Lemma symbol_by_ticker_unknown (s : Store) (t : string) :
  ~ In t (map sym_ticker (symbols s)) -> symbol_by_ticker s t = Raise NoResultFound.
Proof.
  intros Hn. unfold symbol_by_ticker.
  destruct (List.filter _ (symbols s)) as [|sym l] eqn:E; [reflexivity|].
  exfalso. apply Hn.
  assert (In sym (List.filter (fun sym => String.eqb (sym_ticker sym) t) (symbols s)))
    as Hin by (rewrite E; left; reflexivity).
  apply filter_In in Hin as [Hin Ht]. apply String.eqb_eq in Ht. subst t.
  apply in_map. exact Hin.
Qed.

Lemma position_rows_unknown (s : Store) (r : RunContext) (ps : list PortfolioPosition) :
  NoDup (map sym_ticker (symbols s)) ->
  (exists p, In p ps /\ ~ In (pos_ticker p) (map sym_ticker (symbols s))) ->
  position_rows s r ps = Raise NoResultFound.
Proof.
  intros Hnd. induction ps as [|q ps IH]; intros (p & Hp & Hun); [contradiction|].
  cbn [position_rows].
  destruct (in_dec string_dec (pos_ticker q) (map sym_ticker (symbols s))) as [Hq|Hq].
  - apply in_map_iff in Hq as (sym & Ht & Hsym).
    pose proof (symbol_by_ticker_stored s sym Hnd Hsym) as Hone. rewrite Ht in Hone.
    rewrite Hone. cbn [rbind].
    rewrite IH; [reflexivity|].
    destruct Hp as [->|Hp]; [|exists p; auto].
    exfalso. apply Hun. rewrite <- Ht. apply in_map. exact Hsym.
  - rewrite (symbol_by_ticker_unknown s _ Hq). reflexivity.
Qed.

(** X13. With unique tickers in the database, a selected signal whose
    ticker is not stored makes [build] raise [NoResultFound]; no position row
    is stored, not even for the signals whose ticker is known. *)
Theorem build_unknown_ticker (cfg : StrategyConfig) (sigs : list Signal) (top_n : Z)
        (w : World) :
  NoDup (map sym_ticker (symbols (db w))) ->
  (exists sig, In sig (py_prefix sigs top_n)
               /\ ~ In (ticker sig) (map sym_ticker (symbols (db w)))) ->
  build cfg sigs top_n w = (Raise NoResultFound, w).
Proof.
  intros Hnd (sig & Hsig & Hun). unfold build.
  destruct (py_prefix sigs top_n) as [|sg sel] eqn:Esel; [contradiction|].
  pose proof (capped_tickers cfg (sg :: sel)) as Htk.
  unfold bind, _persist_positions.
  destruct (renormalize (capped_positions cfg (sg :: sel))) as [|q qs] eqn:Eps;
    [discriminate Htk|].
  rewrite (position_rows_unknown (db w) (run w) (q :: qs) Hnd); [reflexivity|].
  apply (in_map ticker) in Hsig. rewrite <- Htk in Hsig.
  apply in_map_iff in Hsig as (p & Hp & Hin). exists p. split; [exact Hin|].
  rewrite Hp. exact Hun.
Qed.

Lemma build_unknown_ticker_witness :
  NoDup (map sym_ticker (symbols (db (sample_world []))))
  /\ (exists sig, In sig (py_prefix sample_signals_unknown 15)
                  /\ ~ In (ticker sig) (map sym_ticker (symbols (db (sample_world [])))))
  /\ build default_strategy sample_signals_unknown 15 (sample_world [])
     = (Raise NoResultFound, sample_world []).
Proof.
  assert (exists sig, In sig (py_prefix sample_signals_unknown 15)
                      /\ ~ In (ticker sig) (map sym_ticker (symbols (db (sample_world [])))))
    as H.
  { exists (mkSignal "ZZZ" 1 100000000). split; [right; left; reflexivity|].
    intros [E|[]]. discriminate E. }
  split; [apply NoDup_singleton|]. split; [exact H|].
  exact (build_unknown_ticker default_strategy sample_signals_unknown 15 (sample_world [])
           (NoDup_singleton _) H).
Defined.

(** ** What a backtest writes and returns *)

Lemma set_tables_same (s : Store) :
  set_positions (set_signals s (signals s)) (portfolio_positions s) = s.
Proof. destruct s; reflexivity. Qed.

(** A period writes to the signals and the positions tables only. *)
Lemma rebalance_frame (cfg : StrategyConfig) (d : date) (w : World) :
  exists sigs_rows pos_rows,
    db (snd (rebalance cfg d w)) = set_positions (set_signals (db w) sigs_rows) pos_rows
    /\ run (snd (rebalance cfg d w)) = mkRun (run_id (run w)) d.
Proof.
  unfold rebalance, bind.
  assert (forall w0, exists rows,
               db (snd (build_signals cfg d w0)) = set_signals (db w0) rows
               /\ run (snd (build_signals cfg d w0)) = run w0) as Hsig.
  { intros w0. unfold build_signals.
    destruct (existing_signals _ _ _);
      [|exists (signals (db w0)); rewrite set_signals_same; split; reflexivity].
    destruct (_persist_signals _ _ _);
      [|exists (signals (db w0)); rewrite set_signals_same; split; reflexivity].
    unfold commit_signals. destruct (unique_insert _ _ _ _);
      [eexists; split; reflexivity
      |exists (signals (db w0)); rewrite set_signals_same; split; reflexivity]. }
  assert (forall sigs w0, exists rows,
               db (snd (build cfg sigs 15 w0)) = set_positions (db w0) rows
               /\ run (snd (build cfg sigs 15 w0)) = run w0) as Hbuild.
  { intros sigs w0.
    assert (set_positions (db w0) (portfolio_positions (db w0)) = db w0) as Hsame
        by (destruct (db w0); reflexivity).
    unfold build.
    destruct (py_prefix sigs 15);
      [exists (portfolio_positions (db w0)); rewrite Hsame; split; reflexivity|].
    unfold bind, _persist_positions, ret.
    destruct (renormalize _);
      [exists (portfolio_positions (db w0)); rewrite Hsame; split; reflexivity|].
    destruct (position_rows _ _ _);
      [|exists (portfolio_positions (db w0)); rewrite Hsame; split; reflexivity].
    destruct (unique_insert _ _ _ _);
      [eexists; split; reflexivity
      |exists (portfolio_positions (db w0)); rewrite Hsame; split; reflexivity]. }
  destruct (Hsig (set_as_of_date w d)) as (srows & Hdb & Hrun).
  destruct (build_signals cfg d (set_as_of_date w d)) as [[sigs|e] w1]; cbn [snd] in *.
  - destruct (Hbuild sigs w1) as (prows & Hdb2 & Hrun2).
    exists srows, prows. rewrite Hdb2, Hdb, Hrun2, Hrun. split; reflexivity.
  - exists srows, (portfolio_positions (db w)). rewrite Hdb, Hrun. cbn [db set_as_of_date].
    split; [destruct (db w)|]; reflexivity.
Qed.

Lemma removelast_cons2 {A : Type} (a b : A) (l : list A) :
  removelast (a :: b :: l) = a :: removelast (b :: l).
Proof. reflexivity. Qed.

Lemma last_cons_default {A : Type} (l : list A) :
  forall a d, List.last (a :: l) d = List.last l a.
Proof.
  induction l as [|b l IH]; intros a d; [reflexivity|].
  change (List.last (a :: b :: l) d) with (List.last (b :: l) d).
  rewrite !IH. reflexivity.
Qed.

Lemma walk_forward_appends (cfg : StrategyConfig) (schedule : list date) :
  forall capital points w result w',
    walk_forward cfg schedule capital points w = (Ok result, w') ->
    (exists added, result = (points ++ added)%list /\ map fst added = tl schedule)
    /\ (exists sigs_rows pos_rows,
           db w' = set_positions (set_signals (db w) sigs_rows) pos_rows)
    /\ run_id (run w') = run_id (run w)
    /\ as_of_date (run w') = last_rebalance schedule (as_of_date (run w)).
Proof.
  induction schedule as [|d1 [|d2 rest] IH]; intros capital points w result w' H.
  - inversion H; subst. split; [exists []; rewrite app_nil_r; auto|].
    split; [exists (signals (db w')), (portfolio_positions (db w'));
            rewrite set_tables_same; reflexivity|]. auto.
  - inversion H; subst. split; [exists []; rewrite app_nil_r; auto|].
    split; [exists (signals (db w')), (portfolio_positions (db w'));
            rewrite set_tables_same; reflexivity|]. auto.
  - rewrite walk_forward_step in H.
    destruct (rebalance_frame cfg d1 w) as (s1 & p1 & Hdb1 & Hrun1).
    destruct (rebalance cfg d1 w) as [[portfolio|e] w1]; [|discriminate].
    cbn [snd] in Hdb1, Hrun1.
    assert (forall capital' , walk_forward cfg (d2 :: rest) capital'
                                (points ++ [(d2, capital')])%list w1 = (Ok result, w') ->
            (exists added, result = (points ++ added)%list
                           /\ map fst added = tl (d1 :: d2 :: rest))
            /\ (exists sigs_rows pos_rows,
                   db w' = set_positions (set_signals (db w) sigs_rows) pos_rows)
            /\ run_id (run w') = run_id (run w)
            /\ as_of_date (run w') = last_rebalance (d1 :: d2 :: rest) (as_of_date (run w)))
      as Hstep.
    { intros capital' Hw.
      destruct (IH _ _ _ _ _ Hw) as ((added & -> & Hdates) & (s2 & p2 & Hdb2) & Hrid & Has).
      split; [exists ((d2, capital') :: added); rewrite <- app_assoc; cbn [map fst tl];
              rewrite Hdates; split; reflexivity|].
      split; [exists s2, p2; rewrite Hdb2, Hdb1; reflexivity|].
      split; [rewrite Hrid, Hrun1; reflexivity|].
      rewrite Has, Hrun1. cbn [as_of_date]. unfold last_rebalance.
      rewrite removelast_cons2. symmetry. apply last_cons_default. }
    destruct portfolio as [|p ps]; [exact (Hstep _ H)|].
    destruct (_portfolio_return _ _ _ _ _) as [r|e]; [exact (Hstep _ H) | discriminate].
Qed.

(** X14. A walk that completes appends one equity point per period, dated by
    the schedule entries after the first, in order.  It has written to the
    signals and positions tables only, and it leaves the as-of date of the
    shared run context at the last rebalance date. *)
Theorem walk_forward_shape (cfg : StrategyConfig) (schedule : list date) :
  forall capital points w result w',
    walk_forward cfg schedule capital points w = (Ok result, w') ->
    (exists added, result = (points ++ added)%list /\ map fst added = tl schedule)
    /\ (exists sigs_rows pos_rows,
           db w' = set_positions (set_signals (db w) sigs_rows) pos_rows)
    /\ run_id (run w') = run_id (run w)
    /\ as_of_date (run w') = last_rebalance schedule (as_of_date (run w)).
Proof. exact (walk_forward_appends cfg schedule). Qed.

Lemma walk_forward_shape_witness :
  exists result w',
    walk_forward default_strategy sample_schedule 1 [(mkdate 2024 10 31, 1)]
                 (sample_world flat_prices) = (Ok result, w')
    /\ (exists added, result = ([(mkdate 2024 10 31, 1)] ++ added)%list
                      /\ map fst added = tl sample_schedule)
    /\ (exists sigs_rows pos_rows,
           db w' = set_positions (set_signals (db (sample_world flat_prices)) sigs_rows)
                                 pos_rows)
    /\ run_id (run w') = run_id (run (sample_world flat_prices))
    /\ as_of_date (run w')
       = last_rebalance sample_schedule (as_of_date (run (sample_world flat_prices))).
Proof.
  eexists. eexists.
  assert (forall result w',
             walk_forward default_strategy sample_schedule 1 [(mkdate 2024 10 31, 1)]
                          (sample_world flat_prices) = (Ok result, w') ->
             walk_forward default_strategy sample_schedule 1 [(mkdate 2024 10 31, 1)]
                          (sample_world flat_prices) = (Ok result, w')
             /\ (exists added, result = ([(mkdate 2024 10 31, 1)] ++ added)%list
                               /\ map fst added = tl sample_schedule)
             /\ (exists sigs_rows pos_rows,
                    db w' = set_positions
                              (set_signals (db (sample_world flat_prices)) sigs_rows) pos_rows)
             /\ run_id (run w') = run_id (run (sample_world flat_prices))
             /\ as_of_date (run w')
                = last_rebalance sample_schedule
                                 (as_of_date (run (sample_world flat_prices)))) as H.
  { intros result w' E. split; [exact E|].
    exact (walk_forward_shape default_strategy sample_schedule 1 [(mkdate 2024 10 31, 1)]
             (sample_world flat_prices) result w' E). }
  apply H. vm_compute. reflexivity.
Defined.

Lemma flat_map_all_nil {A B : Type} (f : A -> list B) (l : list A) :
  (forall x, In x l -> f x = []) -> flat_map f l = [].
Proof.
  induction l as [|a l IH]; intros H; [reflexivity|].
  cbn [flat_map]. rewrite (H a (or_introl eq_refl)), IH; [reflexivity|].
  intros x Hx. apply H. right. exact Hx.
Qed.

Lemma rebalance_nothing_active (cfg : StrategyConfig) (d : date) (w : World) :
  get_active_symbols (db w) d = [] ->
  (forall rec, In rec (signals (db w)) -> sr_run_id rec <> run_id (run w)) ->
  rebalance cfg d w = (Ok [], mkWorld (mkRun (run_id (run w)) d) (db w)).
Proof.
  intros Hnone Hrows. unfold rebalance, bind, build_signals.
  cbn [set_as_of_date db run run_id as_of_date].
  assert (existing_signals (db w) (run_id (run w)) d = []) as ->.
  { unfold existing_signals. apply flat_map_all_nil. intros rec Hrec.
    destruct (String.eqb_spec (sr_run_id rec) (run_id (run w))) as [E|E];
      [exfalso; exact (Hrows rec Hrec E) | reflexivity]. }
  rewrite Hnone. cbn [scan_symbols _persist_signals].
  unfold commit_signals. cbn [unique_insert].
  rewrite app_nil_r, set_signals_same. reflexivity.
Qed.

(** X15. With no active symbol on any rebalance date and no signal stored
    for the run, the walk completes with the capital carried unchanged
    through every period, and the database as it was: no portfolio is built
    and nothing is persisted.  Only the as-of date of the run has moved, to
    the last rebalance date. *)
Theorem walk_forward_nothing_active (cfg : StrategyConfig) (schedule : list date) :
  forall capital points w,
    (forall d, In d schedule -> get_active_symbols (db w) d = []) ->
    (forall rec, In rec (signals (db w)) -> sr_run_id rec <> run_id (run w)) ->
    walk_forward cfg schedule capital points w
    = (Ok (points ++ map (fun d => (d, capital)) (tl schedule))%list,
       mkWorld (mkRun (run_id (run w)) (last_rebalance schedule (as_of_date (run w))))
               (db w)).
Proof.
  induction schedule as [|d1 [|d2 rest] IH]; intros capital points w Hnone Hrows.
  - cbn. rewrite app_nil_r. destruct w as [[rid d] s]. reflexivity.
  - cbn. rewrite app_nil_r. destruct w as [[rid d] s]. reflexivity.
  - rewrite walk_forward_step.
    rewrite (rebalance_nothing_active cfg d1 w (Hnone d1 (or_introl eq_refl)) Hrows).
    rewrite IH; cbn [db run run_id as_of_date].
    + cbn [tl map]. rewrite <- app_assoc. cbn [app].
      unfold last_rebalance. rewrite (removelast_cons2 d1 d2 rest), last_cons_default.
      reflexivity.
    + intros d Hd. apply Hnone. right. exact Hd.
    + exact Hrows.
Qed.

Lemma walk_forward_nothing_active_witness :
  (forall d, In d sample_schedule ->
             get_active_symbols (db (mkWorld sample_run lapsed_store)) d = [])
  /\ (forall rec, In rec (signals (db (mkWorld sample_run lapsed_store))) ->
                  sr_run_id rec <> run_id (run (mkWorld sample_run lapsed_store)))
  /\ walk_forward default_strategy sample_schedule 1 [(mkdate 2024 10 31, 1)]
                  (mkWorld sample_run lapsed_store)
     = (Ok ([(mkdate 2024 10 31, 1)]
            ++ map (fun d => (d, 1)) (tl sample_schedule))%list,
        mkWorld (mkRun (run_id (run (mkWorld sample_run lapsed_store)))
                       (last_rebalance sample_schedule
                                       (as_of_date (run (mkWorld sample_run lapsed_store)))))
                (db (mkWorld sample_run lapsed_store))).
Proof.
  assert (forall d, In d sample_schedule ->
                    get_active_symbols (db (mkWorld sample_run lapsed_store)) d = [])
    as H1 by (intros d [<-|[<-|[<-|[]]]]; vm_compute; reflexivity).
  assert (forall rec, In rec (signals (db (mkWorld sample_run lapsed_store))) ->
                      sr_run_id rec <> run_id (run (mkWorld sample_run lapsed_store)))
    as H2 by (intros rec []).
  split; [exact H1|]. split; [exact H2|].
  exact (walk_forward_nothing_active default_strategy sample_schedule 1
           [(mkdate 2024 10 31, 1)] (mkWorld sample_run lapsed_store) H1 H2).
Defined.

Lemma point_key_eqb_eq (k1 k2 : string * date) :
  String.eqb (fst k1) (fst k2) && (snd k1 =? snd k2)%Z = true <-> k1 = k2.
Proof.
  destruct k1 as [a1 b1], k2 as [a2 b2]. cbn [fst snd].
  rewrite andb_true_iff, String.eqb_eq, Z.eqb_eq.
  split; [intros [-> ->]; reflexivity | intros H; inversion H; auto].
Qed.

Lemma py_index_last_point {A : Type} (l : list A) (d : A) :
  l <> [] -> py_index l (-1) = Ok (py_last l d).
Proof.
  intros Hne. unfold py_last.
  rewrite (app_removelast_last d Hne) at 1. apply py_index_last.
Qed.

(** With a last point to read, [_persist_results] goes on to the two
    inserts. *)
Lemma persist_results_nonempty (start_date end_date : date)
      (equity_points : list (date * Q)) (summary : PerformanceSummary) (w : World) :
  equity_points <> [] ->
  _persist_results start_date end_date equity_points summary w
  = if unique_insert String.eqb br_run_id
                     (map br_run_id (backtest_results (db w)))
                     [result_row (run_id (run w)) start_date end_date equity_points summary]
       && unique_insert
            (fun k1 k2 => String.eqb (fst k1) (fst k2) && (snd k1 =? snd k2)%Z)
            (fun p => (ep_run_id p, ep_point_date p))
            (map (fun p => (ep_run_id p, ep_point_date p))
                 (backtest_equity_curve (db w)))
            (equity_rows (run_id (run w)) equity_points)
    then (Ok tt,
          mkWorld (run w)
                  (set_backtest (db w)
                     (backtest_results (db w)
                      ++ [result_row (run_id (run w)) start_date end_date
                                     equity_points summary])
                     (backtest_equity_curve (db w)
                      ++ equity_rows (run_id (run w)) equity_points)))
    else (Raise IntegrityError, w).
Proof.
  intros Hne. unfold _persist_results, bind, lift.
  rewrite (py_index_last_point equity_points (start_date, 1) Hne). reflexivity.
Qed.

(** X16. On an empty list of equity points [_persist_results] raises
    [IndexError] and stores nothing.  On a list that is not empty it raises
    [IntegrityError] and stores nothing when the run already has a result
    row; and when the run has no stored result or equity row yet and the
    points carry distinct dates, it stores one result row for the run,
    holding the capital of the last equity point and the summary, and one
    row per equity point. *)
Theorem persist_results_spec (start_date end_date : date)
        (equity_points : list (date * Q)) (summary : PerformanceSummary) (w : World) :
  (equity_points = [] ->
   _persist_results start_date end_date equity_points summary w = (Raise IndexError, w))
  /\ (equity_points <> [] ->
      (exists row, In row (backtest_results (db w)) /\ br_run_id row = run_id (run w)) ->
      _persist_results start_date end_date equity_points summary w
      = (Raise IntegrityError, w))
  /\ (equity_points <> [] ->
      (forall row, In row (backtest_results (db w)) -> br_run_id row <> run_id (run w)) ->
      (forall pt, In pt (backtest_equity_curve (db w)) -> ep_run_id pt <> run_id (run w)) ->
      NoDup (map fst equity_points) ->
      _persist_results start_date end_date equity_points summary w
      = (Ok tt,
         mkWorld (run w)
                 (set_backtest (db w)
                    (backtest_results (db w)
                     ++ [result_row (run_id (run w)) start_date end_date
                                    equity_points summary])
                    (backtest_equity_curve (db w)
                     ++ equity_rows (run_id (run w)) equity_points)))).
Proof.
  split; [|split].
  - intros ->. reflexivity.
  - intros Hne (row & Hrow & Hrid). rewrite (persist_results_nonempty _ _ _ _ _ Hne).
    cbn [unique_insert result_row br_run_id].
    assert (existsb (String.eqb (run_id (run w))) (map br_run_id (backtest_results (db w)))
            = true) as ->; [|reflexivity].
    apply existsb_exists. exists (br_run_id row). split; [apply in_map; exact Hrow|].
    apply String.eqb_eq. symmetry. exact Hrid.
  - intros Hne Hres Hpts Hnd. rewrite (persist_results_nonempty _ _ _ _ _ Hne).
    rewrite (unique_insert_fresh String.eqb br_run_id _ String.eqb_eq);
      [|repeat constructor; intros H; inversion H
       |intros r [<-|[]] Hin; cbn [br_run_id result_row] in Hin;
        apply in_map_iff in Hin as (row & E & Hrow); exact (Hres row Hrow E)].
    unfold equity_rows.
    rewrite (unique_insert_fresh _ (fun p => (ep_run_id p, ep_point_date p)) _
               point_key_eqb_eq); [reflexivity| |].
    + rewrite map_map. cbn [ep_run_id ep_point_date].
      clear - Hnd. induction equity_points as [|p ps IH]; [constructor|].
      cbn [map] in *. apply NoDup_cons_In in Hnd as [Hp Hnd].
      apply NoDup_cons_In. split; [|apply IH; exact Hnd].
      intros Hin. apply in_map_iff in Hin as (q & E & Hq). inversion E as [Ef].
      apply Hp. rewrite <- Ef. apply in_map. exact Hq.
    + intros r Hr Hin. apply in_map_iff in Hr as (p & <- & _).
      cbn [ep_run_id ep_point_date] in Hin.
      apply in_map_iff in Hin as (pt & E & Hpt). inversion E as [[E1 E2]].
      exact (Hpts pt Hpt E1).
Qed.

Lemma persist_results_spec_witness :
  _persist_results (mkdate 2024 10 31) (mkdate 2024 11 30) [] sample_summary
                   (mkWorld sample_run lapsed_store)
  = (Raise IndexError, mkWorld sample_run lapsed_store)
  /\ _persist_results (mkdate 2024 10 31) (mkdate 2024 11 30)
                      [(mkdate 2024 10 31, 1); (mkdate 2024 11 30, 1)] sample_summary
                      (mkWorld sample_run
                               (set_backtest lapsed_store
                                  [result_row "run-1" 1%Z 2%Z [] sample_summary] []))
     = (Raise IntegrityError,
        mkWorld sample_run
                (set_backtest lapsed_store [result_row "run-1" 1%Z 2%Z [] sample_summary] []))
  /\ _persist_results (mkdate 2024 10 31) (mkdate 2024 11 30)
                      [(mkdate 2024 10 31, 1); (mkdate 2024 11 30, 1)] sample_summary
                      (mkWorld sample_run lapsed_store)
     = (Ok tt,
        mkWorld sample_run
                (set_backtest lapsed_store
                   ([] ++ [result_row "run-1" (mkdate 2024 10 31) (mkdate 2024 11 30)
                                      [(mkdate 2024 10 31, 1); (mkdate 2024 11 30, 1)]
                                      sample_summary])
                   ([] ++ equity_rows "run-1"
                             [(mkdate 2024 10 31, 1); (mkdate 2024 11 30, 1)]))).
Proof.
  assert (NoDup (map fst [(mkdate 2024 10 31, 1); (mkdate 2024 11 30, 1)])) as Hnd.
  { apply (bool_decide_unpack _). vm_compute. exact I. }
  split; [|split].
  - exact (proj1 (persist_results_spec (mkdate 2024 10 31) (mkdate 2024 11 30) []
                    sample_summary (mkWorld sample_run lapsed_store)) eq_refl).
  - apply (proj1 (proj2 (persist_results_spec (mkdate 2024 10 31) (mkdate 2024 11 30)
                           [(mkdate 2024 10 31, 1); (mkdate 2024 11 30, 1)] sample_summary
                           (mkWorld sample_run
                                    (set_backtest lapsed_store
                                       [result_row "run-1" 1%Z 2%Z [] sample_summary] []))))).
    + discriminate.
    + eexists. split; [left; reflexivity | reflexivity].
  - apply (proj2 (proj2 (persist_results_spec (mkdate 2024 10 31) (mkdate 2024 11 30)
                           [(mkdate 2024 10 31, 1); (mkdate 2024 11 30, 1)] sample_summary
                           (mkWorld sample_run lapsed_store)))).
    + discriminate.
    + intros row [].
    + intros pt [].
    + exact Hnd.
Defined.

Lemma compute_summary_periods (fpow : Q -> Q -> Q) (fsqrt : Q -> Q) (curve : list Q)
      (ppy : Z) (s : PerformanceSummary) :
  compute_summary fpow fsqrt curve ppy = Ok s -> periods s = Z.of_nat (length curve).
Proof.
  unfold compute_summary. destruct curve as [|x curve].
  - intros H. inversion H. reflexivity.
  - destruct (py_div _ x) as [c|e]; [|discriminate]. cbn [rbind].
    destruct (ppy =? 0)%Z; [discriminate|]. cbn [rbind].
    destruct (Qltb 0 c); cbn [rbind].
    + unfold py_pow_checked. destruct (Qltb float_max _); cbn [rbind]; [discriminate|].
      intros H. inversion H. reflexivity.
    + intros H. inversion H. reflexivity.
Qed.

(** X17. A report that [run_schedule] returns holds one equity point per
    schedule date: the start date at capital 1, then the schedule entries
    after the first.  Its figures are those of the summary of that curve,
    and the run gets one stored result row, whose [periods] is the number of
    schedule dates and whose final capital is that of the last point, and
    one stored row per equity point. *)
Theorem run_schedule_report (fpow : Q -> Q -> Q) (fsqrt : Q -> Q) (cfg : StrategyConfig)
        (start_date end_date : date) (schedule : list date) (w w' : World)
        (report : Report) :
  run_schedule fpow fsqrt cfg start_date end_date schedule w = (Ok report, w') ->
  exists added summary,
    map fst added = tl schedule
    /\ compute_summary fpow fsqrt (1 :: map snd added) 12 = Ok summary
    /\ report = mkReport (run_id (run w)) start_date end_date ((start_date, 1) :: added)
                         (cagr summary) (volatility summary) (max_drawdown summary)
    /\ periods summary = Z.of_nat (length schedule)
    /\ backtest_results (db w')
       = (backtest_results (db w)
          ++ [result_row (run_id (run w)) start_date end_date
                         ((start_date, 1) :: added) summary])%list
    /\ backtest_equity_curve (db w')
       = (backtest_equity_curve (db w)
          ++ equity_rows (run_id (run w)) ((start_date, 1) :: added))%list.
Proof.
  unfold run_schedule.
  destruct (Z.ltb_spec (Z.of_nat (length schedule)) 2) as [Hlt|Hge]; [discriminate|].
  unfold bind at 1.
  destruct (walk_forward cfg schedule 1 [(start_date, 1)] w) as [[points|e] w1] eqn:Ewalk;
    [|discriminate].
  destruct (walk_forward_appends _ _ _ _ _ _ _ Ewalk)
    as ((added & -> & Hdates) & (s1 & p1 & Hdb) & Hrid & _).
  cbn [app].
  unfold bind at 1, lift.
  destruct (compute_summary fpow fsqrt (map snd ((start_date, 1) :: added)) 12)
    as [summary|e] eqn:Esum; [|discriminate].
  unfold bind at 1.
  rewrite persist_results_nonempty by discriminate.
  destruct (_ && _); [|discriminate].
  intros H. injection H as <- <-.
  exists added, summary. cbn [db run backtest_results backtest_equity_curve set_backtest].
  rewrite Hrid, Hdb. cbn [backtest_results backtest_equity_curve set_positions set_signals].
  split; [exact Hdates|]. split; [exact Esum|]. split; [reflexivity|].
  split; [|split; reflexivity].
  rewrite (compute_summary_periods _ _ _ _ _ Esum). cbn [length map].
  rewrite length_map.
  assert (length added = length (tl schedule)) as -> by (rewrite <- Hdates, length_map; reflexivity).
  destruct schedule as [|d l]; cbn [length tl] in *; lia.
Qed.

Lemma run_schedule_report_witness :
  exists report w',
    run_schedule sample_pow sample_sqrt default_strategy (mkdate 2024 10 31)
                 (mkdate 2024 12 31) sample_schedule (sample_world flat_prices)
    = (Ok report, w')
    /\ exists added summary,
        map fst added = tl sample_schedule
        /\ compute_summary sample_pow sample_sqrt (1 :: map snd added) 12 = Ok summary
        /\ report = mkReport (run_id (run (sample_world flat_prices))) (mkdate 2024 10 31)
                             (mkdate 2024 12 31) ((mkdate 2024 10 31, 1) :: added)
                             (cagr summary) (volatility summary) (max_drawdown summary)
        /\ periods summary = Z.of_nat (length sample_schedule)
        /\ backtest_results (db w')
           = (backtest_results (db (sample_world flat_prices))
              ++ [result_row (run_id (run (sample_world flat_prices))) (mkdate 2024 10 31)
                             (mkdate 2024 12 31) ((mkdate 2024 10 31, 1) :: added)
                             summary])%list
        /\ backtest_equity_curve (db w')
           = (backtest_equity_curve (db (sample_world flat_prices))
              ++ equity_rows (run_id (run (sample_world flat_prices)))
                             ((mkdate 2024 10 31, 1) :: added))%list.
Proof.
  destruct (run_schedule sample_pow sample_sqrt default_strategy (mkdate 2024 10 31)
                         (mkdate 2024 12 31) sample_schedule (sample_world flat_prices))
    as [[report|e] w'] eqn:E.
  - exists report, w'. split; [reflexivity|].
    exact (run_schedule_report sample_pow sample_sqrt default_strategy (mkdate 2024 10 31)
             (mkdate 2024 12 31) sample_schedule (sample_world flat_prices) w' report E).
  - exfalso. vm_compute in E. discriminate E.
Defined.

(** ** The performance summary and the factors *)

Lemma Qdiv_le_anti (a b c : Q) : 0 < a -> 0 < b -> b <= c -> a / c <= a / b.
Proof.
  intros Ha Hb Hbc.
  assert (Hc : 0 < c) by (eapply Qlt_le_trans; eassumption).
  apply Qle_shift_div_l; [exact Hb|].
  assert (E : a / c * b == a * b / c).
  { field. intros Hz. rewrite Hz in Hc. discriminate Hc. }
  rewrite E. apply Qle_shift_div_r; [exact Hc|].
  apply Qmult_le_l; assumption.
Qed.

Lemma list_min_le_init (l : list Q) (x : Q) : list_min x l <= x.
Proof.
  unfold list_min. revert x. induction l as [|a l IH]; intros x; cbn [fold_left].
  - apply Qle_refl.
  - eapply Qle_trans; [apply IH|apply Q.le_min_l].
Qed.

Lemma list_min_le_nth (l : list Q) (x : Q) (j : nat) (y : Q) :
  nth_error (x :: l) j = Some y -> list_min x l <= y.
Proof.
  unfold list_min. revert x j. induction l as [|a l IH]; intros x j Hj.
  - destruct j as [|[|j]]; cbn in Hj; try discriminate.
    injection Hj as <-. apply Qle_refl.
  - cbn [fold_left]. destruct j as [|j].
    + cbn in Hj. injection Hj as <-.
      eapply Qle_trans; [apply (list_min_le_init l)|apply Q.le_min_l].
    + destruct j as [|j].
      * cbn in Hj. injection Hj as <-.
        eapply Qle_trans; [apply (list_min_le_init l)|apply Q.le_min_r].
      * apply (IH (Qmin x a) (S j)). exact Hj.
Qed.

Lemma list_min_attained (l : list Q) (x : Q) :
  exists j y, nth_error (x :: l) j = Some y /\ list_min x l == y.
Proof.
  unfold list_min. revert x. induction l as [|a l IH]; intros x.
  - exists 0%nat, x. split; [reflexivity|apply Qeq_refl].
  - cbn [fold_left]. destruct (IH (Qmin x a)) as (j & y & Hj & Hy).
    destruct j as [|j].
    + cbn in Hj. injection Hj as <-.
      destruct (Q.min_spec_le x a) as [[_ E]|[_ E]].
      * exists 0%nat, x. split; [reflexivity|]. rewrite Hy. exact E.
      * exists 1%nat, a. split; [reflexivity|]. rewrite Hy. exact E.
    + exists (S (S j)), y. split; [exact Hj|exact Hy].
Qed.

Lemma running_max_from_head (x : Q) (l : list Q) :
  running_max (x :: l) = running_max_from x (x :: l).
Proof.
  cbn [running_max running_max_from].
  assert (E : Qmax x x = x).
  { unfold Qmax, GenericMinMax.gmax. destruct (x ?= x); reflexivity. }
  rewrite E. reflexivity.
Qed.

Lemma running_max_from_spec (l : list Q) (m : Q) (j : nat) (M : Q) :
  nth_error (running_max_from m l) j = Some M ->
  m <= M
  /\ (forall i xi, (i <= j)%nat -> nth_error l i = Some xi -> xi <= M)
  /\ (M == m \/ exists i xi, (i <= j)%nat /\ nth_error l i = Some xi /\ M == xi).
Proof.
  revert m j. induction l as [|x l IH]; intros m j Hj.
  - destruct j; discriminate Hj.
  - cbn [running_max_from] in Hj. destruct j as [|j].
    + cbn in Hj. injection Hj as <-. split; [apply Q.le_max_l|]. split.
      * intros i xi Hi Hxi. assert (i = 0%nat) as -> by lia.
        cbn in Hxi. injection Hxi as <-. apply Q.le_max_r.
      * destruct (Q.max_spec_le m x) as [[_ E]|[_ E]].
        -- right. exists 0%nat, x. split; [lia|]. split; [reflexivity|exact E].
        -- left. exact E.
    + cbn [nth_error] in Hj. destruct (IH _ _ Hj) as (Hm & Hle & Hat).
      split; [eapply Qle_trans; [apply Q.le_max_l|exact Hm]|]. split.
      * intros i xi Hi Hxi. destruct i as [|i].
        -- cbn in Hxi. injection Hxi as <-.
           eapply Qle_trans; [apply Q.le_max_r|exact Hm].
        -- cbn in Hxi. apply (Hle i); [lia|exact Hxi].
      * destruct Hat as [E|(i & xi & Hi & Hxi & E)].
        -- destruct (Q.max_spec_le m x) as [[_ E']|[_ E']].
           ++ right. exists 0%nat, x. split; [lia|]. split; [reflexivity|].
              rewrite E. exact E'.
           ++ left. rewrite E. exact E'.
        -- right. exists (S i), xi. split; [lia|]. split; [exact Hxi|exact E].
Qed.

Lemma ratio_minus_one_nth (a b : list Q) (j : nat) (d : Q) :
  nth_error (ratio_minus_one a b) j = Some d ->
  exists x y, nth_error a j = Some x /\ nth_error b j = Some y /\ d = x / y - 1.
Proof.
  revert b j. induction a as [|x a IH]; intros b j Hj.
  - destruct j; discriminate Hj.
  - destruct b as [|y b]; [destruct j; discriminate Hj|].
    cbn [ratio_minus_one] in Hj. destruct j as [|j].
    + cbn in Hj. injection Hj as <-. exists x, y. repeat split.
    + cbn [nth_error] in *. apply IH. exact Hj.
Qed.

Lemma ratio_minus_one_total (a b : list Q) (j : nat) (x : Q) :
  length a = length b -> nth_error a j = Some x ->
  exists d, nth_error (ratio_minus_one a b) j = Some d.
Proof.
  revert b j. induction a as [|x' a IH]; intros b j Hlen Hj.
  - destruct j; discriminate Hj.
  - destruct b as [|y b]; [discriminate Hlen|].
    cbn [ratio_minus_one]. destruct j as [|j].
    + eexists. reflexivity.
    + cbn [nth_error] in *. apply IH; [|exact Hj]. cbn in Hlen. lia.
Qed.

Lemma running_max_from_length (l : list Q) (m : Q) :
  length (running_max_from m l) = length l.
Proof.
  revert m. induction l as [|x l IH]; intros m; cbn; [reflexivity|].
  rewrite IH. reflexivity.
Qed.

Lemma nth_error_positive (curve : list Q) (i : nat) (x : Q) :
  all_positive curve -> nth_error curve i = Some x -> 0 < x.
Proof. intros Hpos Hi. apply Hpos. eapply nth_error_In. exact Hi. Qed.

(** The smallest entry of [curve / running maximum - 1] is the deepest fall
    of a curve of positive points. *)
Lemma drawdown_deepest_fall (x : Q) (l : list Q) (d : Q) (ds : list Q) :
  all_positive (x :: l) ->
  ratio_minus_one (x :: l) (running_max (x :: l)) = d :: ds ->
  deepest_fall (x :: l) (list_min d ds).
Proof.
  intros Hpos Hds. rewrite running_max_from_head in Hds.
  assert (Hx : 0 < x) by (apply Hpos; left; reflexivity).
  split.
  - intros i j xi xj Hij Hi Hj.
    destruct (ratio_minus_one_total (x :: l) (running_max_from x (x :: l)) j xj)
      as (dj & Hdj); [rewrite running_max_from_length; reflexivity|exact Hj|].
    destruct (ratio_minus_one_nth _ _ _ _ Hdj) as (xj' & M & Hj' & HM & ->).
    rewrite Hj in Hj'. injection Hj' as <-.
    destruct (running_max_from_spec _ _ _ _ HM) as (_ & Hle & _).
    rewrite Hds in Hdj.
    eapply Qle_trans; [apply (list_min_le_nth ds d j); exact Hdj|].
    apply Qplus_le_l. apply Qdiv_le_anti.
    + eapply nth_error_positive; eassumption.
    + eapply nth_error_positive; eassumption.
    + apply (Hle i); assumption.
  - destruct (list_min_attained ds d) as (j & dj & Hdj & E).
    rewrite <- Hds in Hdj.
    destruct (ratio_minus_one_nth _ _ _ _ Hdj) as (xj & M & Hj & HM & ->).
    destruct (running_max_from_spec _ _ _ _ HM) as (_ & _ & [EM|(i & xi & Hi & Hxi & EM)]).
    + exists 0%nat, j, x, xj. split; [lia|]. split; [reflexivity|]. split; [exact Hj|].
      rewrite E, EM. reflexivity.
    + exists i, j, xi, xj. split; [exact Hi|]. split; [exact Hxi|]. split; [exact Hj|].
      rewrite E, EM. reflexivity.
Qed.

Lemma deepest_fall_bounds (curve : list Q) (d : Q) :
  all_positive curve -> deepest_fall curve d -> -1 < d /\ d <= 0.
Proof.
  intros Hpos (Hle & i & j & xi & xj & Hij & Hi & Hj & E). split.
  - rewrite E.
    assert (Hxi : 0 < xi) by (eapply nth_error_positive; eassumption).
    assert (Hxj : 0 < xj) by (eapply nth_error_positive; eassumption).
    assert (0 < xj / xi) by (apply Qlt_shift_div_l; [exact Hxi|]; rewrite Qmult_0_l; exact Hxj).
    lra.
  - assert (Hxi : 0 < xi) by (eapply nth_error_positive; eassumption).
    specialize (Hle i i xi xi (Nat.le_refl i) Hi Hi).
    assert (E1 : xi / xi - 1 == 0).
    { field. intros Hz. rewrite Hz in Hxi. discriminate Hxi. }
    rewrite E1 in Hle. exact Hle.
Qed.





(** X20. On a price frame that is not empty and holds positive prices,
    [_max_drawdown] returns the deepest fall of the frame, a value above -1
    and at most 0. *)
Theorem factor_max_drawdown_deepest_fall (df : frame) :
  df <> [] -> all_positive df ->
  exists d, _max_drawdown df = Some d /\ deepest_fall df d /\ -1 < d /\ d <= 0.
Proof.
  intros Hne Hpos. destruct df as [|x rest]; [contradiction|].
  unfold _max_drawdown.
  destruct (ratio_minus_one (x :: rest) (running_max (x :: rest))) as [|d ds] eqn:Hds.
  - cbn in Hds. discriminate Hds.
  - pose proof (drawdown_deepest_fall x rest d ds Hpos Hds) as Hfall.
    eexists. split; [reflexivity|]. split; [exact Hfall|].
    apply (deepest_fall_bounds (x :: rest)); assumption.
Qed.

Lemma factor_max_drawdown_deepest_fall_witness :
  exists d, _max_drawdown sample_curve = Some d /\ deepest_fall sample_curve d
            /\ -1 < d /\ d <= 0.
Proof.
  apply (factor_max_drawdown_deepest_fall sample_curve).
  - discriminate.
  - intros x Hx. cbn in Hx.
    repeat (destruct Hx as [<-|Hx]; [reflexivity|]). contradiction.
Defined.

Lemma momentum_long_enough (df : frame) (lookback : Z) :
  (0 < lookback <= Z.of_nat (length df))%Z ->
  exists v, _momentum df lookback = Ok (Some v).
Proof.
  intros [Hpos Hle]. unfold _momentum.
  assert ((Z.of_nat (length df) <? lookback)%Z = false) as -> by (apply Z.ltb_ge; lia).
  destruct (py_index_neg df lookback) as (s & _ & ->); [lia|].
  destruct (py_index_neg df 1) as (e & _ & Ee); [lia|].
  change (- (1))%Z with (-1)%Z in Ee. cbn [rbind]. rewrite Ee. cbn [rbind].
  eexists. reflexivity.
Qed.

Lemma momentum_too_short (df : frame) (lookback : Z) :
  (Z.of_nat (length df) < lookback)%Z -> _momentum df lookback = Ok None.
Proof.
  intros Hlt. unfold _momentum.
  assert ((Z.of_nat (length df) <? lookback)%Z = true) as -> by (apply Z.ltb_lt; lia).
  reflexivity.
Qed.

(** X21. For a price frame that is not empty, the loop of
    [FactorEngine.compute] over the default definitions raises nothing and
    stores rows for the symbol and the run in the order of the definitions:
    only [max_drawdown] under 126 prices, the two 126-day factors as well
    from 126 prices on, and all four factors from 252 prices on. *)
Theorem compute_factor_rows_by_length (fsqrt : Q -> Q) (symbol_id : Z) (rid : string)
        (df : frame) :
  df <> [] ->
  exists rows,
    factor_rows fsqrt definitions symbol_id rid df = Ok rows
    /\ map fv_factor_name rows = factor_names_for (Z.of_nat (length df))
    /\ forall r, In r rows -> fv_symbol_id r = symbol_id /\ fv_run_id r = rid.
Proof.
  intros Hne.
  assert (Hmdd : exists d, _max_drawdown df = Some d).
  { unfold _max_drawdown. destruct (ratio_minus_one df (running_max df)); eexists; reflexivity. }
  destruct Hmdd as (d & Hd).
  unfold factor_rows, definitions, _compute_factor, factor_names_for.
  cbn [method lookback_days name String.eqb Ascii.eqb Bool.eqb].
  rewrite Hd. unfold _realized_vol.
  destruct (Z.ltb_spec (Z.of_nat (length df)) 126) as [H126|H126].
  - rewrite (momentum_too_short df 252), (momentum_too_short df 126) by lia.
    cbn [rbind]. eexists. split; [reflexivity|]. split; [reflexivity|].
    intros r [<-|[]]. split; reflexivity.
  - destruct (momentum_long_enough df 126) as (v6 & ->); [lia|].
    destruct (Z.ltb_spec (Z.of_nat (length df)) 252) as [H252|H252].
    + rewrite (momentum_too_short df 252) by lia.
      cbn [rbind]. eexists. split; [reflexivity|]. split; [reflexivity|].
      intros r [<-|[<-|[<-|[]]]]; split; reflexivity.
    + destruct (momentum_long_enough df 252) as (v12 & ->); [lia|].
      cbn [rbind]. eexists. split; [reflexivity|]. split; [reflexivity|].
      intros r [<-|[<-|[<-|[<-|[]]]]]; split; reflexivity.
Qed.

Lemma compute_factor_rows_by_length_witness :
  exists rows,
    factor_rows sample_sqrt definitions 1 "run-1" sample_frame = Ok rows
    /\ map fv_factor_name rows = factor_names_for (Z.of_nat (length sample_frame))
    /\ forall r, In r rows -> fv_symbol_id r = 1%Z /\ fv_run_id r = "run-1"%string.
Proof.
  apply (compute_factor_rows_by_length sample_sqrt 1 "run-1" sample_frame).
  discriminate.
Defined.

(** ** Merging overrides into a configuration *)

Lemma dict_get_set (d : pydict) (k k' : string) (v : pyval) :
  dict_get (dict_set d k v) k' = if String.eqb k k' then Some v else dict_get d k'.
Proof.
  induction d as [|[k0 v0] d IH]; cbn [dict_set dict_get].
  - reflexivity.
  - destruct (String.eqb_spec k0 k) as [->|Hne]; cbn [dict_get].
    + destruct (String.eqb k k'); reflexivity.
    + rewrite IH. destruct (String.eqb_spec k0 k') as [->|Hne'].
      * destruct (String.eqb_spec k k') as [->|_]; [contradiction|reflexivity].
      * reflexivity.
Qed.

Lemma dict_get_absent (d : pydict) (k : string) :
  ~ In k (map fst d) -> dict_get d k = None.
Proof.
  induction d as [|[k0 v0] d IH]; intros Hk; cbn [dict_get]; [reflexivity|].
  destruct (String.eqb_spec k0 k) as [->|_].
  - exfalso. apply Hk. left. reflexivity.
  - apply IH. intros H. apply Hk. right. exact H.
Qed.

Lemma dict_get_present (d : pydict) (k : string) (v : pyval) :
  List.NoDup (map fst d) -> In (k, v) d -> dict_get d k = Some v.
Proof.
  induction d as [|[k0 v0] d IH]; intros Hnd Hin; [contradiction|].
  cbn [map fst] in Hnd. inversion Hnd as [|? ? Hk0 Hnd']; subst.
  cbn [dict_get]. destruct Hin as [E|Hin].
  - injection E as -> ->. rewrite String.eqb_refl. reflexivity.
  - destruct (String.eqb_spec k0 k) as [->|_].
    + exfalso. apply Hk0. apply (in_map fst) in Hin. exact Hin.
    + apply IH; assumption.
Qed.

Lemma dict_set_same (d : pydict) (k : string) (v : pyval) :
  dict_get d k = Some v -> dict_set d k v = d.
Proof.
  induction d as [|[k0 v0] d IH]; cbn [dict_get dict_set]; [discriminate|].
  destruct (String.eqb_spec k0 k) as [->|_].
  - intros H. injection H as ->. reflexivity.
  - intros H. rewrite IH by exact H. reflexivity.
Qed.

Lemma has_key_In (d : pydict) (k : string) : has_key d k = true <-> In k (map fst d).
Proof.
  unfold has_key. rewrite existsb_exists. split.
  - intros (x & Hx & E). apply String.eqb_eq in E. subst x. exact Hx.
  - intros H. exists k. split; [exact H|apply String.eqb_refl].
Qed.

Lemma dict_set_keys (d : pydict) (k : string) (v : pyval) :
  map fst (dict_set d k v)
  = if has_key d k then map fst d else (map fst d ++ [k])%list.
Proof.
  induction d as [|[k0 v0] d IH]; cbn [dict_set]; [reflexivity|].
  unfold has_key in *. cbn [map fst existsb].
  destruct (String.eqb_spec k0 k) as [->|Hne].
  - rewrite String.eqb_refl. reflexivity.
  - destruct (String.eqb_spec k k0) as [E|_]; [symmetry in E; contradiction|].
    cbn [orb map fst]. rewrite IH.
    destruct (existsb (String.eqb k) (map fst d)); reflexivity.
Qed.

(** The loop of [_merge_dict], one item at a time. *)
Lemma merge_dict_nil (base : pydict) : _merge_dict base [] = base.
Proof. reflexivity. Qed.

Lemma merge_dict_cons (base : pydict) (key : string) (value : pyval) (rest : pydict) :
  _merge_dict base ((key, value) :: rest)
  = _merge_dict
      (match value, dict_get base key with
       | PyDict v, Some (PyDict b) => dict_set base key (PyDict (_merge_dict b v))
       | _, _ => dict_set base key value
       end) rest.
Proof. destruct value; reflexivity. Qed.

(** The value [_merge_dict] stores for one item of the overrides. *)
Lemma merge_step_get (base : pydict) (key : string) (value : pyval) (k : string) :
  dict_get
    (match value, dict_get base key with
     | PyDict v, Some (PyDict b) => dict_set base key (PyDict (_merge_dict b v))
     | _, _ => dict_set base key value
     end) k
  = if String.eqb key k
    then merged_value base [(key, value)] key
    else dict_get base k.
Proof.
  unfold merged_value. cbn [dict_get]. rewrite String.eqb_refl.
  destruct value as [s|v]; [apply dict_get_set|].
  destruct (dict_get base key) as [[s|b]|]; apply dict_get_set.
Qed.

Lemma merge_dict_get (overrides : pydict) :
  forall base key,
    List.NoDup (map fst overrides) ->
    dict_get (_merge_dict base overrides) key = merged_value base overrides key.
Proof.
  induction overrides as [|[k0 v0] rest IH]; intros base key Hnd.
  - reflexivity.
  - cbn [map fst] in Hnd. inversion Hnd as [|? ? Hk0 Hnd']; subst.
    rewrite merge_dict_cons, IH by exact Hnd'.
    unfold merged_value. cbn [dict_get].
    destruct (String.eqb_spec k0 key) as [->|Hne].
    + rewrite (dict_get_absent rest key Hk0).
      rewrite merge_step_get, String.eqb_refl.
      unfold merged_value. cbn [dict_get]. rewrite String.eqb_refl. reflexivity.
    + rewrite merge_step_get.
      destruct (String.eqb_spec k0 key) as [E|_]; [contradiction|]. reflexivity.
Qed.

(** X22. For overrides with distinct keys, a lookup in the merged mapping
    gives the override's value when the overrides have the key, except that
    two mappings under the same key are merged in turn, and the base's
    value when they do not. *)
Theorem merge_dict_lookup (base overrides : pydict) (key : string) :
  List.NoDup (map fst overrides) ->
  dict_get (_merge_dict base overrides) key
  = match dict_get overrides key with
    | None => dict_get base key
    | Some (PyDict v) =>
        match dict_get base key with
        | Some (PyDict b) => Some (PyDict (_merge_dict b v))
        | _ => Some (PyDict v)
        end
    | Some value => Some value
    end.
Proof. intros Hnd. apply merge_dict_get. exact Hnd. Qed.

Lemma merge_dict_lookup_witness :
  dict_get (_merge_dict sample_base sample_overrides) "factor_weights"
  = match dict_get sample_overrides "factor_weights" with
    | None => dict_get sample_base "factor_weights"
    | Some (PyDict v) =>
        match dict_get sample_base "factor_weights" with
        | Some (PyDict b) => Some (PyDict (_merge_dict b v))
        | _ => Some (PyDict v)
        end
    | Some value => Some value
    end.
Proof.
  apply (merge_dict_lookup sample_base sample_overrides "factor_weights").
  vm_compute. repeat constructor; cbn; intuition discriminate.
Defined.

Lemma merge_step_keys (base : pydict) (key : string) (value : pyval) :
  map fst
    (match value, dict_get base key with
     | PyDict v, Some (PyDict b) => dict_set base key (PyDict (_merge_dict b v))
     | _, _ => dict_set base key value
     end)
  = if has_key base key then map fst base else (map fst base ++ [key])%list.
Proof.
  destruct value as [s|v]; [apply dict_set_keys|].
  destruct (dict_get base key) as [[s|b]|]; apply dict_set_keys.
Qed.

Lemma has_key_ext (d d' : pydict) (k : string) :
  map fst d = map fst d' -> has_key d k = has_key d' k.
Proof. unfold has_key. intros ->. reflexivity. Qed.

Lemma has_key_snoc (d d' : pydict) (k0 k : string) :
  map fst d' = (map fst d ++ [k0])%list ->
  has_key d' k = has_key d k || String.eqb k k0.
Proof.
  unfold has_key. intros ->. rewrite existsb_app. cbn [existsb].
  rewrite orb_false_r. reflexivity.
Qed.

Lemma new_keys_step (base base' : pydict) (k0 : string) (v0 : pyval) (rest : pydict) :
  map fst base' = (if has_key base k0 then map fst base else (map fst base ++ [k0])%list) ->
  ~ In k0 (map fst rest) ->
  (map fst base' ++ new_keys base' rest)%list
  = (map fst base ++ new_keys base ((k0, v0) :: rest))%list.
Proof.
  intros Hstep Hk0. unfold new_keys. cbn [map fst List.filter].
  destruct (has_key base k0) eqn:Hk.
  - cbn [negb]. rewrite Hstep. f_equal.
    apply filter_ext. intros k. rewrite (has_key_ext base' base k Hstep). reflexivity.
  - cbn [negb]. rewrite Hstep, <- app_assoc. cbn [app]. f_equal. f_equal.
    apply filter_ext_in. intros k Hin.
    rewrite (has_key_snoc base base' k0 k Hstep).
    destruct (String.eqb_spec k k0) as [->|_]; [contradiction|].
    rewrite orb_false_r. reflexivity.
Qed.

Lemma merge_dict_keys_aux (overrides : pydict) :
  forall base,
    List.NoDup (map fst overrides) ->
    map fst (_merge_dict base overrides)
    = (map fst base ++ new_keys base overrides)%list.
Proof.
  induction overrides as [|[k0 v0] rest IH]; intros base Hnd.
  - rewrite merge_dict_nil. unfold new_keys. cbn. rewrite app_nil_r. reflexivity.
  - cbn [map fst] in Hnd. inversion Hnd as [|? ? Hk0 Hnd']; subst.
    rewrite merge_dict_cons, IH by exact Hnd'.
    apply new_keys_step; [apply merge_step_keys|exact Hk0].
Qed.

(** X23. Merging overrides with distinct keys keeps the keys of the base
    in their order and puts the keys that are new after them, in the order
    of the overrides; when the keys of the base are distinct, so are the
    keys of the result. *)
Theorem merge_dict_keys (base overrides : pydict) :
  List.NoDup (map fst overrides) ->
  map fst (_merge_dict base overrides) = (map fst base ++ new_keys base overrides)%list
  /\ (List.NoDup (map fst base) -> List.NoDup (map fst (_merge_dict base overrides))).
Proof.
  intros Hnd. split; [apply merge_dict_keys_aux; exact Hnd|].
  intros Hbase. rewrite merge_dict_keys_aux by exact Hnd.
  apply List.NoDup_app; [exact Hbase| |].
  - apply List.NoDup_filter. exact Hnd.
  - intros k Hk Hin. unfold new_keys in Hin. apply filter_In in Hin.
    destruct Hin as [_ Hneg]. apply has_key_In in Hk. rewrite Hk in Hneg.
    discriminate Hneg.
Qed.

Lemma merge_dict_keys_witness :
  map fst (_merge_dict sample_base sample_overrides)
  = (map fst sample_base ++ new_keys sample_base sample_overrides)%list
  /\ (List.NoDup (map fst sample_base)
      -> List.NoDup (map fst (_merge_dict sample_base sample_overrides))).
Proof.
  apply (merge_dict_keys sample_base sample_overrides).
  vm_compute. repeat constructor; cbn; intuition discriminate.
Defined.

Lemma pyval_deep_ind (P : pyval -> Prop) :
  (forall s, P (PyAtom s)) ->
  (forall items, (forall k x, In (k, x) items -> P x) -> P (PyDict items)) ->
  forall v, P v.
Proof.
  intros Hatom Hdict. fix IH 1. intros [s|items].
  - apply Hatom.
  - apply Hdict. induction items as [|[k x] items IHitems].
    + intros k x [].
    + intros k' x' [E|Hin].
      * injection E as _ <-. apply IH.
      * eapply IHitems. exact Hin.
Qed.

Lemma well_formed_dict (items : pydict) :
  well_formed (PyDict items)
  <-> List.NoDup (map fst items) /\ forall k x, In (k, x) items -> well_formed x.
Proof.
  cbn [well_formed]. split; intros [Hnd Hall]; (split; [exact Hnd|]).
  - induction items as [|[k0 x0] items IH]; intros k x Hin; [contradiction|].
    destruct Hall as [Hx0 Hall]. destruct Hin as [E|Hin].
    + injection E as _ <-. exact Hx0.
    + cbn [map fst] in Hnd. inversion Hnd; subst. eapply IH; eassumption.
  - clear Hnd. induction items as [|[k0 x0] items IH]; [exact I|]. split.
    + apply (Hall k0). left. reflexivity.
    + apply IH. intros k x Hin. apply (Hall k). right. exact Hin.
Qed.

(** Overrides whose items the base already holds change nothing. *)
Lemma merge_dict_held (overrides : pydict) :
  (forall k v, In (k, PyDict v) overrides -> _merge_dict v v = v) ->
  forall base,
    (forall k x, In (k, x) overrides -> dict_get base k = Some x) ->
    _merge_dict base overrides = base.
Proof.
  intros Hdeep. induction overrides as [|[k0 v0] rest IH]; intros base Hheld.
  - reflexivity.
  - rewrite merge_dict_cons.
    assert (Hget : dict_get base k0 = Some v0) by (apply Hheld; left; reflexivity).
    rewrite Hget. destruct v0 as [s|v].
    + rewrite (dict_set_same _ _ _ Hget). apply IH.
      * intros k v Hin. apply (Hdeep k). right. exact Hin.
      * intros k x Hin. apply Hheld. right. exact Hin.
    + rewrite (Hdeep k0 v) by (left; reflexivity).
      rewrite (dict_set_same _ _ _ Hget). apply IH.
      * intros k v' Hin. apply (Hdeep k). right. exact Hin.
      * intros k x Hin. apply Hheld. right. exact Hin.
Qed.

Lemma merge_dict_again (overrides : pydict) :
  (forall k v, In (k, PyDict v) overrides ->
     _merge_dict v v = v
     /\ forall b, _merge_dict (_merge_dict b v) v = _merge_dict b v) ->
  List.NoDup (map fst overrides) ->
  forall base,
    _merge_dict (_merge_dict base overrides) overrides = _merge_dict base overrides.
Proof.
  intros Hdeep Hnd. induction overrides as [|[k0 v0] rest IH]; intros base.
  - reflexivity.
  - cbn [map fst] in Hnd. inversion Hnd as [|? ? Hk0 Hnd']; subst.
    assert (IH' : forall base, _merge_dict (_merge_dict base rest) rest = _merge_dict base rest).
    { apply IH; [|exact Hnd']. intros k v Hin. apply (Hdeep k). right. exact Hin. }
    rewrite (merge_dict_cons base).
    set (base' := match v0 with
                  | PyAtom _ => dict_set base k0 v0
                  | PyDict v =>
                      match dict_get base k0 with
                      | Some (PyDict b) => dict_set base k0 (PyDict (_merge_dict b v))
                      | _ => dict_set base k0 v0
                      end
                  end).
    rewrite merge_dict_cons.
    assert (Hget : dict_get (_merge_dict base' rest) k0 = dict_get base' k0).
    { rewrite merge_dict_get by exact Hnd'. unfold merged_value.
      rewrite (dict_get_absent rest k0 Hk0). reflexivity. }
    assert (Hstep :
      match v0 with
      | PyAtom _ => dict_set (_merge_dict base' rest) k0 v0
      | PyDict v =>
          match dict_get (_merge_dict base' rest) k0 with
          | Some (PyDict b) =>
              dict_set (_merge_dict base' rest) k0 (PyDict (_merge_dict b v))
          | _ => dict_set (_merge_dict base' rest) k0 v0
          end
      end = _merge_dict base' rest).
    { rewrite Hget. subst base'. destruct v0 as [s|v].
      - apply dict_set_same. rewrite Hget, dict_get_set, String.eqb_refl. reflexivity.
      - destruct (Hdeep k0 v) as [Hself Hagain]; [left; reflexivity|].
        destruct (dict_get base k0) as [[s|b]|] eqn:Hb.
        + rewrite dict_get_set, String.eqb_refl, Hself.
          apply dict_set_same. rewrite Hget, dict_get_set, String.eqb_refl. reflexivity.
        + rewrite dict_get_set, String.eqb_refl, Hagain.
          apply dict_set_same. rewrite Hget, dict_get_set, String.eqb_refl. reflexivity.
        + rewrite dict_get_set, String.eqb_refl, Hself.
          apply dict_set_same. rewrite Hget, dict_get_set, String.eqb_refl. reflexivity. }
    rewrite Hstep. apply IH'.
Qed.

Lemma merge_dict_deep (v : pyval) :
  well_formed v ->
  forall items, v = PyDict items ->
    _merge_dict items items = items
    /\ forall b, _merge_dict (_merge_dict b items) items = _merge_dict b items.
Proof.
  induction v as [s|items IH] using pyval_deep_ind; intros Hwf items' E; [discriminate E|].
  injection E as <-.
  apply well_formed_dict in Hwf. destruct Hwf as [Hnd Hall].
  assert (Hdeep : forall k v, In (k, PyDict v) items ->
            _merge_dict v v = v
            /\ forall b, _merge_dict (_merge_dict b v) v = _merge_dict b v).
  { intros k v Hin. apply (IH k (PyDict v) Hin); [|reflexivity].
    apply (Hall k). exact Hin. }
  split.
  - apply merge_dict_held.
    + intros k v Hin. apply (Hdeep k v Hin).
    + intros k x Hin. apply dict_get_present; assumption.
  - apply merge_dict_again; assumption.
Qed.

(** X24. Merging the same overrides a second time changes nothing, when the
    keys of the overrides are distinct at every depth; and overrides merged
    into themselves come back as they are. *)
Theorem merge_dict_idempotent (base overrides : pydict) :
  well_formed (PyDict overrides) ->
  _merge_dict (_merge_dict base overrides) overrides = _merge_dict base overrides
  /\ _merge_dict overrides overrides = overrides.
Proof.
  intros Hwf.
  destruct (merge_dict_deep (PyDict overrides) Hwf overrides eq_refl) as [Hself Hagain].
  split; [apply Hagain|exact Hself].
Qed.

Lemma merge_dict_idempotent_witness :
  _merge_dict (_merge_dict sample_base sample_overrides) sample_overrides
  = _merge_dict sample_base sample_overrides
  /\ _merge_dict sample_overrides sample_overrides = sample_overrides.
Proof.
  apply (merge_dict_idempotent sample_base sample_overrides).
  cbn. repeat split; repeat constructor; cbn; intuition discriminate.
Defined.

(** ** The override store *)

Lemma set_path_get (value : pyval) (rest : list string) :
  forall node part node',
    set_path node part rest value = Done node' ->
    get_path node' part rest = Some value.
Proof.
  induction rest as [|next rest' IH]; intros node part node' H.
  - cbn [set_path] in H. injection H as <-. cbn [get_path].
    rewrite dict_get_set, String.eqb_refl. reflexivity.
  - cbn [set_path] in H. cbn [get_path].
    destruct (dict_get node part) as [[a|d]|].
    + destruct rest'; discriminate H.
    + destruct (set_path d next rest' value) as [sub|e] eqn:E; [|discriminate H].
      injection H as <-. rewrite dict_get_set, String.eqb_refl. apply IH with d. exact E.
    + destruct (set_path [] next rest' value) as [sub|e] eqn:E; [|discriminate H].
      injection H as <-. rewrite dict_get_set, String.eqb_refl. apply IH with []. exact E.
Qed.

Lemma set_path_frame (value : pyval) (rest : list string) (node : pydict)
      (part : string) (node' : pydict) (k : string) :
  set_path node part rest value = Done node' -> k <> part ->
  dict_get node' k = dict_get node k.
Proof.
  intros H Hk.
  assert (Hset : forall v, dict_get (dict_set node part v) k = dict_get node k).
  { intros v. rewrite dict_get_set.
    destruct (String.eqb_spec part k) as [E|_]; [symmetry in E; contradiction|reflexivity]. }
  destruct rest as [|next rest']; cbn [set_path] in H.
  - injection H as <-. apply Hset.
  - destruct (dict_get node part) as [[a|d]|].
    + destruct rest'; discriminate H.
    + destruct (set_path d next rest' value); [|discriminate H].
      injection H as <-. apply Hset.
    + destruct (set_path [] next rest' value); [|discriminate H].
      injection H as <-. apply Hset.
Qed.

Lemma set_path_fresh (value : pyval) (rest : list string) (part : string) :
  exists node', set_path [] part rest value = Done node'.
Proof.
  revert part. induction rest as [|next rest' IH]; intros part; cbn [set_path dict_get].
  - eexists. reflexivity.
  - destruct (IH next) as (sub & ->). eexists. reflexivity.
Qed.

Lemma dict_get_insert_item (d : pydict) (k : string) (v : pyval) (k' : string) :
  dict_get (insert_item k v d) k'
  = if String.eqb k k' then Some v else dict_get d k'.
Proof.
  induction d as [|[k0 v0] d IH]; cbn [insert_item dict_get]; [reflexivity|].
  destruct (String.leb k k0) eqn:Hle; cbn [dict_get].
  - reflexivity.
  - rewrite IH. destruct (String.eqb_spec k0 k') as [->|_]; [|reflexivity].
    destruct (String.eqb_spec k k') as [->|_]; [|reflexivity].
    assert (String.leb k' k' = true) as Hrefl.
    { destruct (String.leb_total k' k') as [H|H]; exact H. }
    rewrite Hrefl in Hle. discriminate Hle.
Qed.

Lemma sort_keys_dict (d : pydict) : sort_keys (PyDict d) = PyDict (dumped d).
Proof. reflexivity. Qed.

Lemma dumped_cons (k : string) (x : pyval) (d : pydict) :
  dumped ((k, x) :: d) = insert_item k (sort_keys x) (dumped d).
Proof. reflexivity. Qed.

Lemma dict_get_dumped (d : pydict) (k : string) :
  dict_get (dumped d) k = option_map sort_keys (dict_get d k).
Proof.
  induction d as [|[k0 x0] d IH]; [reflexivity|].
  rewrite dumped_cons, dict_get_insert_item. cbn [dict_get].
  destruct (String.eqb k0 k); [reflexivity|exact IH].
Qed.

Lemma get_path_dumped (rest : list string) :
  forall d part,
    get_path (dumped d) part rest = option_map sort_keys (get_path d part rest).
Proof.
  induction rest as [|next rest' IH]; intros d part; cbn [get_path].
  - apply dict_get_dumped.
  - rewrite dict_get_dumped. destruct (dict_get d part) as [[a|d0]|]; cbn [option_map].
    + reflexivity.
    + rewrite sort_keys_dict. apply IH.
    + reflexivity.
Qed.

(** X25. When [update_field] returns, the mapping it returns holds the
    value at the end of the path, the file holds that mapping with its keys
    sorted, a later read finds the value (its own keys sorted) along the
    same path, and every other top-level key of the file keeps what it
    held. *)
Theorem update_field_round_trip (f : store_file) (field_path : string) (value : pyval)
        (data' : pydict) (f' : store_file) :
  update_field f field_path value = (Done data', f') ->
  f' = Some (dumped data')
  /\ get_path data' (fst (split_dot field_path)) (snd (split_dot field_path)) = Some value
  /\ get_path (read f') (fst (split_dot field_path)) (snd (split_dot field_path))
     = Some (sort_keys value)
  /\ forall k, k <> fst (split_dot field_path) ->
               dict_get (read f') k = option_map sort_keys (dict_get (read f) k).
Proof.
  unfold update_field. destruct (split_dot field_path) as [part rest]. cbn [fst snd].
  destruct (set_path (read f) part rest value) as [d|e] eqn:E; [|discriminate].
  intros H. injection H as <- <-. unfold write.
  pose proof (set_path_get _ _ _ _ _ E) as Hget.
  split; [reflexivity|]. split; [exact Hget|]. cbn [read]. split.
  - rewrite get_path_dumped, Hget. reflexivity.
  - intros k Hk. rewrite dict_get_dumped.
    rewrite (set_path_frame _ _ _ _ _ k E Hk). reflexivity.
Qed.

Lemma update_field_round_trip_witness :
  exists data' f',
    update_field sample_file "strategy.factor_weights.momentum_12_1" (PyAtom "0.55")
    = (Done data', f')
    /\ f' = Some (dumped data')
    /\ get_path data' (fst (split_dot "strategy.factor_weights.momentum_12_1"))
                (snd (split_dot "strategy.factor_weights.momentum_12_1"))
       = Some (PyAtom "0.55")
    /\ get_path (read f') (fst (split_dot "strategy.factor_weights.momentum_12_1"))
                (snd (split_dot "strategy.factor_weights.momentum_12_1"))
       = Some (sort_keys (PyAtom "0.55"))
    /\ forall k, k <> fst (split_dot "strategy.factor_weights.momentum_12_1") ->
                 dict_get (read f') k = option_map sort_keys (dict_get (read sample_file) k).
Proof.
  eexists. eexists.
  assert (H : forall data' f',
             update_field sample_file "strategy.factor_weights.momentum_12_1" (PyAtom "0.55")
             = (Done data', f') ->
             update_field sample_file "strategy.factor_weights.momentum_12_1" (PyAtom "0.55")
             = (Done data', f')
             /\ f' = Some (dumped data')
             /\ get_path data' (fst (split_dot "strategy.factor_weights.momentum_12_1"))
                         (snd (split_dot "strategy.factor_weights.momentum_12_1"))
                = Some (PyAtom "0.55")
             /\ get_path (read f') (fst (split_dot "strategy.factor_weights.momentum_12_1"))
                         (snd (split_dot "strategy.factor_weights.momentum_12_1"))
                = Some (sort_keys (PyAtom "0.55"))
             /\ forall k, k <> fst (split_dot "strategy.factor_weights.momentum_12_1") ->
                          dict_get (read f') k
                          = option_map sort_keys (dict_get (read sample_file) k)).
  { intros data' f' E. split; [exact E|].
    exact (update_field_round_trip sample_file "strategy.factor_weights.momentum_12_1"
             (PyAtom "0.55") data' f' E). }
  apply H. vm_compute. reflexivity.
Defined.

Lemma set_path_fails_iff (value : pyval) (rest : list string) :
  forall node part,
    (exists e, set_path node part rest value = Failed e) <-> blocked node part rest.
Proof.
  unfold blocked.
  induction rest as [|next rest' IH]; intros node part.
  - cbn [set_path length]. split.
    + intros (e & H). discriminate H.
    + intros (n & a & Hn & _). lia.
  - cbn [set_path]. destruct (dict_get node part) as [[a|d]|] eqn:Hget.
    + split.
      * intros _. exists 0%nat, a. split; [cbn; lia|]. cbn [firstn get_path]. exact Hget.
      * intros _. destruct rest'; eexists; reflexivity.
    + split.
      * intros (e & H).
        destruct (set_path d next rest' value) as [sub|e'] eqn:E; [discriminate H|].
        destruct (proj1 (IH d next)) as (n & a & Hn & Ha); [exists e'; exact E|].
        exists (S n), a. split; [cbn [length]; lia|].
        cbn [firstn get_path]. rewrite Hget. exact Ha.
      * intros (n & a & Hn & Ha). destruct n as [|n].
        -- cbn [firstn get_path] in Ha. rewrite Hget in Ha. discriminate Ha.
        -- cbn [firstn get_path] in Ha. rewrite Hget in Ha.
           destruct (proj2 (IH d next)) as (e & E).
           { exists n, a. split; [cbn [length] in Hn; lia|exact Ha]. }
           rewrite E. exists e. reflexivity.
    + split.
      * intros (e & H). destruct (set_path_fresh value rest' next) as (sub & E).
        rewrite E in H. discriminate H.
      * intros (n & a & Hn & Ha). destruct n as [|n];
          cbn [firstn get_path] in Ha; rewrite Hget in Ha; discriminate Ha.
Qed.

Lemma set_path_type_error_iff (value : pyval) (rest : list string) :
  forall node part,
    set_path node part rest value = Failed TypeError
    <-> rest <> [] /\ exists a, get_path node part (removelast rest) = Some (PyAtom a).
Proof.
  induction rest as [|next rest' IH]; intros node part.
  - cbn [set_path]. split; [discriminate|]. intros [H _]. contradiction.
  - cbn [set_path]. destruct rest' as [|n2 r].
    + cbn [removelast get_path set_path].
      destruct (dict_get node part) as [[a|d]|].
      * split; [intros _; split; [discriminate|exists a; reflexivity]|reflexivity].
      * split; [discriminate|]. intros (_ & a & H). discriminate H.
      * split; [discriminate|]. intros (_ & a & H). discriminate H.
    + change (removelast (next :: n2 :: r)) with (next :: removelast (n2 :: r)).
      cbn [get_path]. destruct (dict_get node part) as [[a|d]|].
      * split; [discriminate|]. intros (_ & a' & H). discriminate H.
      * specialize (IH d next).
        destruct (set_path d next (n2 :: r) value) as [sub|e].
        -- split; [discriminate|]. intros (_ & Ha).
           assert (Hf : @Done pydict sub = Failed TypeError)
             by (apply IH; split; [discriminate|exact Ha]).
           discriminate Hf.
        -- split.
           ++ intros H. injection H as ->. split; [discriminate|].
              apply IH. reflexivity.
           ++ intros (_ & Ha). f_equal.
              assert (Hf : @Failed pydict e = Failed TypeError)
                by (apply IH; split; [discriminate|exact Ha]).
              injection Hf as ->. reflexivity.
      * destruct (set_path_fresh value (n2 :: r) next) as (sub & ->).
        split; [discriminate|]. intros (_ & a & H). discriminate H.
Qed.

(** X26. [update_field] raises exactly when some part of the path before
    its last leads, in the stored mapping, to something that is not a
    mapping; the error is a [TypeError] exactly when that happens at the
    part before the last, and the file is then left as it was. *)
Theorem update_field_blocked (f : store_file) (field_path : string) (value : pyval) :
  ((exists e, fst (update_field f field_path value) = Failed e)
   <-> blocked (read f) (fst (split_dot field_path)) (snd (split_dot field_path)))
  /\ (fst (update_field f field_path value) = Failed TypeError
      <-> snd (split_dot field_path) <> []
          /\ exists a, get_path (read f) (fst (split_dot field_path))
                                (removelast (snd (split_dot field_path)))
                       = Some (PyAtom a))
  /\ forall e, fst (update_field f field_path value) = Failed e ->
               snd (update_field f field_path value) = f.
Proof.
  unfold update_field. destruct (split_dot field_path) as [part rest]. cbn [fst snd].
  pose proof (set_path_fails_iff value rest (read f) part) as Hfail.
  pose proof (set_path_type_error_iff value rest (read f) part) as Htype.
  destruct (set_path (read f) part rest value) as [d|e0]; cbn [fst snd].
  - split; [|split].
    + rewrite <- Hfail. split; intros (e & H); discriminate H.
    + rewrite <- Htype. split; discriminate.
    + discriminate.
  - split; [|split].
    + rewrite <- Hfail. split; intros _; exists e0; reflexivity.
    + exact Htype.
    + reflexivity.
Qed.

(** ** Applying override proposals *)

Section ServiceFacts.

Variable py_str : pyval -> string.
Variable _coerce_value : pyval -> pyval.
Variable run_id : string.
Variable allowed_fields : gset string.

Lemma apply_loop_done (allow : bool) (proposals : list OverrideProposal) :
  forall applied skipped added f applied' skipped' added' f',
    apply_loop py_str _coerce_value run_id allowed_fields allow proposals
               applied skipped added f
    = (Done (applied', skipped', added'), f') ->
    applied'
    = (applied + Z.of_nat (length (List.filter (should_apply allowed_fields allow) proposals)))%Z
    /\ skipped'
       = (skipped
          ++ map field (List.filter (fun p => negb (should_apply allowed_fields allow p))
                                    proposals))%list
    /\ added' = (added ++ map (audit_row py_str run_id allowed_fields allow) proposals)%list
    /\ f' = written _coerce_value allowed_fields allow proposals f.
Proof.
  induction proposals as [|p ps IH]; intros applied skipped added f applied' skipped' added' f' H.
  - cbn in H. injection H as <- <- <- <-. cbn. rewrite !app_nil_r.
    repeat split. lia.
  - cbn [apply_loop] in H. unfold written. cbn [List.filter map fold_left].
    destruct (should_apply allowed_fields allow p) eqn:Hs; cbn [negb].
    + destruct (update_field f (field p) (_coerce_value (value p))) as [[d|e] f1] eqn:E;
        [|discriminate H].
      apply IH in H. destruct H as (-> & -> & -> & ->). cbn [snd length].
      rewrite <- app_assoc. cbn [app]. repeat split. lia.
    + apply IH in H. destruct H as (-> & -> & -> & ->).
      rewrite <- !app_assoc. cbn [app map]. repeat split.
Qed.

Lemma update_field_failed_file (f : store_file) (path : string) (v : pyval)
      (e : store_exn) (f' : store_file) :
  update_field f path v = (Failed e, f') -> f' = f.
Proof.
  unfold update_field. destruct (split_dot path) as [part rest].
  destruct (set_path (read f) part rest v); [discriminate|].
  intros H. injection H as _ <-. reflexivity.
Qed.

Lemma apply_loop_failed (allow : bool) (proposals : list OverrideProposal) :
  forall applied skipped added f e f',
    apply_loop py_str _coerce_value run_id allowed_fields allow proposals
               applied skipped added f
    = (Failed e, f') ->
    exists before p after,
      proposals = (before ++ p :: after)%list
      /\ should_apply allowed_fields allow p = true
      /\ f' = written _coerce_value allowed_fields allow before f
      /\ update_field f' (field p) (_coerce_value (value p)) = (Failed e, f').
Proof.
  induction proposals as [|p ps IH]; intros applied skipped added f e f' H.
  - discriminate H.
  - cbn [apply_loop] in H.
    destruct (should_apply allowed_fields allow p) eqn:Hs.
    + destruct (update_field f (field p) (_coerce_value (value p))) as [[d|e1] f1] eqn:E.
      * apply IH in H. destruct H as (before & p' & after & -> & Hp' & -> & Hup).
        exists (p :: before), p', after. unfold written. cbn [fold_left app].
        rewrite Hs, E. cbn [snd]. repeat split; assumption.
      * injection H as <- <-.
        pose proof (update_field_failed_file _ _ _ _ _ E) as ->.
        exists [], p, ps. repeat split; assumption.
    + apply IH in H. destruct H as (before & p' & after & -> & Hp' & -> & Hup).
      exists (p :: before), p', after. unfold written. cbn [fold_left app].
      rewrite Hs. repeat split; assumption.
Qed.

Lemma apply_loop_not_allowed (proposals : list OverrideProposal) :
  forall applied skipped added f,
    apply_loop py_str _coerce_value run_id allowed_fields false proposals
               applied skipped added f
    = (Done (applied, (skipped ++ map field proposals)%list,
             (added ++ map (audit_row py_str run_id allowed_fields false) proposals)%list),
       f).
Proof.
  induction proposals as [|p ps IH]; intros applied skipped added f.
  - cbn. rewrite !app_nil_r. reflexivity.
  - cbn [apply_loop]. unfold should_apply at 1. cbn [andb].
    rewrite IH, <- !app_assoc. reflexivity.
Qed.

End ServiceFacts.

(** X27. When [apply] returns, [applied] counts the proposals that are
    enabled and allowed under the flag, [skipped] lists the fields of the
    others in their order, the two add up to [total], the number of
    proposals; one audit row per proposal has been added, in order, and the
    file is what the updates of the applied proposals leave. *)
Theorem apply_accounts (py_str : pyval -> string) (_coerce_value : pyval -> pyval)
        (run_id : string) (allowed_fields : gset string)
        (proposals : list OverrideProposal) (allow_overrides : bool)
        (st st' : State) (report : ApplyReport) :
  apply py_str _coerce_value run_id allowed_fields proposals allow_overrides st
  = (Done report, st') ->
  applied report
  = Z.of_nat (length (List.filter (should_apply allowed_fields allow_overrides) proposals))
  /\ skipped report
     = map field (List.filter (fun p => negb (should_apply allowed_fields allow_overrides p))
                              proposals)
  /\ total report = Z.of_nat (length proposals)
  /\ (applied report + Z.of_nat (length (skipped report)) = total report)%Z
  /\ allow_flag report = allow_overrides
  /\ override_audit st'
     = (override_audit st
        ++ map (audit_row py_str run_id allowed_fields allow_overrides) proposals)%list
  /\ file st' = written _coerce_value allowed_fields allow_overrides proposals (file st).
Proof.
  unfold apply.
  destruct (apply_loop py_str _coerce_value run_id allowed_fields allow_overrides
                       proposals 0 [] [] (file st)) as [[[[a s] added]|e] f'] eqn:E;
    [|discriminate].
  intros H. injection H as <- <-.
  apply apply_loop_done in E. destruct E as (-> & -> & -> & ->).
  cbn [applied skipped total allow_flag override_audit file app].
  repeat split.
  rewrite length_map, Z.add_0_l, <- Nat2Z.inj_add. f_equal.
  induction proposals as [|p ps IH]; [reflexivity|].
  cbn [List.filter]. destruct (should_apply allowed_fields allow_overrides p);
    cbn [negb length]; lia.
Qed.

Lemma apply_accounts_witness :
  exists report st',
    apply sample_str (fun v => v) "run-1" sample_allowed sample_proposals true
          (mkState [] sample_file)
    = (Done report, st')
    /\ applied report
       = Z.of_nat (length (List.filter (should_apply sample_allowed true) sample_proposals))
    /\ skipped report
       = map field (List.filter (fun p => negb (should_apply sample_allowed true p))
                                sample_proposals)
    /\ total report = Z.of_nat (length sample_proposals)
    /\ (applied report + Z.of_nat (length (skipped report)) = total report)%Z
    /\ allow_flag report = true
    /\ override_audit st'
       = ([] ++ map (audit_row sample_str "run-1" sample_allowed true) sample_proposals)%list
    /\ file st' = written (fun v => v) sample_allowed true sample_proposals sample_file.
Proof.
  destruct (apply sample_str (fun v => v) "run-1" sample_allowed sample_proposals true
                  (mkState [] sample_file)) as [[report|e] st'] eqn:E.
  - exists report, st'. split; [reflexivity|].
    exact (apply_accounts sample_str (fun v => v) "run-1" sample_allowed sample_proposals
             true (mkState [] sample_file) st' report E).
  - exfalso. vm_compute in E. discriminate E.
Defined.

(** X28. With overrides not allowed, [apply] raises nothing, applies
    nothing and leaves the store file alone: it reports zero applied and
    every field skipped, and still adds one audit row per proposal, each
    with [enabled] false. *)
Theorem apply_not_allowed (py_str : pyval -> string) (_coerce_value : pyval -> pyval)
        (run_id : string) (allowed_fields : gset string)
        (proposals : list OverrideProposal) (st : State) :
  apply py_str _coerce_value run_id allowed_fields proposals false st
  = (Done (mkApplyReport 0 (map field proposals) (Z.of_nat (length proposals)) false),
     mkState (override_audit st
              ++ map (fun p => mkAudit run_id "notion" (field p) None (py_str (value p))
                                       (author p) false) proposals)
             (file st)).
Proof.
  unfold apply. rewrite apply_loop_not_allowed. cbn [app]. reflexivity.
Qed.

(** X29. When [apply] raises, no audit row is kept, but the store file keeps
    the updates of the proposals applied before the one whose update
    failed. *)
Theorem apply_failure_keeps_updates (py_str : pyval -> string)
        (_coerce_value : pyval -> pyval) (run_id : string) (allowed_fields : gset string)
        (proposals : list OverrideProposal) (allow_overrides : bool)
        (st st' : State) (e : store_exn) :
  apply py_str _coerce_value run_id allowed_fields proposals allow_overrides st
  = (Failed e, st') ->
  override_audit st' = override_audit st
  /\ exists before p after,
      proposals = (before ++ p :: after)%list
      /\ should_apply allowed_fields allow_overrides p = true
      /\ file st' = written _coerce_value allowed_fields allow_overrides before (file st)
      /\ update_field (file st') (field p) (_coerce_value (value p)) = (Failed e, file st').
Proof.
  unfold apply.
  destruct (apply_loop py_str _coerce_value run_id allowed_fields allow_overrides
                       proposals 0 [] [] (file st)) as [[[[a s] added]|e'] f'] eqn:E;
    [discriminate|].
  intros H. injection H as <- <-. cbn [override_audit file].
  split; [reflexivity|]. eapply apply_loop_failed. exact E.
Qed.

Lemma apply_failure_keeps_updates_witness :
  exists e st',
    apply sample_str (fun v => v) "run-1" {["universe.name"; "universe.name.short"]}
          [mkProposal "universe.name" (PyAtom "ipsa") None None true;
           mkProposal "universe.name.short" (PyAtom "ip") None None true]
          true (mkState [] None)
    = (Failed e, st')
    /\ file st' <> None
    /\ override_audit st' = []
    /\ exists before p after,
        [mkProposal "universe.name" (PyAtom "ipsa") None None true;
         mkProposal "universe.name.short" (PyAtom "ip") None None true]
        = (before ++ p :: after)%list
        /\ should_apply {["universe.name"; "universe.name.short"]} true p = true
        /\ file st' = written (fun v => v) {["universe.name"; "universe.name.short"]} true
                              before None
        /\ update_field (file st') (field p) (value p) = (Failed e, file st').
Proof.
  destruct (apply sample_str (fun v => v) "run-1" {["universe.name"; "universe.name.short"]}
                  [mkProposal "universe.name" (PyAtom "ipsa") None None true;
                   mkProposal "universe.name.short" (PyAtom "ip") None None true]
                  true (mkState [] None)) as [[report|e] st'] eqn:E.
  - exfalso. vm_compute in E. discriminate E.
  - exists e, st'. split; [reflexivity|]. split.
    + vm_compute in E. injection E as _ <-. discriminate.
    + exact (apply_failure_keeps_updates sample_str (fun v => v) "run-1"
               {["universe.name"; "universe.name.short"]}
               [mkProposal "universe.name" (PyAtom "ipsa") None None true;
                mkProposal "universe.name.short" (PyAtom "ip") None None true]
               true (mkState [] None) st' e E).
Defined.

(** ** From a stored override to the merged configuration *)

Lemma dict_get_In (d : pydict) (k : string) (x : pyval) :
  dict_get d k = Some x -> In (k, x) d.
Proof.
  induction d as [|[k0 x0] d IH]; cbn [dict_get]; [discriminate|].
  destruct (String.eqb_spec k0 k) as [->|_].
  - intros H. injection H as ->. left. reflexivity.
  - intros H. right. apply IH. exact H.
Qed.

Lemma merge_dict_leaf (rest : list string) :
  forall overrides base part a,
    well_formed (PyDict overrides) ->
    get_path overrides part rest = Some (PyAtom a) ->
    get_path (_merge_dict base overrides) part rest = Some (PyAtom a).
Proof.
  induction rest as [|next rest' IH]; intros overrides base part a Hwf Hleaf;
    apply well_formed_dict in Hwf; destruct Hwf as [Hnd Hall]; cbn [get_path] in *.
  - rewrite merge_dict_get by exact Hnd. unfold merged_value. rewrite Hleaf. reflexivity.
  - rewrite merge_dict_get by exact Hnd. unfold merged_value.
    destruct (dict_get overrides part) as [[s|d]|] eqn:Hd; try discriminate Hleaf.
    assert (Hwfd : well_formed (PyDict d)) by (apply (Hall part), dict_get_In; exact Hd).
    destruct (dict_get base part) as [[s|b]|].
    + exact Hleaf.
    + apply IH; assumption.
    + exact Hleaf.
Qed.

Lemma dict_set_In (d : pydict) (k : string) (v : pyval) (k' : string) (x : pyval) :
  In (k', x) (dict_set d k v) -> In (k', x) d \/ x = v.
Proof.
  induction d as [|[k0 x0] d IH]; cbn [dict_set].
  - intros [E|[]]. injection E as _ <-. right. reflexivity.
  - destruct (String.eqb k0 k).
    + intros [E|Hin]; [injection E as _ <-; right; reflexivity|left; right; exact Hin].
    + intros [E|Hin]; [left; left; exact E|].
      destruct (IH Hin) as [H|H]; [left; right; exact H|right; exact H].
Qed.

Lemma dict_set_well_formed (d : pydict) (k : string) (v : pyval) :
  well_formed (PyDict d) -> well_formed v -> well_formed (PyDict (dict_set d k v)).
Proof.
  intros Hd Hv. apply well_formed_dict in Hd. destruct Hd as [Hnd Hall].
  apply well_formed_dict. split.
  - rewrite dict_set_keys. destruct (has_key d k) eqn:Hk; [exact Hnd|].
    apply List.NoDup_app; [exact Hnd|repeat constructor; intros []|].
    intros k' Hin [<-|[]]. apply has_key_In in Hin. rewrite Hin in Hk. discriminate Hk.
  - intros k' x Hin. destruct (dict_set_In _ _ _ _ _ Hin) as [H| ->]; [|exact Hv].
    apply (Hall k'). exact H.
Qed.

Lemma well_formed_empty : well_formed (PyDict []).
Proof. cbn. split; [constructor|exact I]. Qed.

Lemma set_path_well_formed (value : pyval) (rest : list string) :
  forall node part node',
    well_formed (PyDict node) -> well_formed value ->
    set_path node part rest value = Done node' -> well_formed (PyDict node').
Proof.
  induction rest as [|next rest' IH]; intros node part node' Hnode Hvalue H;
    cbn [set_path] in H.
  - injection H as <-. apply dict_set_well_formed; assumption.
  - destruct (dict_get node part) as [[a|d]|] eqn:Hget.
    + destruct rest'; discriminate H.
    + destruct (set_path d next rest' value) as [sub|e] eqn:E; [|discriminate H].
      injection H as <-. apply dict_set_well_formed; [exact Hnode|].
      apply (IH d next); [|exact Hvalue|exact E].
      apply well_formed_dict in Hnode. destruct Hnode as [_ Hall].
      apply (Hall part), dict_get_In. exact Hget.
    + destruct (set_path [] next rest' value) as [sub|e] eqn:E; [|discriminate H].
      injection H as <-. apply dict_set_well_formed; [exact Hnode|].
      apply (IH [] next); [apply well_formed_empty|exact Hvalue|exact E].
Qed.

Lemma insert_item_keys (d : pydict) (k : string) (v : pyval) :
  Permutation (map fst (insert_item k v d)) (k :: map fst d).
Proof.
  induction d as [|[k0 v0] d IH]; cbn [insert_item]; [reflexivity|].
  destruct (String.leb k k0); cbn [map fst]; [reflexivity|].
  rewrite IH. apply perm_swap.
Qed.

Lemma insert_item_In (d : pydict) (k : string) (v : pyval) (k' : string) (x : pyval) :
  In (k', x) (insert_item k v d) -> (k', x) = (k, v) \/ In (k', x) d.
Proof.
  induction d as [|[k0 v0] d IH]; cbn [insert_item].
  - intros [E|[]]. left. symmetry. exact E.
  - destruct (String.leb k k0).
    + intros [E|H]; [left; symmetry; exact E|right; exact H].
    + intros [E|H]; [right; left; exact E|].
      destruct (IH H) as [H'|H']; [left; exact H'|right; right; exact H'].
Qed.

Lemma dumped_keys (d : pydict) : Permutation (map fst (dumped d)) (map fst d).
Proof.
  induction d as [|[k x] d IH]; [reflexivity|].
  rewrite dumped_cons, insert_item_keys. cbn [map fst]. rewrite IH. reflexivity.
Qed.

Lemma dumped_In (d : pydict) (k : string) (x : pyval) :
  In (k, x) (dumped d) -> exists x0, In (k, x0) d /\ x = sort_keys x0.
Proof.
  induction d as [|[k0 x0] d IH]; [intros []|].
  rewrite dumped_cons. intros Hin.
  destruct (insert_item_In _ _ _ _ _ Hin) as [E|H].
  - injection E as -> ->. exists x0. split; [left; reflexivity|reflexivity].
  - destruct (IH H) as (x1 & Hx1 & ->). exists x1. split; [right; exact Hx1|reflexivity].
Qed.

Lemma sort_keys_well_formed (v : pyval) : well_formed v -> well_formed (sort_keys v).
Proof.
  induction v as [s|items IH] using pyval_deep_ind; intros Hwf; [exact I|].
  rewrite sort_keys_dict. apply well_formed_dict in Hwf. destruct Hwf as [Hnd Hall].
  apply well_formed_dict. split.
  - apply NoDup_ListNoDup. rewrite dumped_keys. apply NoDup_ListNoDup. exact Hnd.
  - intros k x Hin. destruct (dumped_In _ _ _ Hin) as (x0 & Hx0 & ->).
    apply (IH k x0 Hx0). apply (Hall k). exact Hx0.
Qed.

(** X30. An override stored by [update_field] under a path of two parts or
    more reaches the configuration: the mapping that the overrides file
    then holds under the first part is not empty, and merged by
    [_merge_dict] into any base it gives the stored value along the rest of
    the path.  The value is a scalar and the keys in the file are distinct
    at every depth. *)
Theorem override_reaches_config (f : store_file) (field_path : string) (a : string)
        (data' : pydict) (f' : store_file) (section next : string) (rest : list string) :
  well_formed (PyDict (read f)) ->
  split_dot field_path = (section, next :: rest) ->
  update_field f field_path (PyAtom a) = (Done data', f') ->
  exists overrides,
    dict_get (_load_applied_overrides f') section = Some (PyDict overrides)
    /\ overrides <> []
    /\ forall base, get_path (_merge_dict base overrides) next rest = Some (PyAtom a).
Proof.
  intros Hwf Hsplit Hup. unfold update_field in Hup. rewrite Hsplit in Hup.
  destruct (set_path (read f) section (next :: rest) (PyAtom a)) as [d|e] eqn:E;
    [|discriminate Hup].
  injection Hup as <- <-. unfold write, _load_applied_overrides.
  pose proof (set_path_get _ _ _ _ _ E) as Hget.
  assert (Hwfd : well_formed (PyDict d)).
  { apply (set_path_well_formed (PyAtom a) (next :: rest) (read f) section);
      [exact Hwf|exact I|exact E]. }
  apply sort_keys_well_formed in Hwfd. rewrite sort_keys_dict in Hwfd.
  pose proof (get_path_dumped (next :: rest) d section) as Hdump.
  rewrite Hget in Hdump. cbn [option_map sort_keys get_path] in Hdump.
  destruct (dict_get (dumped d) section) as [[s|overrides]|] eqn:Hsec; try discriminate Hdump.
  exists overrides. split; [reflexivity|]. split.
  - intros ->. destruct rest; discriminate Hdump.
  - intros base. apply merge_dict_leaf; [|exact Hdump].
    apply well_formed_dict in Hwfd. destruct Hwfd as [_ Hall].
    apply (Hall section), dict_get_In. exact Hsec.
Qed.

Lemma override_reaches_config_witness :
  exists overrides,
    dict_get (_load_applied_overrides
                (snd (update_field sample_file "strategy.factor_weights.momentum_12_1"
                                   (PyAtom "0.55"))))
             "strategy"
    = Some (PyDict overrides)
    /\ overrides <> []
    /\ forall base,
        get_path (_merge_dict base overrides) "factor_weights" ["momentum_12_1"]
        = Some (PyAtom "0.55").
Proof.
  destruct (update_field sample_file "strategy.factor_weights.momentum_12_1" (PyAtom "0.55"))
    as [[data'|e] f'] eqn:E.
  - cbn [snd].
    apply (override_reaches_config sample_file "strategy.factor_weights.momentum_12_1"
             "0.55" data' f' "strategy" "factor_weights" ["momentum_12_1"]).
    + cbn. repeat split; repeat constructor; cbn; intuition discriminate.
    + vm_compute. reflexivity.
    + exact E.
  - exfalso. vm_compute in E. discriminate E.
Defined.
